(** * RV32IMA hart of MSIM: trap entry, Sv32 translation, memory interface,
      interrupt delivery and the step engine

    Shallow embedding of [src/device/cpu/riscv_rv32ima/cpu.c].  Machine
    integers are [Z] with the wrap-around written out ([u32], [u64]); the
    hart is a record threaded through every routine; a failed [ASSERT]
    aborts the simulator and is the [None] of an [option].  The physical
    memory layer and the instruction decoder are interfaces ([PhysMem],
    [Decoder]); the host clock is an argument of the step. *)

From Stdlib Require Import ZArith Lia Bool List.
From stdpp Require Import base list.
Import ListNotations.

Local Open Scope Z_scope.

(** ** Fixed-width arithmetic *)

Definition u32 (x : Z) : Z := x mod 2 ^ 32.
Definition u64 (x : Z) : Z := x mod 2 ^ 64.

(** [~x] on a [uint32_t]. *)
Definition not32 (x : Z) : Z := u32 (Z.lnot x).

(** The truth value C gives to [x & mask]. *)
Definition is_set (x mask : Z) : bool := negb (Z.land x mask =? 0).

(** Modelled from the spec: [utils.h] is not among the sources.
    [ALIGN_DOWN(addr, align)] clears the low bits of [addr] below the power
    of two [align] ("align_down" of sections 4.2 and 4.7); the complement of
    the [int] constant [align - 1] is sign-extended to the width of [addr],
    which is [Z.lnot] on [Z]. *)
Definition ALIGN_DOWN (addr align : Z) : Z := Z.land addr (Z.lnot (align - 1)).

(** Modelled from the spec: [utils.h] is not among the sources.
    [IS_ALIGNED(addr, align)]: natural alignment for a power of two. *)
Definition IS_ALIGNED (addr align : Z) : bool := Z.land addr (align - 1) =? 0.

(** Modelled from the spec: [utils.h] is not among the sources.  Section 4.4:
    width-correct extraction of the bits [from .. to-1] of a 64-bit value. *)
Definition EXTRACT_BITS (v from to : Z) : Z :=
  Z.land (Z.shiftr v from) (Z.ones (to - from)).

(** Modelled from the spec: [utils.h] is not among the sources.  Section 4.4:
    insertion of [v] into the bits [from .. to-1] of the 64-bit [dst]. *)
Definition WRITE_BITS (dst v from to : Z) : Z :=
  Z.lor (Z.land dst (Z.lnot (Z.shiftl (Z.ones (to - from)) from)))
        (Z.shiftl (Z.land v (Z.ones (to - from))) from).

(** ** Privilege modes *)

(** Modelled from the spec: [cpu.h] is not among the sources.  Section 3:
    [priv_mode] is one of U=0, S=1, M=3; it is a C enum, compared with [<]
    and [<=] and stored in the two bits of [mstatus.MPP]. *)
Definition rv_umode : Z := 0.
Definition rv_smode : Z := 1.
Definition rv_mmode : Z := 3.

(** ** Exception and interrupt codes *)

(** Modelled from the spec: the header declaring [rv_exc_t] is not among the
    sources.  The enumerators are the RISC-V cause codes the sources and the
    spec name, and [rv_exc_none], the "no exception" result. *)
Inductive rv_exc_t : Type :=
| rv_exc_supervisor_software_interrupt
| rv_exc_machine_software_interrupt
| rv_exc_supervisor_timer_interrupt
| rv_exc_machine_timer_interrupt
| rv_exc_supervisor_external_interrupt
| rv_exc_machine_external_interrupt
| rv_exc_instruction_address_misaligned
| rv_exc_instruction_access_fault
| rv_exc_illegal_instruction
| rv_exc_breakpoint
| rv_exc_load_address_misaligned
| rv_exc_load_access_fault
| rv_exc_store_amo_address_misaligned
| rv_exc_store_amo_access_fault
| rv_exc_umode_environment_call
| rv_exc_smode_environment_call
| rv_exc_mmode_environment_call
| rv_exc_instruction_page_fault
| rv_exc_load_page_fault
| rv_exc_store_amo_page_fault
| rv_exc_none.

#[global] Instance rv_exc_eq_dec : EqDecision rv_exc_t.
Proof. solve_decision. Defined.

(** Modelled from the spec: section 4.5, interrupts set the high bit of the
    code. *)
Definition RV_INTERRUPT_EXC_BITS : Z := 0x80000000.
Definition RV_EXCEPTION_EXC_BITS : Z := 0.

(** ** Bit layout of the CSRs *)

(** Modelled from the spec: [csr.h] is not among the sources.  Section 3: the
    [mstatus] bit-fields obey the RISC-V privileged specification. *)
Definition rv_csr_sstatus_sie_mask : Z := Z.shiftl 1 1.
Definition rv_csr_mstatus_mie_mask : Z := Z.shiftl 1 3.
Definition rv_csr_sstatus_spie_mask : Z := Z.shiftl 1 5.
Definition rv_csr_mstatus_mpie_mask : Z := Z.shiftl 1 7.
Definition rv_csr_sstatus_spp_pos : Z := 8.
Definition rv_csr_sstatus_spp_mask : Z := Z.shiftl 1 8.
Definition rv_csr_mstatus_mpp_pos : Z := 11.
Definition rv_csr_mstatus_mpp_mask : Z := Z.shiftl 3 11.
Definition rv_csr_mstatus_mprv_mask : Z := Z.shiftl 1 17.
Definition rv_csr_sstatus_sum_mask : Z := Z.shiftl 1 18.
Definition rv_csr_sstatus_mxr_mask : Z := Z.shiftl 1 19.

(** Modelled from the spec: [csr.h] is not among the sources.  Section 3:
    [mtvec] and [stvec] encode [{base[31:2], mode[1:0]}], direct = 0 and
    vectored = 1. *)
Definition rv_csr_mtvec_mode_mask : Z := 3.
Definition rv_csr_mtvec_mode_direct : Z := 0.
Definition rv_csr_mtvec_mode_vectored : Z := 1.

(** Modelled from the spec: [csr.h] is not among the sources.  [satp] of
    Sv32: the mode is bit 31 (0 is bare), the root page number the low 22
    bits. *)
Definition rv_csr_satp_mode_mask : Z := 0x80000000.
Definition rv_csr_satp_ppn_mask : Z := 0x003FFFFF.

(** Modelled from the spec: [csr.h] is not among the sources.  The bits of
    [mip] and [mie] sit at the cause code of their interrupt (scenario S6:
    the machine timer interrupt is code 7). *)
Definition rv_csr_ssi_mask : Z := Z.shiftl 1 1.
Definition rv_csr_msi_mask : Z := Z.shiftl 1 3.
Definition rv_csr_sti_mask : Z := Z.shiftl 1 5.
Definition rv_csr_mti_mask : Z := Z.shiftl 1 7.
Definition rv_csr_sei_mask : Z := Z.shiftl 1 9.
Definition rv_csr_mei_mask : Z := Z.shiftl 1 11.
Definition rv_csr_si_mask : Z :=
  Z.lor rv_csr_ssi_mask (Z.lor rv_csr_sti_mask rv_csr_sei_mask).

(** ** Architectural state *)

(** Modelled from the spec: [csr.h] is not among the sources.  Section 4.4:
    the events a performance counter can select. *)
Inductive csr_hpm_event_t : Type :=
| hpm_no_event | hpm_u_cycles | hpm_s_cycles | hpm_m_cycles | hpm_w_cycles.

(** Modelled from the spec: [csr.h] and [cpu.h] are not among the sources.
    The fields are those the sources access and section 3 lists.  64-bit
    fields: [mtime], [mtimecmp], [cycle], [instret], [hpmcounters],
    [last_tick_time] and [reserved_addr]; the others are 32 bits wide.
    The two arrays of the counters have 29 entries, [regs] has 32. *)
Record rv_csr_t : Type := mk_csr {
  mstatus : Z;
  mie : Z;
  mip : Z;
  mtvec : Z;
  mepc : Z;
  mcause : Z;
  mtval : Z;
  medeleg : Z;
  mideleg : Z;
  stvec : Z;
  sepc : Z;
  scause : Z;
  stval : Z;
  satp : Z;
  mtime : Z;
  mtimecmp : Z;
  scyclecmp : Z;
  cycle : Z;
  instret : Z;
  hpmcounters : list Z;
  hpmevents : list csr_hpm_event_t;
  mcountinhibit : Z;
  mhartid : Z;
  external_SEIP : bool;
  tval_next : Z;
  last_tick_time : Z
}.

Record rv_cpu_t : Type := mk_cpu {
  regs : list Z;
  pc : Z;
  pc_next : Z;
  csr : rv_csr_t;
  priv_mode : Z;
  stdby : bool;
  reserved_valid : bool;
  reserved_addr : Z
}.

Definition csr_set_mstatus (v : Z) (c : rv_csr_t) : rv_csr_t :=
  mk_csr
    v (mie c) (mip c) (mtvec c) (mepc c) (mcause c) (mtval c) (medeleg c)
    (mideleg c) (stvec c) (sepc c) (scause c) (stval c) (satp c) (mtime c)
    (mtimecmp c) (scyclecmp c) (cycle c) (instret c) (hpmcounters c)
    (hpmevents c) (mcountinhibit c) (mhartid c) (external_SEIP c)
    (tval_next c) (last_tick_time c).

Definition csr_set_mie (v : Z) (c : rv_csr_t) : rv_csr_t :=
  mk_csr
    (mstatus c) v (mip c) (mtvec c) (mepc c) (mcause c) (mtval c) (medeleg c)
    (mideleg c) (stvec c) (sepc c) (scause c) (stval c) (satp c) (mtime c)
    (mtimecmp c) (scyclecmp c) (cycle c) (instret c) (hpmcounters c)
    (hpmevents c) (mcountinhibit c) (mhartid c) (external_SEIP c)
    (tval_next c) (last_tick_time c).

Definition csr_set_mip (v : Z) (c : rv_csr_t) : rv_csr_t :=
  mk_csr
    (mstatus c) (mie c) v (mtvec c) (mepc c) (mcause c) (mtval c) (medeleg c)
    (mideleg c) (stvec c) (sepc c) (scause c) (stval c) (satp c) (mtime c)
    (mtimecmp c) (scyclecmp c) (cycle c) (instret c) (hpmcounters c)
    (hpmevents c) (mcountinhibit c) (mhartid c) (external_SEIP c)
    (tval_next c) (last_tick_time c).

Definition csr_set_mtvec (v : Z) (c : rv_csr_t) : rv_csr_t :=
  mk_csr
    (mstatus c) (mie c) (mip c) v (mepc c) (mcause c) (mtval c) (medeleg c)
    (mideleg c) (stvec c) (sepc c) (scause c) (stval c) (satp c) (mtime c)
    (mtimecmp c) (scyclecmp c) (cycle c) (instret c) (hpmcounters c)
    (hpmevents c) (mcountinhibit c) (mhartid c) (external_SEIP c)
    (tval_next c) (last_tick_time c).

Definition csr_set_medeleg (v : Z) (c : rv_csr_t) : rv_csr_t :=
  mk_csr
    (mstatus c) (mie c) (mip c) (mtvec c) (mepc c) (mcause c) (mtval c) v
    (mideleg c) (stvec c) (sepc c) (scause c) (stval c) (satp c) (mtime c)
    (mtimecmp c) (scyclecmp c) (cycle c) (instret c) (hpmcounters c)
    (hpmevents c) (mcountinhibit c) (mhartid c) (external_SEIP c)
    (tval_next c) (last_tick_time c).

Definition csr_set_mideleg (v : Z) (c : rv_csr_t) : rv_csr_t :=
  mk_csr
    (mstatus c) (mie c) (mip c) (mtvec c) (mepc c) (mcause c) (mtval c)
    (medeleg c) v (stvec c) (sepc c) (scause c) (stval c) (satp c) (mtime c)
    (mtimecmp c) (scyclecmp c) (cycle c) (instret c) (hpmcounters c)
    (hpmevents c) (mcountinhibit c) (mhartid c) (external_SEIP c)
    (tval_next c) (last_tick_time c).

Definition csr_set_satp (v : Z) (c : rv_csr_t) : rv_csr_t :=
  mk_csr
    (mstatus c) (mie c) (mip c) (mtvec c) (mepc c) (mcause c) (mtval c)
    (medeleg c) (mideleg c) (stvec c) (sepc c) (scause c) (stval c) v
    (mtime c) (mtimecmp c) (scyclecmp c) (cycle c) (instret c)
    (hpmcounters c) (hpmevents c) (mcountinhibit c) (mhartid c)
    (external_SEIP c) (tval_next c) (last_tick_time c).

Definition csr_set_scyclecmp (v : Z) (c : rv_csr_t) : rv_csr_t :=
  mk_csr
    (mstatus c) (mie c) (mip c) (mtvec c) (mepc c) (mcause c) (mtval c)
    (medeleg c) (mideleg c) (stvec c) (sepc c) (scause c) (stval c) (satp c)
    (mtime c) (mtimecmp c) v (cycle c) (instret c) (hpmcounters c)
    (hpmevents c) (mcountinhibit c) (mhartid c) (external_SEIP c)
    (tval_next c) (last_tick_time c).

Definition csr_set_mepc (v : Z) (c : rv_csr_t) : rv_csr_t :=
  mk_csr
    (mstatus c) (mie c) (mip c) (mtvec c) v (mcause c) (mtval c) (medeleg c)
    (mideleg c) (stvec c) (sepc c) (scause c) (stval c) (satp c) (mtime c)
    (mtimecmp c) (scyclecmp c) (cycle c) (instret c) (hpmcounters c)
    (hpmevents c) (mcountinhibit c) (mhartid c) (external_SEIP c)
    (tval_next c) (last_tick_time c).

Definition csr_set_mcause (v : Z) (c : rv_csr_t) : rv_csr_t :=
  mk_csr
    (mstatus c) (mie c) (mip c) (mtvec c) (mepc c) v (mtval c) (medeleg c)
    (mideleg c) (stvec c) (sepc c) (scause c) (stval c) (satp c) (mtime c)
    (mtimecmp c) (scyclecmp c) (cycle c) (instret c) (hpmcounters c)
    (hpmevents c) (mcountinhibit c) (mhartid c) (external_SEIP c)
    (tval_next c) (last_tick_time c).

Definition csr_set_mtval (v : Z) (c : rv_csr_t) : rv_csr_t :=
  mk_csr
    (mstatus c) (mie c) (mip c) (mtvec c) (mepc c) (mcause c) v (medeleg c)
    (mideleg c) (stvec c) (sepc c) (scause c) (stval c) (satp c) (mtime c)
    (mtimecmp c) (scyclecmp c) (cycle c) (instret c) (hpmcounters c)
    (hpmevents c) (mcountinhibit c) (mhartid c) (external_SEIP c)
    (tval_next c) (last_tick_time c).

Definition csr_set_sepc (v : Z) (c : rv_csr_t) : rv_csr_t :=
  mk_csr
    (mstatus c) (mie c) (mip c) (mtvec c) (mepc c) (mcause c) (mtval c)
    (medeleg c) (mideleg c) (stvec c) v (scause c) (stval c) (satp c)
    (mtime c) (mtimecmp c) (scyclecmp c) (cycle c) (instret c)
    (hpmcounters c) (hpmevents c) (mcountinhibit c) (mhartid c)
    (external_SEIP c) (tval_next c) (last_tick_time c).

Definition csr_set_scause (v : Z) (c : rv_csr_t) : rv_csr_t :=
  mk_csr
    (mstatus c) (mie c) (mip c) (mtvec c) (mepc c) (mcause c) (mtval c)
    (medeleg c) (mideleg c) (stvec c) (sepc c) v (stval c) (satp c) (mtime c)
    (mtimecmp c) (scyclecmp c) (cycle c) (instret c) (hpmcounters c)
    (hpmevents c) (mcountinhibit c) (mhartid c) (external_SEIP c)
    (tval_next c) (last_tick_time c).

Definition csr_set_stval (v : Z) (c : rv_csr_t) : rv_csr_t :=
  mk_csr
    (mstatus c) (mie c) (mip c) (mtvec c) (mepc c) (mcause c) (mtval c)
    (medeleg c) (mideleg c) (stvec c) (sepc c) (scause c) v (satp c)
    (mtime c) (mtimecmp c) (scyclecmp c) (cycle c) (instret c)
    (hpmcounters c) (hpmevents c) (mcountinhibit c) (mhartid c)
    (external_SEIP c) (tval_next c) (last_tick_time c).

Definition csr_set_mtime (v : Z) (c : rv_csr_t) : rv_csr_t :=
  mk_csr
    (mstatus c) (mie c) (mip c) (mtvec c) (mepc c) (mcause c) (mtval c)
    (medeleg c) (mideleg c) (stvec c) (sepc c) (scause c) (stval c) (satp c)
    v (mtimecmp c) (scyclecmp c) (cycle c) (instret c) (hpmcounters c)
    (hpmevents c) (mcountinhibit c) (mhartid c) (external_SEIP c)
    (tval_next c) (last_tick_time c).

Definition csr_set_mtimecmp (v : Z) (c : rv_csr_t) : rv_csr_t :=
  mk_csr
    (mstatus c) (mie c) (mip c) (mtvec c) (mepc c) (mcause c) (mtval c)
    (medeleg c) (mideleg c) (stvec c) (sepc c) (scause c) (stval c) (satp c)
    (mtime c) v (scyclecmp c) (cycle c) (instret c) (hpmcounters c)
    (hpmevents c) (mcountinhibit c) (mhartid c) (external_SEIP c)
    (tval_next c) (last_tick_time c).

Definition csr_set_cycle (v : Z) (c : rv_csr_t) : rv_csr_t :=
  mk_csr
    (mstatus c) (mie c) (mip c) (mtvec c) (mepc c) (mcause c) (mtval c)
    (medeleg c) (mideleg c) (stvec c) (sepc c) (scause c) (stval c) (satp c)
    (mtime c) (mtimecmp c) (scyclecmp c) v (instret c) (hpmcounters c)
    (hpmevents c) (mcountinhibit c) (mhartid c) (external_SEIP c)
    (tval_next c) (last_tick_time c).

Definition csr_set_instret (v : Z) (c : rv_csr_t) : rv_csr_t :=
  mk_csr
    (mstatus c) (mie c) (mip c) (mtvec c) (mepc c) (mcause c) (mtval c)
    (medeleg c) (mideleg c) (stvec c) (sepc c) (scause c) (stval c) (satp c)
    (mtime c) (mtimecmp c) (scyclecmp c) (cycle c) v (hpmcounters c)
    (hpmevents c) (mcountinhibit c) (mhartid c) (external_SEIP c)
    (tval_next c) (last_tick_time c).

Definition csr_set_hpmcounters (v : list Z) (c : rv_csr_t) : rv_csr_t :=
  mk_csr
    (mstatus c) (mie c) (mip c) (mtvec c) (mepc c) (mcause c) (mtval c)
    (medeleg c) (mideleg c) (stvec c) (sepc c) (scause c) (stval c) (satp c)
    (mtime c) (mtimecmp c) (scyclecmp c) (cycle c) (instret c) v
    (hpmevents c) (mcountinhibit c) (mhartid c) (external_SEIP c)
    (tval_next c) (last_tick_time c).

Definition csr_set_external_SEIP (v : bool) (c : rv_csr_t) : rv_csr_t :=
  mk_csr
    (mstatus c) (mie c) (mip c) (mtvec c) (mepc c) (mcause c) (mtval c)
    (medeleg c) (mideleg c) (stvec c) (sepc c) (scause c) (stval c) (satp c)
    (mtime c) (mtimecmp c) (scyclecmp c) (cycle c) (instret c)
    (hpmcounters c) (hpmevents c) (mcountinhibit c) (mhartid c) v
    (tval_next c) (last_tick_time c).

Definition csr_set_tval_next (v : Z) (c : rv_csr_t) : rv_csr_t :=
  mk_csr
    (mstatus c) (mie c) (mip c) (mtvec c) (mepc c) (mcause c) (mtval c)
    (medeleg c) (mideleg c) (stvec c) (sepc c) (scause c) (stval c) (satp c)
    (mtime c) (mtimecmp c) (scyclecmp c) (cycle c) (instret c)
    (hpmcounters c) (hpmevents c) (mcountinhibit c) (mhartid c)
    (external_SEIP c) v (last_tick_time c).

Definition csr_set_last_tick_time (v : Z) (c : rv_csr_t) : rv_csr_t :=
  mk_csr
    (mstatus c) (mie c) (mip c) (mtvec c) (mepc c) (mcause c) (mtval c)
    (medeleg c) (mideleg c) (stvec c) (sepc c) (scause c) (stval c) (satp c)
    (mtime c) (mtimecmp c) (scyclecmp c) (cycle c) (instret c)
    (hpmcounters c) (hpmevents c) (mcountinhibit c) (mhartid c)
    (external_SEIP c) (tval_next c) v.

Definition set_regs (v : list Z) (c : rv_cpu_t) : rv_cpu_t :=
  mk_cpu
    v (pc c) (pc_next c) (csr c) (priv_mode c) (stdby c) (reserved_valid c)
    (reserved_addr c).

Definition set_pc (v : Z) (c : rv_cpu_t) : rv_cpu_t :=
  mk_cpu
    (regs c) v (pc_next c) (csr c) (priv_mode c) (stdby c) (reserved_valid c)
    (reserved_addr c).

Definition set_pc_next (v : Z) (c : rv_cpu_t) : rv_cpu_t :=
  mk_cpu
    (regs c) (pc c) v (csr c) (priv_mode c) (stdby c) (reserved_valid c)
    (reserved_addr c).

Definition set_csr (v : rv_csr_t) (c : rv_cpu_t) : rv_cpu_t :=
  mk_cpu
    (regs c) (pc c) (pc_next c) v (priv_mode c) (stdby c) (reserved_valid c)
    (reserved_addr c).

Definition set_priv_mode (v : Z) (c : rv_cpu_t) : rv_cpu_t :=
  mk_cpu
    (regs c) (pc c) (pc_next c) (csr c) v (stdby c) (reserved_valid c)
    (reserved_addr c).

Definition set_stdby (v : bool) (c : rv_cpu_t) : rv_cpu_t :=
  mk_cpu
    (regs c) (pc c) (pc_next c) (csr c) (priv_mode c) v (reserved_valid c)
    (reserved_addr c).

Definition set_reserved_valid (v : bool) (c : rv_cpu_t) : rv_cpu_t :=
  mk_cpu
    (regs c) (pc c) (pc_next c) (csr c) (priv_mode c) (stdby c) v
    (reserved_addr c).

Definition set_reserved_addr (v : Z) (c : rv_cpu_t) : rv_cpu_t :=
  mk_cpu
    (regs c) (pc c) (pc_next c) (csr c) (priv_mode c) (stdby c)
    (reserved_valid c) v.

(** Update of the CSR block inside the hart. *)
Definition upd_csr (f : rv_csr_t -> rv_csr_t) (c : rv_cpu_t) : rv_cpu_t :=
  set_csr (f (csr c)) c.

(** ** Accessors of [csr.h] *)

(** Modelled from the spec: [csr.h] is not among the sources.  Each macro
    reads one field of [mstatus] or [satp]; [sstatus] is the same word as
    [mstatus] (section 3). *)
Definition rv_csr_mstatus_mie (cpu : rv_cpu_t) : bool :=
  is_set (mstatus (csr cpu)) rv_csr_mstatus_mie_mask.
Definition rv_csr_sstatus_sie (cpu : rv_cpu_t) : bool :=
  is_set (mstatus (csr cpu)) rv_csr_sstatus_sie_mask.
Definition rv_csr_mstatus_mprv (cpu : rv_cpu_t) : bool :=
  is_set (mstatus (csr cpu)) rv_csr_mstatus_mprv_mask.
Definition rv_csr_sstatus_sum (cpu : rv_cpu_t) : bool :=
  is_set (mstatus (csr cpu)) rv_csr_sstatus_sum_mask.
Definition rv_csr_sstatus_mxr (cpu : rv_cpu_t) : bool :=
  is_set (mstatus (csr cpu)) rv_csr_sstatus_mxr_mask.
Definition rv_csr_mstatus_mpp (cpu : rv_cpu_t) : Z :=
  Z.shiftr (Z.land (mstatus (csr cpu)) rv_csr_mstatus_mpp_mask)
           rv_csr_mstatus_mpp_pos.
Definition rv_csr_satp_is_bare (cpu : rv_cpu_t) : bool :=
  negb (is_set (satp (csr cpu)) rv_csr_satp_mode_mask).
Definition rv_csr_satp_ppn (cpu : rv_cpu_t) : Z :=
  Z.land (satp (csr cpu)) rv_csr_satp_ppn_mask.

(** ** Page-table entries *)

(** [sv32_pte_t]: the bit-field of the source, one field per member. *)
Record sv32_pte_t : Type := mk_pte {
  pte_v : bool;
  pte_r : bool;
  pte_w : bool;
  pte_x : bool;
  pte_u : bool;
  pte_g : bool;
  pte_a : bool;
  pte_d : bool;
  pte_rsw : Z;
  pte_ppn : Z
}.

Definition is_pte_leaf (pte : sv32_pte_t) : bool :=
  pte_r pte || pte_w pte || pte_x pte.
Definition is_pte_valid (pte : sv32_pte_t) : bool :=
  pte_v pte && (negb (pte_w pte) || pte_r pte).
Definition pte_ppn0 (pte : sv32_pte_t) : Z := Z.land (pte_ppn pte) 0x0003FF.
Definition pte_ppn1 (pte : sv32_pte_t) : Z := Z.land (pte_ppn pte) 0x3FFC00.

(** The union [sv32_pte_helper_t] aliases the bit-field with a 32-bit word;
    the members are laid out from bit 0 upwards in declaration order, which
    is the Sv32 format. *)
Definition pte_from_uint (val : Z) : sv32_pte_t :=
  mk_pte (Z.testbit val 0) (Z.testbit val 1) (Z.testbit val 2)
         (Z.testbit val 3) (Z.testbit val 4) (Z.testbit val 5)
         (Z.testbit val 6) (Z.testbit val 7)
         (Z.land (Z.shiftr val 8) 0x3) (Z.land (Z.shiftr val 10) 0x3FFFFF).

Definition uint_from_pte (pte : sv32_pte_t) : Z :=
  Z.lor (Z.b2z (pte_v pte))
 (Z.lor (Z.shiftl (Z.b2z (pte_r pte)) 1)
 (Z.lor (Z.shiftl (Z.b2z (pte_w pte)) 2)
 (Z.lor (Z.shiftl (Z.b2z (pte_x pte)) 3)
 (Z.lor (Z.shiftl (Z.b2z (pte_u pte)) 4)
 (Z.lor (Z.shiftl (Z.b2z (pte_g pte)) 5)
 (Z.lor (Z.shiftl (Z.b2z (pte_a pte)) 6)
 (Z.lor (Z.shiftl (Z.b2z (pte_d pte)) 7)
 (Z.lor (Z.shiftl (Z.land (pte_rsw pte) 0x3) 8)
        (Z.shiftl (Z.land (pte_ppn pte) 0x3FFFFF) 10))))))))).

Definition pte_set_a (v : bool) (p : sv32_pte_t) : sv32_pte_t :=
  mk_pte (pte_v p) (pte_r p) (pte_w p) (pte_x p) (pte_u p) (pte_g p)
         v (pte_d p) (pte_rsw p) (pte_ppn p).
Definition pte_set_d (v : bool) (p : sv32_pte_t) : sv32_pte_t :=
  mk_pte (pte_v p) (pte_r p) (pte_w p) (pte_x p) (pte_u p) (pte_g p)
         (pte_a p) v (pte_rsw p) (pte_ppn p).

(** [sv32_effective_priv] and [effective_priv], the two macros of the
    source. *)
Definition sv32_effective_priv (cpu : rv_cpu_t) : Z :=
  if rv_csr_mstatus_mprv cpu then rv_csr_mstatus_mpp cpu else priv_mode cpu.

Definition effective_priv (cpu : rv_cpu_t) : Z :=
  if rv_csr_satp_is_bare cpu then priv_mode cpu else sv32_effective_priv cpu.

Definition is_access_allowed (cpu : rv_cpu_t) (pte : sv32_pte_t)
    (wr fetch : bool) : bool :=
  if wr && negb (pte_w pte) then false
  else if fetch && negb (pte_x pte) then false
  else
    let rx := rv_csr_sstatus_mxr cpu && pte_x pte in
    if negb wr && negb fetch && negb (pte_r pte) && negb rx then false
    else if (sv32_effective_priv cpu =? rv_smode)
            && ((negb (rv_csr_sstatus_sum cpu) && pte_u pte)
                || (fetch && pte_u pte))
    then false
    else if (sv32_effective_priv cpu =? rv_umode) && negb (pte_u pte)
    then false
    else true.

Definition make_phys_from_ppn (virt : Z) (pte : sv32_pte_t)
    (megapage : bool) : Z :=
  let page_offset := Z.land virt 0x00000FFF in
  let virt_vpn0 := Z.land virt 0x003FF000 in
  let pte_ppn0 := Z.shiftl (pte_ppn0 pte) 12 in
  let pte_ppn1 := Z.shiftl (pte_ppn1 pte) 12 in
  let phys_ppn0 := if megapage then virt_vpn0 else pte_ppn0 in
  Z.lor pte_ppn1 (Z.lor phys_ppn0 page_offset).

Definition page_fault_exception (wr fetch : bool) : rv_exc_t :=
  if fetch then rv_exc_instruction_page_fault
  else if wr then rv_exc_store_amo_page_fault
  else rv_exc_load_page_fault.

Definition read_address_misaligned_exception (fetch : bool) : rv_exc_t :=
  if fetch then rv_exc_instruction_address_misaligned
  else rv_exc_load_address_misaligned.

(** The first statement of [rv_convert_addr]: whether the Sv32 walk runs. *)
Definition satp_active (cpu : rv_cpu_t) : bool :=
  negb (rv_csr_satp_is_bare cpu) && (sv32_effective_priv cpu <=? rv_smode).

(** * Parameters of the hart *)

(** Modelled from the spec: the header declaring [rv_exc_t] is not among the
    sources and the spec gives no number to [rv_exc_none]; section 6 leaves
    the addresses of [MTIME] and [MTIMECMP], fixed and 8-byte aligned, to the
    implementer.  The three numbers are parameters. *)
Class Platform : Type := {
  rv_exc_none_val : Z;
  RV_MTIME_ADDRESS : Z;
  RV_MTIMECMP_ADDRESS : Z
}.

(** The physical memory layer ([physmem.h], not among the sources), with the
    frame table and the decoded-instruction cache it serves: a state and the
    six accessors of section 4.1, taking [hart], [addr] (and [value]), then
    the flag the sources pass last. *)
Class PhysMem : Type := {
  physmem : Type;
  physmem_read8 : Z -> Z -> bool -> physmem -> Z * physmem;
  physmem_read16 : Z -> Z -> bool -> physmem -> Z * physmem;
  physmem_read32 : Z -> Z -> bool -> physmem -> Z * physmem;
  physmem_write8 : Z -> Z -> Z -> bool -> physmem -> bool * physmem;
  physmem_write16 : Z -> Z -> Z -> bool -> physmem -> bool * physmem;
  physmem_write32 : Z -> Z -> Z -> bool -> physmem -> bool * physmem
}.

(** [rv_instr_func_t]: a decoded instruction, run on the hart and the
    instruction word. *)
Definition rv_instr_func_t `{PhysMem} : Type :=
  rv_cpu_t -> Z -> physmem -> rv_exc_t * rv_cpu_t * physmem.

(** [fetch_instr] (cpu.c:79-95) as [execute] calls it: the executor of the
    instruction at a physical address, on a state that holds the
    decoded-instruction cache beside the memory.  [None] is the failed
    [ASSERT(frame != NULL)] of [update_cache_item].  [DIC.decoder] is the
    function of the sources; the decoder [rv_instr_decode] it relies on is
    not among them. *)
Class Decoder `{PhysMem} : Type := {
  fetch_instr : rv_cpu_t -> Z -> physmem -> option (rv_instr_func_t * physmem)
}.

(** * The decoded-instruction cache *)

(** Modelled from the spec: [physmem.h] is not among the sources.  Section
    4.1: [physmem_find_frame] gives the frame of an address that lies in
    RAM; section 3: a frame carries the bit [valid].  A [frame_t] here is
    the pointer the sources hold; the bit lives in the memory state. *)
Class FrameTable `{PhysMem} : Type := {
  frame_t : Type;
  physmem_find_frame : Z -> physmem -> option frame_t;
  frame_valid : frame_t -> physmem -> bool;
  frame_set_valid : frame_t -> bool -> physmem -> physmem
}.

(** The instruction decoder [rv_instr_decode], not among the sources. *)
Class InstrDecoder `{PhysMem} : Type := {
  rv_instr_decode : Z -> rv_instr_func_t
}.


(** ** A small word-addressed RAM

    An instance of the physical memory layer on which the model can be run:
    words stored at the physical addresses below [0x1000] (the RAM of
    scenario S4); an unmapped read gives all ones and a write outside the
    RAM fails.  Its decoder knows one instruction, which does nothing. *)
Module WordRam.

Definition t : Type := list (Z * Z).

Definition get (m : t) (addr : Z) : Z :=
  match List.find (fun p => fst p =? addr) m with
  | Some p => snd p
  | None => 0xFFFFFFFF
  end.

Definition read (width : Z) (hart addr : Z) (noisy : bool) (m : t) : Z * t :=
  (get m addr mod 2 ^ width, m).

Definition write (width : Z) (hart addr val : Z) (noisy : bool) (m : t)
    : bool * t :=
  if addr <? 0x1000 then (true, (addr, val mod 2 ^ width) :: m)
  else (false, m).

Definition nop (cpu : rv_cpu_t) (instr : Z) (m : t)
    : rv_exc_t * rv_cpu_t * t :=
  (rv_exc_none, cpu, m).

Definition fetch (cpu : rv_cpu_t) (phys : Z) (m : t)
    : option ((rv_cpu_t -> Z -> t -> rv_exc_t * rv_cpu_t * t) * t) :=
  Some (nop, m).

(** The layer the hart runs on: the same words behind the three widths. *)
Definition phys_mem : PhysMem :=
  {| physmem := t;
     physmem_read8 := read 8; physmem_read16 := read 16;
     physmem_read32 := read 32;
     physmem_write8 := write 8; physmem_write16 := write 16;
     physmem_write32 := write 32 |}.

Definition decoder : @Decoder phys_mem := @Build_Decoder phys_mem fetch.

(** A second decoder, which knows no instruction at all. *)
Definition illegal (cpu : rv_cpu_t) (instr : Z) (m : t)
    : rv_exc_t * rv_cpu_t * t :=
  (rv_exc_illegal_instruction, cpu, m).

Definition decoder_illegal : @Decoder phys_mem :=
  @Build_Decoder phys_mem (fun _ _ m => Some (illegal, m)).

(** The frames of the RAM: one frame, number 0, for the addresses below
    [0x1000]; its bit [valid] is the word kept at the address [-1]. *)
Definition find_frame (addr : Z) (m : t) : option Z :=
  if (0 <=? addr) && (addr <? 0x1000) then Some (addr / 4096) else None.

Definition frame_is_valid (frame : Z) (m : t) : bool :=
  get m (-1 - frame) =? 1.

Definition set_frame_valid (frame : Z) (v : bool) (m : t) : t :=
  (-1 - frame, Z.b2z v) :: m.

Definition frame_table : @FrameTable phys_mem :=
  @Build_FrameTable phys_mem Z find_frame frame_is_valid set_frame_valid.

(** The word 0 decodes to [nop], every other word to [illegal]. *)
Definition decode (w : Z) : rv_cpu_t -> Z -> t -> rv_exc_t * rv_cpu_t * t :=
  if w =? 0 then nop else illegal.

Definition instr_decoder : @InstrDecoder phys_mem :=
  @Build_InstrDecoder phys_mem decode.

End WordRam.

(** ** Concrete harts *)
Module Scenario.

(** The hart after [rv_cpu_init], started at [0x1000]: every other field
    zero, M-mode. *)
Definition reset_csr : rv_csr_t :=
  mk_csr 0 0 0 0 0 0 0 0 0 0 0 0 0 0 0 0 0 0 0
         (replicate 29 0) (replicate 29 hpm_no_event) 0 0 false 0 0.

Definition reset_hart : rv_cpu_t :=
  mk_cpu (replicate 32 0) 0x1000 0x1004 reset_csr rv_mmode false false 0.

(** Scenario S6: [mtime = 100], [mtimecmp = 50], [mie.MTIE] and
    [mstatus.MIE] set, M-mode, [mtvec = 0x100], direct. *)
Definition timer_hart : rv_cpu_t :=
  upd_csr (fun c =>
    csr_set_mtime 100 (csr_set_mtimecmp 50 (csr_set_mie 0x80
      (csr_set_mstatus 0x8 (csr_set_mtvec 0x100 c))))) reset_hart.

(** A U-mode hart under Sv32 whose root page table is the frame 0. *)
Definition user_hart : rv_cpu_t :=
  set_priv_mode rv_umode (upd_csr (csr_set_satp 0x80000000) reset_hart).

(** The same hart with [mstatus.MPRV] set and [mstatus.MPP = M]. *)
Definition mprv_hart : rv_cpu_t :=
  upd_csr (csr_set_mstatus 0x21800) user_hart.

(** A root page table mapping the megapage 1 ([0x00400000]) to the physical
    megapage 2 ([0x00800000]), user-accessible, readable, writable and
    executable. *)
Definition user_ram : WordRam.t := [(4, 0x2000DF)].

(** Numbers for the runs: a code for [rv_exc_none] outside the architectural
    ones and two addresses for the timer registers. *)
Definition platform : Platform :=
  {| rv_exc_none_val := 24;
     RV_MTIME_ADDRESS := 0xFF000000;
     RV_MTIMECMP_ADDRESS := 0xFF000008 |}.

(** The timer hart with [mip.MTIP] already pending. *)
Definition pending_timer_hart : rv_cpu_t :=
  upd_csr (csr_set_mip 0x80) timer_hart.

(** The timer hart, asleep. *)
Definition standby_hart : rv_cpu_t := set_stdby true timer_hart.

(** An S-mode hart with the supervisor timer interrupt pending, enabled and
    delegated, and [sstatus.SIE] set. *)
Definition supervisor_hart : rv_cpu_t :=
  set_priv_mode rv_smode
    (upd_csr (fun c =>
       csr_set_mip 0x20 (csr_set_mie 0x20 (csr_set_mideleg 0x20
         (csr_set_mstatus 0x2 c)))) reset_hart).

(** A RAM holding the word 0 at [0x10] and nothing else. *)
Definition code_ram : WordRam.t := [(0x10, 0)].


End Scenario.

Module DIC.
Section Cache.

Context {pm : PhysMem} {ft : FrameTable} {dec : InstrDecoder}.

(** Modelled from the spec: [physmem.h] is not among the sources.  Section
    3: a frame is 4 KiB; section 4.2: the slot of an address is
    [(phys mod 4096) / 4]. *)
Definition FRAME_SIZE : Z := 4096.
Definition FRAME_MASK : Z := FRAME_SIZE - 1.

(** [sizeof(rv_instr_t)]. *)
Definition INSTR_SIZE : Z := 4.

(** [cache_item_t], without the list link: the frame address and the array
    of [FRAME_SIZE / sizeof(rv_instr_t)] executors. *)
Record cache_item_t : Type := mk_item {
  addr : Z;
  instrs : list rv_instr_func_t
}.

Definition PHYS2CACHEINSTR (phys : Z) : Z :=
  Z.land phys FRAME_MASK / INSTR_SIZE.

(** [cache_hit]: the first item of the list whose frame is that of [phys],
    with its position. *)
Definition cache_hit (cache : list cache_item_t) (phys : Z)
    : option (nat * cache_item_t) :=
  let target_page := ALIGN_DOWN phys FRAME_SIZE in
  list_find (fun c => addr c = target_page) cache.

(** The loop of [cache_item_page_decode], from slot [i] on for [n] slots:
    every slot of the array is overwritten. *)
Fixpoint decode_slots (hart base : Z) (n : nat) (i : Z) (m : physmem)
    : list rv_instr_func_t * physmem :=
  match n with
  | O => ([], m)
  | S n' =>
    let addr := base + i * INSTR_SIZE in
    let '(instr_data, m) := physmem_read32 hart addr false m in
    let '(rest, m) := decode_slots hart base n' (i + 1) m in
    (rv_instr_decode instr_data :: rest, m)
  end.

Definition cache_item_page_decode (cpu : rv_cpu_t) (cache_item : cache_item_t)
    (m : physmem) : cache_item_t * physmem :=
  let '(slots, m) :=
    decode_slots (mhartid (csr cpu)) (addr cache_item)
                 (Z.to_nat (FRAME_SIZE / INSTR_SIZE)) 0 m in
  (mk_item (addr cache_item) slots, m).

(** [update_cache_item]; [None] is the failed [ASSERT(frame != NULL)]. *)
Definition update_cache_item (cpu : rv_cpu_t) (cache_item : cache_item_t)
    (m : physmem) : option (cache_item_t * physmem) :=
  match physmem_find_frame (addr cache_item) m with
  | None => None
  | Some frame =>
    if frame_valid frame m then Some (cache_item, m)
    else
      let '(cache_item, m) := cache_item_page_decode cpu cache_item m in
      Some (cache_item, frame_set_valid frame true m)
  end.

(** [cache_try_add]: the new item, if the address lies in RAM, the list and
    the memory. *)
Definition cache_try_add (cpu : rv_cpu_t) (phys : Z)
    (cache : list cache_item_t) (m : physmem)
    : option cache_item_t * list cache_item_t * physmem :=
  match physmem_find_frame phys m with
  | None => (None, cache, m)
  | Some frame =>
    let cache_item := mk_item (ALIGN_DOWN phys FRAME_SIZE) [] in
    let '(cache_item, m) := cache_item_page_decode cpu cache_item m in
    (* the item was appended before its array was filled *)
    (Some cache_item, cache ++ [cache_item], frame_set_valid frame true m)
  end.

(** [fetch_instr] on the global list [rv_instruction_cache]: the executor,
    the list and the memory.  [None] is a failed assertion, or a slot
    outside the array of an item. *)
Definition fetch_instr (cpu : rv_cpu_t) (phys : Z)
    (cache : list cache_item_t) (m : physmem)
    : option (rv_instr_func_t * list cache_item_t * physmem) :=
  match cache_hit cache phys with
  | Some (pos, cache_item) =>
    match update_cache_item cpu cache_item m with
    | None => None
    | Some (cache_item, m) =>
      match instrs cache_item !! Z.to_nat (PHYS2CACHEINSTR phys) with
      | None => None
      | Some f => Some (f, <[pos := cache_item]> cache, m)
      end
    end
  | None =>
    match cache_try_add cpu phys cache m with
    | (Some cache_item, cache, m) =>
      match instrs cache_item !! Z.to_nat (PHYS2CACHEINSTR phys) with
      | None => None
      | Some f => Some (f, cache, m)
      end
    | (None, cache, m) =>
      (* fetching from outside of physical memory *)
      let '(instr_data, m) := physmem_read32 (mhartid (csr cpu)) phys true m in
      Some (rv_instr_decode instr_data, cache, m)
    end
  end.

(** [rv_cpu_done]: the head is removed until the list is empty. *)
Fixpoint rv_cpu_done (cache : list cache_item_t) : list cache_item_t :=
  match cache with
  | [] => []
  | _ :: rest => rv_cpu_done rest
  end.

(** The frame [fetch_instr] decodes, if it decodes one: the frame of [phys]
    when it is in RAM and not cached, or the cached frame when its bit
    [valid] is clear. *)
Definition frame_to_decode (cache : list cache_item_t) (phys : Z)
    (m : physmem) : option frame_t :=
  match cache_hit cache phys with
  | Some (_, c) =>
    match physmem_find_frame (addr c) m with
    | Some frame => if frame_valid frame m then None else Some frame
    | None => None
    end
  | None => physmem_find_frame phys m
  end.

(** The shape every item of the list has: a frame-aligned address and a full
    array; and no frame is cached twice. *)
Definition item_wf (c : cache_item_t) : Prop :=
  ALIGN_DOWN (addr c) FRAME_SIZE = addr c
  /\ length (instrs c) = Z.to_nat (FRAME_SIZE / INSTR_SIZE).

Definition cache_wf (cache : list cache_item_t) : Prop :=
  Forall item_wf cache /\ NoDup (map addr cache).

End Cache.

(** ** The cache behind [execute]

    The state [execute] runs on: the global list [rv_instruction_cache]
    beside the memory.  The accessors of the memory layer leave the list
    alone, and so do the executors [rv_instr_decode] gives; [fetch_instr]
    is the one of the section above. *)
Section Linked.

Context {pm : PhysMem} {ft : FrameTable} {dec : InstrDecoder}.

Definition cached : Type := list cache_item_t * physmem.

Definition lift_read (read : Z -> Z -> bool -> physmem -> Z * physmem)
    (hart addr : Z) (noisy : bool) (s : cached) : Z * cached :=
  let '(v, m) := read hart addr noisy (snd s) in (v, (fst s, m)).

Definition lift_write
    (write : Z -> Z -> Z -> bool -> physmem -> bool * physmem)
    (hart addr value : Z) (noisy : bool) (s : cached) : bool * cached :=
  let '(ok, m) := write hart addr value noisy (snd s) in (ok, (fst s, m)).

Definition cached_mem : PhysMem :=
  @Build_PhysMem cached
    (lift_read physmem_read8) (lift_read physmem_read16)
    (lift_read physmem_read32)
    (lift_write physmem_write8) (lift_write physmem_write16)
    (lift_write physmem_write32).

Definition lift_instr (f : @rv_instr_func_t pm) : @rv_instr_func_t cached_mem :=
  fun cpu instr s =>
    let '(ex, cpu, m) := f cpu instr (snd s) in (ex, cpu, (fst s, m)).

Definition decoder : @Decoder cached_mem :=
  @Build_Decoder cached_mem
    (fun cpu phys s =>
       match fetch_instr cpu phys (fst s) (snd s) with
       | None => None
       | Some (f, cache, m) => Some (lift_instr f, (cache, m))
       end).

End Linked.

(** For the runs on the word RAM: a cache that holds frame 0 with [illegal]
    in every slot, and a RAM whose frame 0 is marked valid and holds the
    word 0 at [0x10]. *)
Definition stale_cache : list (@cache_item_t WordRam.phys_mem) :=
  [@mk_item WordRam.phys_mem 0 (replicate 1024 WordRam.illegal)].

Definition valid_ram : WordRam.t := [(-1, 1); (0x10, 0)].

(** The word RAM with the cache, its [fetch_instr], and a cache that still
    holds the frame [0x1000], which is not in the RAM. *)
Definition word_mem : PhysMem := @cached_mem WordRam.phys_mem.

Definition word_decoder : @Decoder word_mem :=
  @decoder WordRam.phys_mem WordRam.frame_table WordRam.instr_decoder.

Definition lost_cache : list (@cache_item_t WordRam.phys_mem) :=
  [@mk_item WordRam.phys_mem 0x1000 (replicate 1024 WordRam.illegal)].

End DIC.

(** * The hart *)

Section Hart.

Context {platform : Platform} {pm : PhysMem} {decoder : Decoder}.

(** Modelled from the spec: the numeric value of a code; sections 4.5 and
    8 (S2: illegal instruction is 2, S3: ECALL from U is 8, S6: the
    machine timer interrupt is [interrupt|7]). *)
Definition rv_exc_val (ex : rv_exc_t) : Z :=
  match ex with
  | rv_exc_supervisor_software_interrupt => Z.lor RV_INTERRUPT_EXC_BITS 1
  | rv_exc_machine_software_interrupt => Z.lor RV_INTERRUPT_EXC_BITS 3
  | rv_exc_supervisor_timer_interrupt => Z.lor RV_INTERRUPT_EXC_BITS 5
  | rv_exc_machine_timer_interrupt => Z.lor RV_INTERRUPT_EXC_BITS 7
  | rv_exc_supervisor_external_interrupt => Z.lor RV_INTERRUPT_EXC_BITS 9
  | rv_exc_machine_external_interrupt => Z.lor RV_INTERRUPT_EXC_BITS 11
  | rv_exc_instruction_address_misaligned => Z.lor RV_EXCEPTION_EXC_BITS 0
  | rv_exc_instruction_access_fault => Z.lor RV_EXCEPTION_EXC_BITS 1
  | rv_exc_illegal_instruction => Z.lor RV_EXCEPTION_EXC_BITS 2
  | rv_exc_breakpoint => Z.lor RV_EXCEPTION_EXC_BITS 3
  | rv_exc_load_address_misaligned => Z.lor RV_EXCEPTION_EXC_BITS 4
  | rv_exc_load_access_fault => Z.lor RV_EXCEPTION_EXC_BITS 5
  | rv_exc_store_amo_address_misaligned => Z.lor RV_EXCEPTION_EXC_BITS 6
  | rv_exc_store_amo_access_fault => Z.lor RV_EXCEPTION_EXC_BITS 7
  | rv_exc_umode_environment_call => Z.lor RV_EXCEPTION_EXC_BITS 8
  | rv_exc_smode_environment_call => Z.lor RV_EXCEPTION_EXC_BITS 9
  | rv_exc_mmode_environment_call => Z.lor RV_EXCEPTION_EXC_BITS 11
  | rv_exc_instruction_page_fault => Z.lor RV_EXCEPTION_EXC_BITS 12
  | rv_exc_load_page_fault => Z.lor RV_EXCEPTION_EXC_BITS 13
  | rv_exc_store_amo_page_fault => Z.lor RV_EXCEPTION_EXC_BITS 15
  | rv_exc_none => rv_exc_none_val
  end.

(** Modelled from the spec: the header of the codes is not among the
    sources.  [RV_INTERRUPT_NO] strips the interrupt bit;
    [RV_EXCEPTION_MASK] is the bit of a code in [medeleg], [mideleg],
    [mip] and [mie] (section 4.5, [medeleg[code]]). *)
Definition RV_INTERRUPT_NO (e : Z) : Z :=
  Z.land e (not32 RV_INTERRUPT_EXC_BITS).
Definition RV_EXCEPTION_MASK (e : Z) : Z :=
  u32 (Z.shiftl 1 (Z.land e (not32 RV_INTERRUPT_EXC_BITS))).

(** ** Address translation *)

(** [rv_convert_addr]: the return code, the cell [*phys] ([None] when it
    is left unwritten) and the memory after the walk.  The outer [None]
    is the failed [ASSERT(!(wr && fetch))]. *)
Definition rv_convert_addr (cpu : rv_cpu_t) (virt : Z)
    (wr fetch noisy : bool) (m : physmem)
    : option (rv_exc_t * option Z * physmem) :=
  if wr && fetch then None
  else if negb (satp_active cpu) then Some (rv_exc_none, Some virt, m)
  else
    let vpn0 := Z.shiftr (Z.land virt 0x003FF000) 12 in
    let vpn1 := Z.shiftr (Z.land virt 0xFFC00000) 22 in
    let ppn := rv_csr_satp_ppn cpu in
    let PAGESIZE := 12 in
    let PTESIZE := 4 in
    let a := Z.shiftl ppn PAGESIZE in
    let pte_addr := a + vpn1 * PTESIZE in
    let '(pte_val, m) := physmem_read32 (mhartid (csr cpu)) pte_addr noisy m in
    let pte := pte_from_uint pte_val in
    if negb (is_pte_valid pte)
    then Some (page_fault_exception wr fetch, None, m)
    else
      (* the two arms of [if(is_pte_leaf(pte))]: a fault, or the leaf, its
         address and [is_megapage] *)
      let walked : physmem + (sv32_pte_t * Z * bool * physmem) :=
        if is_pte_leaf pte then
          if negb (pte_ppn0 pte =? 0) then inl m
          else inr (pte, pte_addr, true, m)
        else
          let a := Z.shiftl (pte_ppn pte) PAGESIZE in
          let pte_addr := a + vpn0 * PTESIZE in
          let '(pte_val, m) :=
            physmem_read32 (mhartid (csr cpu)) pte_addr noisy m in
          let pte := pte_from_uint pte_val in
          if negb (is_pte_valid pte) then inl m
          else if negb (is_pte_leaf pte) then inl m
          else inr (pte, pte_addr, false, m)
      in
      match walked with
      | inl m => Some (page_fault_exception wr fetch, None, m)
      | inr (pte, pte_addr, is_megapage, m) =>
        if negb (is_access_allowed cpu pte wr fetch)
        then Some (page_fault_exception wr fetch, None, m)
        else
          let pte := pte_set_a true pte in
          let pte := pte_set_d (pte_d pte || (if wr then true else false)) pte in
          let pte_val := uint_from_pte pte in
          let m :=
            if noisy
            then snd (physmem_write32 (mhartid (csr cpu)) pte_addr pte_val true m)
            else m in
          Some (rv_exc_none, Some (make_phys_from_ppn virt pte is_megapage), m)
      end.

(** The first-level entry the walk reads, and the second-level entry it
    reads when the first is a pointer. *)
Definition sv32_pte_level1 (cpu : rv_cpu_t) (virt : Z) (noisy : bool)
    (m : physmem) : sv32_pte_t * physmem :=
  let vpn1 := Z.shiftr (Z.land virt 0xFFC00000) 22 in
  let '(pte_val, m) :=
    physmem_read32 (mhartid (csr cpu))
      (Z.shiftl (rv_csr_satp_ppn cpu) 12 + vpn1 * 4) noisy m in
  (pte_from_uint pte_val, m).

Definition sv32_pte_level0 (cpu : rv_cpu_t) (virt : Z) (noisy : bool)
    (m : physmem) : sv32_pte_t :=
  let vpn0 := Z.shiftr (Z.land virt 0x003FF000) 12 in
  let '(pte1, m) := sv32_pte_level1 cpu virt noisy m in
  pte_from_uint
    (fst (physmem_read32 (mhartid (csr cpu))
            (Z.shiftl (pte_ppn pte1) 12 + vpn0 * 4) noisy m)).

(** ** Memory-mapped timer registers *)

(** [try_read_memory_mapped_regs_body]: [Some value] when the macro
    returns [true]. *)
Definition try_read_memory_mapped_regs (cpu : rv_cpu_t) (virt : Z)
    (width : Z) : option Z :=
  if negb (IS_ALIGNED virt (width / 8)) then None
  else if negb (effective_priv cpu =? rv_mmode) then None
  else
    let offset := Z.land virt 0x7 * 8 in
    if ALIGN_DOWN virt 8 =? RV_MTIME_ADDRESS
    then Some (EXTRACT_BITS (mtime (csr cpu)) offset (offset + width)
               mod 2 ^ width)
    else if ALIGN_DOWN virt 8 =? RV_MTIMECMP_ADDRESS
    then Some (EXTRACT_BITS (mtimecmp (csr cpu)) offset (offset + width)
               mod 2 ^ width)
    else None.

Definition try_read_memory_mapped_regs_32 (cpu : rv_cpu_t) (virt : Z) :=
  try_read_memory_mapped_regs cpu virt 32.
Definition try_read_memory_mapped_regs_16 (cpu : rv_cpu_t) (virt : Z) :=
  try_read_memory_mapped_regs cpu virt 16.
Definition try_read_memory_mapped_regs_8 (cpu : rv_cpu_t) (virt : Z) :=
  try_read_memory_mapped_regs cpu virt 8.

(** [try_write_memory_mapped_regs]: [Some cpu'] when it returns [true]. *)
Definition try_write_memory_mapped_regs (cpu : rv_cpu_t) (virt value : Z)
    (width : Z) : option rv_cpu_t :=
  if negb (IS_ALIGNED virt (width / 8)) then None
  else if negb (effective_priv cpu =? rv_mmode) then None
  else
    let offset := Z.land virt 0x7 * 8 in
    if ALIGN_DOWN virt 8 =? RV_MTIME_ADDRESS
    then Some (upd_csr (csr_set_mtime
                 (u64 (WRITE_BITS (mtime (csr cpu)) value offset
                                  (offset + width)))) cpu)
    else if ALIGN_DOWN virt 8 =? RV_MTIMECMP_ADDRESS
    then Some (upd_csr (csr_set_mtimecmp
                 (u64 (WRITE_BITS (mtimecmp (csr cpu)) value offset
                                  (offset + width)))) cpu)
    else None.

(** ** Loads and stores *)

(** The macro [throw_ex], without its [return]. *)
Definition throw_ex (cpu : rv_cpu_t) (virt : Z) (noisy : bool) : rv_cpu_t :=
  if noisy then upd_csr (csr_set_tval_next virt) cpu else cpu.

(** The loads give the return code, the cell [*value] ([None] when it is
    left unwritten), the hart and the memory. *)
Definition rv_read_mem32 (cpu : rv_cpu_t) (virt : Z) (fetch noisy : bool)
    (m : physmem) : option (rv_exc_t * option Z * rv_cpu_t * physmem) :=
  match try_read_memory_mapped_regs_32 cpu virt with
  | Some v => Some (rv_exc_none, Some v, cpu, m)
  | None =>
    match rv_convert_addr cpu virt false fetch noisy m with
    | None => None
    | Some (ex, phys, m) =>
      if negb (bool_decide (ex = rv_exc_none))
      then Some (ex, None, throw_ex cpu virt noisy, m)
      else if negb (IS_ALIGNED virt 4)
      then Some (read_address_misaligned_exception fetch, None,
                 throw_ex cpu virt noisy, m)
      else
        let '(v, m) :=
          physmem_read32 (mhartid (csr cpu)) (default 0 phys) true m in
        Some (rv_exc_none, Some v, cpu, m)
    end
  end.

Definition rv_read_mem16 (cpu : rv_cpu_t) (virt : Z) (fetch noisy : bool)
    (m : physmem) : option (rv_exc_t * option Z * rv_cpu_t * physmem) :=
  match try_read_memory_mapped_regs_16 cpu virt with
  | Some v => Some (rv_exc_none, Some v, cpu, m)
  | None =>
    match rv_convert_addr cpu virt false fetch noisy m with
    | None => None
    | Some (ex, phys, m) =>
      if negb (bool_decide (ex = rv_exc_none))
      then Some (ex, None, throw_ex cpu virt noisy, m)
      else if negb (IS_ALIGNED virt 2)
      then Some (read_address_misaligned_exception fetch, None,
                 throw_ex cpu virt noisy, m)
      else
        let '(v, m) :=
          physmem_read16 (mhartid (csr cpu)) (default 0 phys) true m in
        Some (rv_exc_none, Some v, cpu, m)
    end
  end.

Definition rv_read_mem8 (cpu : rv_cpu_t) (virt : Z) (noisy : bool)
    (m : physmem) : option (rv_exc_t * option Z * rv_cpu_t * physmem) :=
  match try_read_memory_mapped_regs_8 cpu virt with
  | Some v => Some (rv_exc_none, Some v, cpu, m)
  | None =>
    match rv_convert_addr cpu virt false false noisy m with
    | None => None
    | Some (ex, phys, m) =>
      if negb (bool_decide (ex = rv_exc_none))
      then Some (ex, None, throw_ex cpu virt noisy, m)
      else
        let '(v, m) :=
          physmem_read8 (mhartid (csr cpu)) (default 0 phys) true m in
        Some (rv_exc_none, Some v, cpu, m)
    end
  end.

(** The stores give the return code, the hart and the memory. *)
Definition rv_write_mem8 (cpu : rv_cpu_t) (virt value : Z) (noisy : bool)
    (m : physmem) : option (rv_exc_t * rv_cpu_t * physmem) :=
  match try_write_memory_mapped_regs cpu virt (value mod 2 ^ 8) 8 with
  | Some cpu => Some (rv_exc_none, cpu, m)
  | None =>
    match rv_convert_addr cpu virt true false noisy m with
    | None => None
    | Some (ex, phys, m) =>
      if negb (bool_decide (ex = rv_exc_none))
      then Some (ex, throw_ex cpu virt noisy, m)
      else
        let '(ok, m) :=
          physmem_write8 (mhartid (csr cpu)) (default 0 phys)
                         (value mod 2 ^ 8) true m in
        if ok then Some (rv_exc_none, cpu, m)
        else
          (* writing invalid memory: the access fault is commented out *)
          Some (rv_exc_none, cpu, m)
    end
  end.

Definition rv_write_mem16 (cpu : rv_cpu_t) (virt value : Z) (noisy : bool)
    (m : physmem) : option (rv_exc_t * rv_cpu_t * physmem) :=
  match try_write_memory_mapped_regs cpu virt (value mod 2 ^ 16) 16 with
  | Some cpu => Some (rv_exc_none, cpu, m)
  | None =>
    match rv_convert_addr cpu virt true false noisy m with
    | None => None
    | Some (ex, phys, m) =>
      if negb (bool_decide (ex = rv_exc_none))
      then Some (ex, throw_ex cpu virt noisy, m)
      else if negb (IS_ALIGNED virt 2)
      then Some (rv_exc_store_amo_address_misaligned,
                 throw_ex cpu virt noisy, m)
      else
        let '(ok, m) :=
          physmem_write16 (mhartid (csr cpu)) (default 0 phys)
                          (value mod 2 ^ 16) true m in
        if ok then Some (rv_exc_none, cpu, m)
        else Some (rv_exc_none, cpu, m)
    end
  end.

Definition rv_write_mem32 (cpu : rv_cpu_t) (virt value : Z) (noisy : bool)
    (m : physmem) : option (rv_exc_t * rv_cpu_t * physmem) :=
  match try_write_memory_mapped_regs cpu virt (value mod 2 ^ 32) 32 with
  | Some cpu => Some (rv_exc_none, cpu, m)
  | None =>
    match rv_convert_addr cpu virt true false noisy m with
    | None => None
    | Some (ex, phys, m) =>
      if negb (bool_decide (ex = rv_exc_none))
      then Some (ex, throw_ex cpu virt noisy, m)
      else if negb (IS_ALIGNED virt 4)
      then Some (rv_exc_store_amo_address_misaligned,
                 throw_ex cpu virt noisy, m)
      else
        let '(ok, m) :=
          physmem_write32 (mhartid (csr cpu)) (default 0 phys)
                          (value mod 2 ^ 32) true m in
        if ok then Some (rv_exc_none, cpu, m)
        else Some (rv_exc_none, cpu, m)
    end
  end.

(** ** Trap entry *)

Definition m_trap (cpu : rv_cpu_t) (ex : rv_exc_t) : option rv_cpu_t :=
  if bool_decide (ex = rv_exc_none) then None  (* ASSERT(ex != rv_exc_none) *)
  else
    let is_interrupt := is_set (rv_exc_val ex) RV_INTERRUPT_EXC_BITS in
    let cpu := set_stdby false cpu in
    let cpu :=
      upd_csr (csr_set_mepc (if is_interrupt then pc_next cpu else pc cpu))
              cpu in
    let cpu := upd_csr (csr_set_mcause (rv_exc_val ex)) cpu in
    let cpu := upd_csr (csr_set_mtval (tval_next (csr cpu))) cpu in
    (* MPIE = MIE *)
    let mie_set := rv_csr_mstatus_mie cpu in
    let cpu :=
      if mie_set
      then upd_csr (csr_set_mstatus
             (Z.lor (mstatus (csr cpu)) rv_csr_mstatus_mpie_mask)) cpu
      else upd_csr (csr_set_mstatus
             (Z.land (mstatus (csr cpu)) (not32 rv_csr_mstatus_mpie_mask)))
             cpu in
    (* MIE = 0 *)
    let cpu :=
      upd_csr (csr_set_mstatus
        (Z.land (mstatus (csr cpu)) (not32 rv_csr_mstatus_mie_mask))) cpu in
    (* MPP = cpu->priv_mode *)
    let cpu :=
      upd_csr (csr_set_mstatus
        (Z.land (mstatus (csr cpu)) (not32 rv_csr_mstatus_mpp_mask))) cpu in
    let cpu :=
      upd_csr (csr_set_mstatus
        (Z.lor (mstatus (csr cpu))
           (Z.land (u32 (Z.shiftl (priv_mode cpu) rv_csr_mstatus_mpp_pos))
                   rv_csr_mstatus_mpp_mask))) cpu in
    let cpu := set_priv_mode rv_mmode cpu in
    let mode := Z.land (mtvec (csr cpu)) rv_csr_mtvec_mode_mask in
    let base := Z.land (mtvec (csr cpu)) (not32 rv_csr_mtvec_mode_mask) in
    if mode =? rv_csr_mtvec_mode_direct then Some (set_pc_next base cpu)
    else if mode =? rv_csr_mtvec_mode_vectored then
      if is_interrupt
      then Some (set_pc_next
                   (u32 (base + 4 * Z.land (rv_exc_val ex)
                                           (not32 RV_INTERRUPT_EXC_BITS)))
                   cpu)
      else Some (set_pc_next base cpu)
    else None.  (* ASSERT(false) *)

Definition s_trap (cpu : rv_cpu_t) (ex : rv_exc_t) : option rv_cpu_t :=
  if bool_decide (ex = rv_exc_none) then None  (* ASSERT(ex != rv_exc_none) *)
  else
    let is_interrupt := is_set (rv_exc_val ex) RV_INTERRUPT_EXC_BITS in
    let cpu := set_stdby false cpu in
    let cpu :=
      upd_csr (csr_set_sepc (if is_interrupt then pc_next cpu else pc cpu))
              cpu in
    let cpu := upd_csr (csr_set_scause (rv_exc_val ex)) cpu in
    let cpu := upd_csr (csr_set_stval (tval_next (csr cpu))) cpu in
    (* SPIE = SIE *)
    let sie_set := rv_csr_sstatus_sie cpu in
    let cpu :=
      if sie_set
      then upd_csr (csr_set_mstatus
             (Z.lor (mstatus (csr cpu)) rv_csr_sstatus_spie_mask)) cpu
      else upd_csr (csr_set_mstatus
             (Z.land (mstatus (csr cpu)) (not32 rv_csr_sstatus_spie_mask)))
             cpu in
    (* SIE = 0 *)
    let cpu :=
      upd_csr (csr_set_mstatus
        (Z.land (mstatus (csr cpu)) (not32 rv_csr_sstatus_sie_mask))) cpu in
    (* SPP = cpu->priv_mode *)
    let cpu :=
      upd_csr (csr_set_mstatus
        (Z.land (mstatus (csr cpu)) (not32 rv_csr_sstatus_spp_mask))) cpu in
    let cpu :=
      upd_csr (csr_set_mstatus
        (Z.lor (mstatus (csr cpu))
           (Z.land (u32 (Z.shiftl (priv_mode cpu) rv_csr_sstatus_spp_pos))
                   rv_csr_sstatus_spp_mask))) cpu in
    let cpu := set_priv_mode rv_smode cpu in
    let mode := Z.land (stvec (csr cpu)) rv_csr_mtvec_mode_mask in
    let base := Z.land (stvec (csr cpu)) (not32 rv_csr_mtvec_mode_mask) in
    if mode =? rv_csr_mtvec_mode_direct then Some (set_pc_next base cpu)
    else if mode =? rv_csr_mtvec_mode_vectored then
      if is_interrupt
      then Some (set_pc_next
                   (u32 (base + 4 * Z.land (rv_exc_val ex)
                                           (not32 RV_INTERRUPT_EXC_BITS)))
                   cpu)
      else Some (set_pc_next base cpu)
    else None.  (* ASSERT(false) *)

Definition handle_exception (cpu : rv_cpu_t) (ex : rv_exc_t)
    : option rv_cpu_t :=
  let mask := RV_EXCEPTION_MASK (rv_exc_val ex) in
  let delegated := is_set (medeleg (csr cpu)) mask in
  if delegated && negb (priv_mode cpu =? rv_mmode)
  then s_trap cpu ex
  else m_trap cpu ex.

(** ** Interrupt delivery *)

(** The macro [trap_if_set]: trap and return, or go on with [next]. *)
Definition trap_if_set (cpu : rv_cpu_t) (mask : Z) (interrupt : rv_exc_t)
    (trap_func : rv_cpu_t -> rv_exc_t -> option rv_cpu_t)
    (next : option rv_cpu_t) : option rv_cpu_t :=
  if is_set mask (RV_EXCEPTION_MASK (rv_exc_val interrupt))
  then trap_func cpu interrupt
  else next.

Definition try_handle_interrupt (cpu : rv_cpu_t) : option rv_cpu_t :=
  let mip :=
    Z.lor (mip (csr cpu))
          (if external_SEIP (csr cpu) then rv_csr_sei_mask else 0) in
  if mip =? 0 then Some cpu
  else
    let can_trap_to_M :=
      ((priv_mode cpu =? rv_mmode) && rv_csr_mstatus_mie cpu)
      || (priv_mode cpu <? rv_mmode) in
    let can_trap_to_S :=
      ((priv_mode cpu =? rv_smode) && rv_csr_sstatus_sie cpu)
      || (priv_mode cpu <? rv_smode) in
    let s_part :=
      if can_trap_to_S then
        let s_mode_active_interrupt_mask :=
          Z.land (Z.land mip (mie (csr cpu))) rv_csr_si_mask in
        trap_if_set cpu s_mode_active_interrupt_mask
          rv_exc_supervisor_external_interrupt s_trap
       (trap_if_set cpu s_mode_active_interrupt_mask
          rv_exc_supervisor_software_interrupt s_trap
       (trap_if_set cpu s_mode_active_interrupt_mask
          rv_exc_supervisor_timer_interrupt s_trap
       (Some cpu)))
      else Some cpu in
    if can_trap_to_M then
      let m_mode_active_interrupt_mask :=
        Z.land (Z.land mip (mie (csr cpu))) (not32 (mideleg (csr cpu))) in
      trap_if_set cpu m_mode_active_interrupt_mask
        rv_exc_machine_external_interrupt m_trap
     (trap_if_set cpu m_mode_active_interrupt_mask
        rv_exc_machine_software_interrupt m_trap
     (trap_if_set cpu m_mode_active_interrupt_mask
        rv_exc_machine_timer_interrupt m_trap
     (trap_if_set cpu m_mode_active_interrupt_mask
        rv_exc_supervisor_external_interrupt m_trap
     (trap_if_set cpu m_mode_active_interrupt_mask
        rv_exc_supervisor_software_interrupt m_trap
     (trap_if_set cpu m_mode_active_interrupt_mask
        rv_exc_supervisor_timer_interrupt m_trap
      s_part)))))
    else s_part.

(** ** Accounting *)

Definition account_hmp (cpu : rv_cpu_t) (i : nat) : rv_cpu_t :=
  let mask := u32 (Z.shiftl 1 (Z.of_nat i + 3)) in
  let inhibited := is_set (mcountinhibit (csr cpu)) mask in
  if inhibited then cpu
  else
    let event := default hpm_no_event (hpmevents (csr cpu) !! i) in
    let incr (cpu : rv_cpu_t) : rv_cpu_t :=
      upd_csr (csr_set_hpmcounters
        (<[i := u64 (default 0 (hpmcounters (csr cpu) !! i) + 1)]>
           (hpmcounters (csr cpu)))) cpu in
    match event with
    | hpm_u_cycles => if priv_mode cpu =? rv_umode then incr cpu else cpu
    | hpm_s_cycles => if priv_mode cpu =? rv_smode then incr cpu else cpu
    | hpm_m_cycles => if priv_mode cpu =? rv_mmode then incr cpu else cpu
    | hpm_w_cycles => if stdby cpu then incr cpu else cpu
    | hpm_no_event => cpu
    end.

Definition raise_timer_interrupts (cpu : rv_cpu_t) : rv_cpu_t :=
  (* raise or clear scyclecmp STIP *)
  let cpu :=
    if scyclecmp (csr cpu) <=? u32 (cycle (csr cpu))
    then upd_csr (csr_set_mip (Z.lor (mip (csr cpu)) rv_csr_sti_mask)) cpu
    else upd_csr (csr_set_mip
           (Z.land (mip (csr cpu)) (not32 rv_csr_sti_mask))) cpu in
  (* raise or clear mtimecmp MTIP *)
  if mtimecmp (csr cpu) <=? mtime (csr cpu)
  then upd_csr (csr_set_mip (Z.lor (mip (csr cpu)) rv_csr_mti_mask)) cpu
  else upd_csr (csr_set_mip
         (Z.land (mip (csr cpu)) (not32 rv_csr_mti_mask))) cpu.

(** [account]; [current_tick_time] is what [current_timestamp()] gives. *)
Definition account (current_tick_time : Z) (cpu : rv_cpu_t)
    (exception_raised : bool) : rv_cpu_t :=
  let cpu :=
    if negb (is_set (mcountinhibit (csr cpu)) 1)
    then upd_csr (csr_set_cycle (u64 (cycle (csr cpu) + 1))) cpu
    else cpu in
  let cpu :=
    upd_csr (csr_set_mtime
      (u64 (mtime (csr cpu)
            + u64 (current_tick_time - last_tick_time (csr cpu))))) cpu in
  let cpu := upd_csr (csr_set_last_tick_time current_tick_time) cpu in
  let cpu :=
    if negb (is_set (mcountinhibit (csr cpu)) 4)
       && negb exception_raised && negb (stdby cpu)
    then upd_csr (csr_set_instret (u64 (instret (csr cpu) + 1))) cpu
    else cpu in
  let cpu := fold_left account_hmp (seq 0 29) cpu in
  raise_timer_interrupts cpu.

(** ** The step *)

(** [execute]; [None] is a failed assertion of [rv_convert_addr] or of
    [fetch_instr]. *)
Definition execute (cpu : rv_cpu_t) (m : physmem)
    : option (rv_exc_t * rv_cpu_t * physmem) :=
  match rv_convert_addr cpu (pc cpu) false true true m with
  | None => None
  | Some (ex, phys, m) =>
    if negb (bool_decide (ex = rv_exc_none)) then Some (ex, cpu, m)
    else
      let phys := default 0 phys in
      match fetch_instr cpu phys m with
      | None => None
      | Some (instr_func, m) =>
        let '(instr_data, m) :=
          physmem_read32 (mhartid (csr cpu)) phys true m in
        let '(ex, cpu, m) := instr_func cpu instr_data m in
        let cpu :=
          if bool_decide (ex = rv_exc_illegal_instruction)
          then upd_csr (csr_set_tval_next instr_data) cpu
          else cpu in
        Some (ex, cpu, m)
      end
  end.

Definition rv_cpu_step (current_tick_time : Z) (cpu : rv_cpu_t)
    (m : physmem) : option (rv_cpu_t * physmem) :=
  match (if negb (stdby cpu) then execute cpu m
         else Some (rv_exc_none, cpu, m)) with
  | None => None
  | Some (ex, cpu, m) =>
    let cpu :=
      account current_tick_time cpu (negb (bool_decide (ex = rv_exc_none))) in
    match (if negb (bool_decide (ex = rv_exc_none))
           then handle_exception cpu ex
           else try_handle_interrupt cpu) with
    | None => None
    | Some cpu =>
      let cpu :=
        if negb (stdby cpu)
        then
          let cpu := set_pc (pc_next cpu) cpu in
          set_pc_next (u32 (pc cpu + 4)) cpu
        else cpu in
      (* x0 is always 0 *)
      let cpu := set_regs (<[0%nat := 0]> (regs cpu)) cpu in
      let cpu := upd_csr (csr_set_tval_next 0) cpu in
      Some (cpu, m)
    end
  end.

(** ** Host interface: reservations and interrupt lines *)


Definition rv_interrupt_up (cpu : rv_cpu_t) (no : Z) : rv_cpu_t :=
  if no =? RV_INTERRUPT_NO (rv_exc_val rv_exc_supervisor_external_interrupt)
  then upd_csr (csr_set_external_SEIP true) cpu
  else
    (* default to MEI if no is invalid *)
    let no :=
      if negb (no =? RV_INTERRUPT_NO
                       (rv_exc_val rv_exc_machine_software_interrupt))
         && negb (no =? RV_INTERRUPT_NO
                          (rv_exc_val rv_exc_supervisor_software_interrupt))
         && negb (no =? RV_INTERRUPT_NO
                          (rv_exc_val rv_exc_machine_external_interrupt))
      then RV_INTERRUPT_NO (rv_exc_val rv_exc_machine_external_interrupt)
      else no in
    let mask := RV_EXCEPTION_MASK no in
    upd_csr (csr_set_mip (Z.lor (mip (csr cpu)) mask)) cpu.

Definition rv_interrupt_down (cpu : rv_cpu_t) (no : Z) : rv_cpu_t :=
  if no =? RV_INTERRUPT_NO (rv_exc_val rv_exc_supervisor_external_interrupt)
  then upd_csr (csr_set_external_SEIP false) cpu
  else
    (* default to MEI if no is invalid *)
    let no :=
      if negb (no =? RV_INTERRUPT_NO
                       (rv_exc_val rv_exc_machine_software_interrupt))
         && negb (no =? RV_INTERRUPT_NO
                          (rv_exc_val rv_exc_supervisor_software_interrupt))
         && negb (no =? RV_INTERRUPT_NO
                          (rv_exc_val rv_exc_machine_external_interrupt))
      then RV_INTERRUPT_NO (rv_exc_val rv_exc_machine_external_interrupt)
      else no in
    let mask := RV_EXCEPTION_MASK no in
    upd_csr (csr_set_mip (Z.land (mip (csr cpu)) (not32 mask))) cpu.

(** ** Debugger entry *)

Definition rv_cpu_set_pc (cpu : rv_cpu_t) (value : Z) : rv_cpu_t :=
  if negb (IS_ALIGNED value 4) then cpu
  else
    let cpu := set_pc value cpu in
    set_pc_next (u32 (value + 4)) cpu.

(** ** Vocabulary of the statements *)

(** The six interrupt codes, as an enumeration. *)
Definition exc_is_interrupt (ex : rv_exc_t) : bool :=
  match ex with
  | rv_exc_supervisor_software_interrupt
  | rv_exc_machine_software_interrupt
  | rv_exc_supervisor_timer_interrupt
  | rv_exc_machine_timer_interrupt
  | rv_exc_supervisor_external_interrupt
  | rv_exc_machine_external_interrupt => true
  | _ => false
  end.

(** The cause code of [ex]: its value without the interrupt bit. *)
Definition cause_code (ex : rv_exc_t) : Z := rv_exc_val ex mod 2 ^ 31.

(** The two fields of a trap vector, [{base[31:2], mode[1:0]}]. *)
Definition tvec_mode (tvec : Z) : Z := tvec mod 4.
Definition tvec_base (tvec : Z) : Z := tvec - tvec mod 4.

(** What the entry into M-mode establishes, from the hart [cpu] before the
    trap to the hart [cpu'] after it. *)
Definition m_trap_entry (cpu : rv_cpu_t) (ex : rv_exc_t) (cpu' : rv_cpu_t)
    : Prop :=
  mepc (csr cpu') = (if exc_is_interrupt ex then pc_next cpu else pc cpu)
  /\ mcause (csr cpu') = rv_exc_val ex
  /\ mtval (csr cpu') = tval_next (csr cpu)
  (* MPIE, bit 7, is the old MIE, bit 3 *)
  /\ Z.testbit (mstatus (csr cpu')) 7 = Z.testbit (mstatus (csr cpu)) 3
  (* MIE is clear *)
  /\ Z.testbit (mstatus (csr cpu')) 3 = false
  (* MPP, bits 12:11, is the old privilege *)
  /\ rv_csr_mstatus_mpp cpu' = priv_mode cpu
  /\ priv_mode cpu' = rv_mmode
  /\ stdby cpu' = false
  /\ pc_next cpu' =
       (if tvec_mode (mtvec (csr cpu)) =? 0
        then tvec_base (mtvec (csr cpu))
        else if exc_is_interrupt ex
             then u32 (tvec_base (mtvec (csr cpu)) + 4 * cause_code ex)
             else tvec_base (mtvec (csr cpu))).

(** *** Interrupt delivery, in the words of section 4.5 *)

(** Effective [mip]: [csr.mip], with the SEIP bit when the external line
    is up. *)
Definition effective_mip (cpu : rv_cpu_t) : Z :=
  Z.lor (mip (csr cpu))
        (if external_SEIP (csr cpu) then rv_csr_sei_mask else 0).

(** The two gates; [mstatus.MIE] is bit 3 and [sstatus.SIE] bit 1. *)
Definition can_trap_to_M (cpu : rv_cpu_t) : bool :=
  ((priv_mode cpu =? rv_mmode) && Z.testbit (mstatus (csr cpu)) 3)
  || (priv_mode cpu <? rv_mmode).

Definition can_trap_to_S (cpu : rv_cpu_t) : bool :=
  ((priv_mode cpu =? rv_smode) && Z.testbit (mstatus (csr cpu)) 1)
  || (priv_mode cpu <? rv_smode).

(** The priority orders: MEI, MSI, MTI, SEI, SSI, STI and SEI, SSI, STI. *)
Definition m_priority : list rv_exc_t :=
  [ rv_exc_machine_external_interrupt; rv_exc_machine_software_interrupt;
    rv_exc_machine_timer_interrupt; rv_exc_supervisor_external_interrupt;
    rv_exc_supervisor_software_interrupt;
    rv_exc_supervisor_timer_interrupt ].

Definition s_priority : list rv_exc_t :=
  [ rv_exc_supervisor_external_interrupt;
    rv_exc_supervisor_software_interrupt;
    rv_exc_supervisor_timer_interrupt ].

(** Interrupt [i] is in the set [active]; the first such interrupt of an
    order. *)
Definition in_set (active : Z) (i : rv_exc_t) : bool :=
  Z.testbit active (cause_code i).

Definition highest_priority (order : list rv_exc_t) (active : Z)
    : option rv_exc_t :=
  List.find (in_set active) order.

Inductive trap_target : Type := to_M | to_S.

(** The interrupt to take, if any, and the mode that takes it: M-mode when
    the hart can trap to M and an interrupt of [mip & mie & ~mideleg] is
    pending; otherwise S-mode when it can trap to S and an interrupt of
    [mip & mie & S-mask] is pending. *)
Definition interrupt_to_take (cpu : rv_cpu_t)
    : option (trap_target * rv_exc_t) :=
  let mip := effective_mip cpu in
  let m_set := Z.land (Z.land mip (mie (csr cpu))) (not32 (mideleg (csr cpu))) in
  let s_set := Z.land (Z.land mip (mie (csr cpu))) rv_csr_si_mask in
  match (if can_trap_to_M cpu then highest_priority m_priority m_set
         else None) with
  | Some i => Some (to_M, i)
  | None =>
    match (if can_trap_to_S cpu then highest_priority s_priority s_set
           else None) with
    | Some i => Some (to_S, i)
    | None => None
    end
  end.

(** At most one trap: none, or one entry into the chosen mode. *)
Definition deliver (cpu : rv_cpu_t) (choice : option (trap_target * rv_exc_t))
    : option rv_cpu_t :=
  match choice with
  | None => Some cpu
  | Some (to_M, i) => m_trap cpu i
  | Some (to_S, i) => s_trap cpu i
  end.

(** A chain of [trap_if_set] over an order of interrupts. *)
Fixpoint trap_chain (cpu : rv_cpu_t) (mask : Z) (order : list rv_exc_t)
    (trap_func : rv_cpu_t -> rv_exc_t -> option rv_cpu_t)
    (next : option rv_cpu_t) : option rv_cpu_t :=
  match order with
  | [] => next
  | i :: rest =>
    trap_if_set cpu mask i trap_func (trap_chain cpu mask rest trap_func next)
  end.

(** *** Timer interrupts *)

(** The part of the state the two timer bits depend on. *)
Definition timer_view (cpu : rv_cpu_t) : Z * Z * Z * Z * Z :=
  (mip (csr cpu), mtime (csr cpu), mtimecmp (csr cpu), cycle (csr cpu),
   scyclecmp (csr cpu)).

(** [mip.MTIP] (bit 7) is set iff [mtime >= mtimecmp], and [mip.STIP]
    (bit 5) iff the low 32 bits of [cycle] are [>= scyclecmp]. *)
Definition timer_bits_agree (cpu : rv_cpu_t) : Prop :=
  Z.testbit (mip (csr cpu)) 7 = (mtimecmp (csr cpu) <=? mtime (csr cpu))
  /\ Z.testbit (mip (csr cpu)) 5
     = (scyclecmp (csr cpu) <=? cycle (csr cpu) mod 2 ^ 32).

(** *** Interrupt lines *)

(** The number of the supervisor external interrupt, and the [mip] bit an
    interrupt number drives: its own for MSI (3), SSI (1) and MEI (11),
    that of MEI for any other number. *)
Definition sei_no : Z := 9.
Definition interrupt_line (no : Z) : Z :=
  if (no =? 3) || (no =? 1) || (no =? 11) then no else 11.

(** *** Translation and the memory interface *)

(** The effective privilege in the words of section 4.3: [mstatus.MPP]
    when [mstatus.MPRV] is set and the access is not a fetch, [priv_mode]
    otherwise. *)
Definition claimed_effective_priv (cpu : rv_cpu_t) (fetch : bool) : Z :=
  if rv_csr_mstatus_mprv cpu && negb fetch then rv_csr_mstatus_mpp cpu
  else priv_mode cpu.

(** The four accessors that check alignment, and the three stores. *)
Inductive wide_access : Type := load16 | load32 | store16 | store32.
Inductive store_width : Type := sw8 | sw16 | sw32.

Definition is_store (a : wide_access) : bool :=
  match a with store16 | store32 => true | _ => false end.

Definition access_bytes (a : wide_access) : Z :=
  match a with load16 | store16 => 2 | load32 | store32 => 4 end.

(** The access reaches [MTIME] or [MTIMECMP]. *)
Definition hits_timer (a : wide_access) (cpu : rv_cpu_t) (virt value : Z)
    : bool :=
  match a with
  | load16 => bool_decide (is_Some (try_read_memory_mapped_regs_16 cpu virt))
  | load32 => bool_decide (is_Some (try_read_memory_mapped_regs_32 cpu virt))
  | store16 =>
    bool_decide (is_Some (try_write_memory_mapped_regs cpu virt
                            (value mod 2 ^ 16) 16))
  | store32 =>
    bool_decide (is_Some (try_write_memory_mapped_regs cpu virt
                            (value mod 2 ^ 32) 32))
  end.

(** The return code of the translation and of an access ([None]: a failed
    assertion). *)
Definition translation_code (cpu : rv_cpu_t) (virt : Z)
    (wr fetch noisy : bool) (m : physmem) : option rv_exc_t :=
  option_map (fun r => fst (fst r))
             (rv_convert_addr cpu virt wr fetch noisy m).

Definition access_code (a : wide_access) (cpu : rv_cpu_t) (virt value : Z)
    (fetch noisy : bool) (m : physmem) : option rv_exc_t :=
  match a with
  | load16 =>
    option_map (fun r => fst (fst (fst r)))
               (rv_read_mem16 cpu virt fetch noisy m)
  | load32 =>
    option_map (fun r => fst (fst (fst r)))
               (rv_read_mem32 cpu virt fetch noisy m)
  | store16 =>
    option_map (fun r => fst (fst r)) (rv_write_mem16 cpu virt value noisy m)
  | store32 =>
    option_map (fun r => fst (fst r)) (rv_write_mem32 cpu virt value noisy m)
  end.

(** The misalignment code of an access: by kind for the loads, the
    store/AMO one for the stores. *)
Definition misaligned_code (a : wide_access) (fetch : bool) : rv_exc_t :=
  if is_store a then rv_exc_store_amo_address_misaligned
  else read_address_misaligned_exception fetch.

Definition rv_write_mem (w : store_width) :=
  match w with
  | sw8 => rv_write_mem8
  | sw16 => rv_write_mem16
  | sw32 => rv_write_mem32
  end.

Definition physmem_write (w : store_width) :=
  match w with
  | sw8 => physmem_write8
  | sw16 => physmem_write16
  | sw32 => physmem_write32
  end.

Definition store_bits (w : store_width) : Z :=
  match w with sw8 => 8 | sw16 => 16 | sw32 => 32 end.

Definition store_bytes (w : store_width) : Z :=
  match w with sw8 => 1 | sw16 => 2 | sw32 => 4 end.

(** The [fetch] flag an access hands to the translation: that of the
    caller for a load, [false] for a store. *)
Definition access_fetch (a : wide_access) (fetch : bool) : bool :=
  if is_store a then false else fetch.

(** *** Abort-freedom of a step *)

Definition tvec_view (cpu : rv_cpu_t) : Z * Z :=
  (mtvec (csr cpu), stvec (csr cpu)).

(** Both trap vectors hold the direct or the vectored mode. *)
Definition tvec_modes_valid (cpu : rv_cpu_t) : Prop :=
  (tvec_mode (mtvec (csr cpu)) = rv_csr_mtvec_mode_direct
   \/ tvec_mode (mtvec (csr cpu)) = rv_csr_mtvec_mode_vectored)
  /\ (tvec_mode (stvec (csr cpu)) = rv_csr_mtvec_mode_direct
      \/ tvec_mode (stvec (csr cpu)) = rv_csr_mtvec_mode_vectored).

(** *** Entry into S-mode *)

(** What the entry into S-mode establishes.  [sstatus.SPP] is one bit: it
    records the low bit of the old privilege. *)
Definition s_trap_entry (cpu : rv_cpu_t) (ex : rv_exc_t) (cpu' : rv_cpu_t)
    : Prop :=
  sepc (csr cpu') = (if exc_is_interrupt ex then pc_next cpu else pc cpu)
  /\ scause (csr cpu') = rv_exc_val ex
  /\ stval (csr cpu') = tval_next (csr cpu)
  (* SPIE, bit 5, is the old SIE, bit 1 *)
  /\ Z.testbit (mstatus (csr cpu')) 5 = Z.testbit (mstatus (csr cpu)) 1
  (* SIE is clear *)
  /\ Z.testbit (mstatus (csr cpu')) 1 = false
  (* SPP, bit 8 *)
  /\ Z.testbit (mstatus (csr cpu')) 8 = Z.testbit (priv_mode cpu) 0
  /\ priv_mode cpu' = rv_smode
  /\ stdby cpu' = false
  /\ pc_next cpu' =
       (if tvec_mode (stvec (csr cpu)) =? 0
        then tvec_base (stvec (csr cpu))
        else if exc_is_interrupt ex
             then u32 (tvec_base (stvec (csr cpu)) + 4 * cause_code ex)
             else tvec_base (stvec (csr cpu))).

(** The hart with everything an entry into M-mode (into S-mode) may write
    blanked: two harts equal under it differ in those fields only. *)
Definition outside_m_trap (cpu : rv_cpu_t) : rv_cpu_t :=
  set_pc_next 0 (set_stdby false (set_priv_mode 0
    (upd_csr (fun c => csr_set_mepc 0 (csr_set_mcause 0 (csr_set_mtval 0
                         (csr_set_mstatus 0 c)))) cpu))).

Definition outside_s_trap (cpu : rv_cpu_t) : rv_cpu_t :=
  set_pc_next 0 (set_stdby false (set_priv_mode 0
    (upd_csr (fun c => csr_set_sepc 0 (csr_set_scause 0 (csr_set_stval 0
                         (csr_set_mstatus 0 c)))) cpu))).

(** *** The Sv32 walk, step by step (section 4.3) *)

(** The reads of the walk: the word and the address of the leaf entry when
    the walk reaches one (valid, and aligned if it is a megapage), and the
    memory after the reads. *)
Definition sv32_walk_reads (cpu : rv_cpu_t) (virt : Z) (noisy : bool)
    (m : physmem) : option (Z * Z) * physmem :=
  let hart := mhartid (csr cpu) in
  let a1 :=
    Z.shiftl (rv_csr_satp_ppn cpu) 12
    + Z.shiftr (Z.land virt 0xFFC00000) 22 * 4 in
  let '(v1, m1) := physmem_read32 hart a1 noisy m in
  let pte1 := pte_from_uint v1 in
  if negb (is_pte_valid pte1) then (None, m1)
  else if is_pte_leaf pte1
  then ((if pte_ppn0 pte1 =? 0 then Some (v1, a1) else None), m1)
  else
    let a0 :=
      Z.shiftl (pte_ppn pte1) 12
      + Z.shiftr (Z.land virt 0x003FF000) 12 * 4 in
    let '(v0, m0) := physmem_read32 hart a0 noisy m1 in
    let pte0 := pte_from_uint v0 in
    ((if is_pte_valid pte0 && is_pte_leaf pte0 then Some (v0, a0) else None),
     m0).

(** The permission rules of step 5, one by one. *)
Definition access_permitted (cpu : rv_cpu_t) (pte : sv32_pte_t)
    (wr fetch : bool) : Prop :=
  (wr = true -> pte_w pte = true)
  /\ (fetch = true -> pte_x pte = true)
  /\ (wr = false -> fetch = false ->
      pte_r pte = true
      \/ (Z.testbit (mstatus (csr cpu)) 19 = true /\ pte_x pte = true))
  /\ (sv32_effective_priv cpu = rv_smode -> pte_u pte = true ->
      Z.testbit (mstatus (csr cpu)) 18 = true /\ fetch = false)
  /\ (sv32_effective_priv cpu = rv_umode -> pte_u pte = true).

(** The leaf entry as the walk marks it: accessed, and dirty for a
    store. *)
Definition pte_touched (pte : sv32_pte_t) (wr : bool) : sv32_pte_t :=
  let pte := pte_set_a true pte in
  pte_set_d (pte_d pte || (if wr then true else false)) pte.

(** The outcome of the walk (section 4.3, steps 1 to 6): the page fault of
    the access when the reads reach no leaf or the leaf refuses the access;
    otherwise the physical address made from the leaf, a megapage when the
    leaf is the first-level entry, and the memory after the write-back of
    the marked leaf, which only a noisy walk performs. *)
Definition sv32_walk (cpu : rv_cpu_t) (virt : Z) (wr fetch noisy : bool)
    (m : physmem) : option (rv_exc_t * option Z * physmem) :=
  match sv32_walk_reads cpu virt noisy m with
  | (Some (w, a), m1) =>
    if is_access_allowed cpu (pte_from_uint w) wr fetch
    then Some (rv_exc_none,
               Some (make_phys_from_ppn virt (pte_from_uint w)
                       (is_pte_leaf (fst (sv32_pte_level1 cpu virt noisy m)))),
               if noisy
               then snd (physmem_write32 (mhartid (csr cpu)) a
                           (uint_from_pte (pte_touched (pte_from_uint w) wr))
                           true m1)
               else m1)
    else Some (page_fault_exception wr fetch, None, m1)
  | (None, m1) => Some (page_fault_exception wr fetch, None, m1)
  end.

(** The word written back for the leaf word [w]: the accessed bit, and the
    dirty bit for a store. *)
Definition pte_word_touched (w : Z) (wr : bool) : Z :=
  Z.lor w (if wr then 0xC0 else 0x40).

(** The fields of an entry fit its bit-field. *)
Definition pte_fields_fit (pte : sv32_pte_t) : Prop :=
  0 <= pte_rsw pte < 4 /\ 0 <= pte_ppn pte < 2 ^ 22.

(** *** Loads of each width *)

Definition rv_read_mem (w : store_width) (cpu : rv_cpu_t) (virt : Z)
    (fetch noisy : bool) (m : physmem) :=
  match w with
  | sw8 => rv_read_mem8 cpu virt noisy m
  | sw16 => rv_read_mem16 cpu virt fetch noisy m
  | sw32 => rv_read_mem32 cpu virt fetch noisy m
  end.

(** *** Accounting *)

(** Counter [i] of the performance counters ticks in this step. *)
Definition hpm_ticks (cpu : rv_cpu_t) (i : nat) : bool :=
  negb (Z.testbit (mcountinhibit (csr cpu)) (Z.of_nat i + 3))
  && match hpmevents (csr cpu) !! i with
     | Some hpm_u_cycles => priv_mode cpu =? rv_umode
     | Some hpm_s_cycles => priv_mode cpu =? rv_smode
     | Some hpm_m_cycles => priv_mode cpu =? rv_mmode
     | Some hpm_w_cycles => stdby cpu
     | _ => false
     end.

(** What a step leaves of the hart that accounting has updated: [x0] and
    [tval_next] are cleared. *)
Definition step_epilogue (cpu : rv_cpu_t) : rv_cpu_t :=
  upd_csr (csr_set_tval_next 0) (set_regs (<[0%nat := 0]> (regs cpu)) cpu).

(** *** Interrupt lines *)

(** The interrupt an interrupt number raises. *)
Definition line_interrupt (no : Z) : rv_exc_t :=
  if no =? 9 then rv_exc_supervisor_external_interrupt
  else if no =? 3 then rv_exc_machine_software_interrupt
  else if no =? 1 then rv_exc_supervisor_software_interrupt
  else rv_exc_machine_external_interrupt.

(** The two active sets of the delivery. *)
Definition m_active_set (cpu : rv_cpu_t) : Z :=
  Z.land (Z.land (effective_mip cpu) (mie (csr cpu)))
         (not32 (mideleg (csr cpu))).

Definition s_active_set (cpu : rv_cpu_t) : Z :=
  Z.land (Z.land (effective_mip cpu) (mie (csr cpu))) rv_csr_si_mask.

(** The hart with everything accounting may write blanked. *)
Definition outside_account (cpu : rv_cpu_t) : rv_cpu_t :=
  upd_csr (fun c => csr_set_cycle 0 (csr_set_mtime 0
    (csr_set_last_tick_time 0 (csr_set_instret 0
      (csr_set_hpmcounters [] (csr_set_mip 0 c)))))) cpu.

(** The first half of [account]: [cycle], [mtime] and [instret]. *)
Definition account_head (current_tick_time : Z) (cpu : rv_cpu_t)
    (exception_raised : bool) : rv_cpu_t :=
  let cpu :=
    if negb (is_set (mcountinhibit (csr cpu)) 1)
    then upd_csr (csr_set_cycle (u64 (cycle (csr cpu) + 1))) cpu
    else cpu in
  let cpu :=
    upd_csr (csr_set_mtime
      (u64 (mtime (csr cpu)
            + u64 (current_tick_time - last_tick_time (csr cpu))))) cpu in
  let cpu := upd_csr (csr_set_last_tick_time current_tick_time) cpu in
  if negb (is_set (mcountinhibit (csr cpu)) 4)
     && negb exception_raised && negb (stdby cpu)
  then upd_csr (csr_set_instret (u64 (instret (csr cpu) + 1))) cpu
  else cpu.

(** A counter after a step in which it ticks, or not. *)
Definition hpm_bump (tick : bool) (v : Z) : Z :=
  if tick then u64 (v + 1) else v.

(** *** The step (section 4.7) *)

(** The first part of [rv_cpu_step]: a hart in standby executes nothing. *)
Definition executed (cpu : rv_cpu_t) (m : physmem)
    : option (rv_exc_t * rv_cpu_t * physmem) :=
  if negb (stdby cpu) then execute cpu m else Some (rv_exc_none, cpu, m).

(** The program counters move on unless the hart is in standby. *)
Definition step_advance (cpu : rv_cpu_t) : rv_cpu_t :=
  if negb (stdby cpu)
  then set_pc_next (u32 (pc_next cpu + 4)) (set_pc (pc_next cpu) cpu)
  else cpu.

(** The mode [handle_exception] enters for [ex]. *)
Definition exception_target (cpu : rv_cpu_t) (ex : rv_exc_t) : trap_target :=
  if Z.testbit (medeleg (csr cpu)) (cause_code ex)
     && negb (priv_mode cpu =? rv_mmode)
  then to_S else to_M.

(** A trap into [t] has been taken: the hart is awake in the mode of [t],
    with the return address, the cause and the trap value in the registers
    of that mode. *)
Definition trap_taken (t : trap_target) (epc cause tval : Z)
    (cpu' : rv_cpu_t) : Prop :=
  stdby cpu' = false
  /\ match t with
     | to_M => priv_mode cpu' = rv_mmode
               /\ mepc (csr cpu') = epc /\ mcause (csr cpu') = cause
               /\ mtval (csr cpu') = tval
     | to_S => priv_mode cpu' = rv_smode
               /\ sepc (csr cpu') = epc /\ scause (csr cpu') = cause
               /\ stval (csr cpu') = tval
     end.

(** *** The timer registers *)

(** The hart with the two timer registers blanked. *)
Definition outside_timer (cpu : rv_cpu_t) : rv_cpu_t :=
  upd_csr (fun c => csr_set_mtime 0 (csr_set_mtimecmp 0 c)) cpu.

(** *** Stores and the reservation (section 4.7) *)



(** * Bit-level facts *)

Lemma testbit_not32 (x i : Z) :
  0 <= i -> Z.testbit (not32 x) i = (i <? 32) && negb (Z.testbit x i).
Proof.
  intros Hi. unfold not32, u32.
  rewrite Z.testbit_mod_pow2 by lia.
  now rewrite Z.lnot_spec by lia.
Qed.

Lemma testbit_bit (k i : Z) :
  0 <= k -> Z.testbit (Z.shiftl 1 k) i = (i =? k).
Proof.
  intros Hk. rewrite Z.shiftl_1_l, Z.pow2_bits_eqb by lia. apply Z.eqb_sym.
Qed.

Lemma land_bit (x k : Z) :
  0 <= k ->
  Z.land x (Z.shiftl 1 k) = if Z.testbit x k then Z.shiftl 1 k else 0.
Proof.
  intros Hk. apply Z.bits_inj'; intros i Hi.
  rewrite Z.land_spec, testbit_bit by lia.
  destruct (Z.eqb_spec i k) as [->|Hne].
  - destruct (Z.testbit x k); rewrite ?testbit_bit, ?Z.bits_0 by lia;
      rewrite ?Z.eqb_refl; reflexivity.
  - rewrite andb_false_r.
    destruct (Z.testbit x k); rewrite ?testbit_bit, ?Z.bits_0 by lia;
      [apply eq_sym, Z.eqb_neq; assumption | reflexivity].
Qed.

Lemma is_set_bit (x k : Z) :
  0 <= k -> is_set x (Z.shiftl 1 k) = Z.testbit x k.
Proof.
  intros Hk. unfold is_set. rewrite land_bit by assumption.
  destruct (Z.testbit x k); [|reflexivity].
  rewrite Z.shiftl_1_l.
  destruct (Z.eqb_spec (2 ^ k) 0) as [E|_]; [|reflexivity].
  pose proof (Z.pow_pos_nonneg 2 k). lia.
Qed.

(** Writing a field through its mask and reading it back. *)
Lemma field_write_read (x v mask : Z) :
  Z.land (Z.lor (Z.land x (not32 mask)) (Z.land v mask)) mask
  = Z.land v mask.
Proof.
  apply Z.bits_inj'; intros i Hi.
  rewrite !Z.land_spec, Z.lor_spec, !Z.land_spec, testbit_not32 by lia.
  destruct (Z.testbit x i), (Z.testbit v i), (Z.testbit mask i), (i <? 32);
    reflexivity.
Qed.

Lemma testbit_u32_high (x i : Z) :
  0 <= x < 2 ^ 32 -> 32 <= i -> Z.testbit x i = false.
Proof.
  intros Hx Hi. rewrite <- (Z.mod_small x (2 ^ 32)) by assumption.
  apply Z.mod_pow2_bits_high. lia.
Qed.

Lemma land_mode_mask (tvec : Z) :
  Z.land tvec rv_csr_mtvec_mode_mask = tvec_mode tvec.
Proof. apply (Z.land_ones tvec 2). lia. Qed.

Lemma land_not_mode_mask (tvec : Z) :
  0 <= tvec < 2 ^ 32 ->
  Z.land tvec (not32 rv_csr_mtvec_mode_mask) = tvec_base tvec.
Proof.
  intros Hr. unfold tvec_base.
  replace (tvec - tvec mod 4) with (Z.shiftl (Z.shiftr tvec 2) 2).
  - apply Z.bits_inj'; intros i Hi.
    rewrite Z.land_spec, testbit_not32, Z.shiftl_spec by lia.
    change rv_csr_mtvec_mode_mask with (Z.ones 2).
    rewrite Z.testbit_ones_nonneg by lia.
    destruct (Z.ltb_spec i 2) as [Hlt|Hge].
    + rewrite (Z.testbit_neg_r _ (i - 2)) by lia.
      simpl. now rewrite !andb_false_r.
    + rewrite Z.shiftr_spec by lia. replace (i - 2 + 2) with i by lia.
      destruct (Z.ltb_spec i 32) as [Hlt|Hhi].
      * simpl. now rewrite andb_true_r.
      * rewrite (testbit_u32_high tvec i) by lia. reflexivity.
  - rewrite Z.shiftr_div_pow2, Z.shiftl_mul_pow2 by lia.
    change (2 ^ 2) with 4. pose proof (Z.div_mod tvec 4). lia.
Qed.

(** * Codes *)

Lemma is_interrupt_spec (ex : rv_exc_t) :
  ex <> rv_exc_none ->
  is_set (rv_exc_val ex) RV_INTERRUPT_EXC_BITS = exc_is_interrupt ex.
Proof. intros H. destruct ex; try congruence; reflexivity. Qed.

Lemma interrupt_no_spec (ex : rv_exc_t) :
  ex <> rv_exc_none ->
  Z.land (rv_exc_val ex) (not32 RV_INTERRUPT_EXC_BITS) = cause_code ex.
Proof. intros H. destruct ex; try congruence; reflexivity. Qed.

Lemma cause_code_range (ex : rv_exc_t) :
  ex <> rv_exc_none -> 0 <= cause_code ex < 16.
Proof. intros H. destruct ex; try congruence; vm_compute; split; congruence. Qed.

(** Projections of updated records, by computation on the constructors. *)
Ltac hart_cbv :=
  cbv beta iota zeta delta
    [upd_csr set_regs set_pc set_pc_next set_csr set_priv_mode set_stdby
     set_reserved_valid set_reserved_addr
     csr_set_mstatus csr_set_mip csr_set_mepc csr_set_mcause csr_set_mtval
     csr_set_sepc csr_set_scause csr_set_stval csr_set_mtime
     csr_set_mtimecmp csr_set_cycle csr_set_instret csr_set_hpmcounters
     csr_set_external_SEIP csr_set_tval_next csr_set_last_tick_time
     rv_csr_mstatus_mie rv_csr_sstatus_sie rv_csr_mstatus_mprv
     rv_csr_sstatus_sum rv_csr_sstatus_mxr rv_csr_mstatus_mpp
     rv_csr_satp_is_bare rv_csr_satp_ppn
     regs pc pc_next csr priv_mode stdby reserved_valid reserved_addr
     mstatus mie mip mtvec mepc mcause mtval medeleg mideleg stvec sepc
     scause stval satp mtime mtimecmp scyclecmp cycle instret hpmcounters
     hpmevents mcountinhibit mhartid external_SEIP tval_next
     last_tick_time] in *.

Ltac destruct_hart cpu :=
  let c := fresh "c" in
  destruct cpu as [? ? ? c ? ? ? ?]; destruct c; hart_cbv.

(** Bits of a concrete constant. *)
Ltac is_ground t :=
  match t with
  | context [?x] => is_var x; fail 1
  | _ => idtac
  end.

Ltac eval_testbit :=
  repeat match goal with
  | |- context [Z.testbit ?c ?i] =>
    is_ground c; is_ground i;
    let b := eval vm_compute in (Z.testbit c i) in
    match b with
    | true => change (Z.testbit c i) with true
    | false => change (Z.testbit c i) with false
    end
  end.

Ltac bits :=
  repeat first
    [ rewrite Z.lor_spec | rewrite Z.land_spec
    | rewrite testbit_not32 by lia ];
  eval_testbit;
  repeat match goal with
  | H : Z.testbit _ _ = _ |- _ => rewrite H
  end;
  repeat match goal with
  | |- context [Z.testbit ?a ?i] => destruct (Z.testbit a i)
  end;
  reflexivity.

Lemma mpp_field (p : Z) :
  0 <= p <= 3 ->
  Z.shiftr (Z.land (u32 (Z.shiftl p rv_csr_mstatus_mpp_pos))
                   rv_csr_mstatus_mpp_mask) rv_csr_mstatus_mpp_pos = p.
Proof.
  intros Hp.
  assert (p = 0 \/ p = 1 \/ p = 2 \/ p = 3) as [->|[->|[->| ->]]] by lia;
    reflexivity.
Qed.

(** C1.  For every code [ex] other than [rv_exc_none], [m_trap] on a hart
    whose [mtvec] holds the direct or the vectored mode returns a hart
    with: [mepc] the old [pc_next] for an interrupt and the old [pc]
    otherwise; [mcause = ex]; [mtval] the old [tval_next]; [mstatus.MPIE]
    the old [mstatus.MIE]; [mstatus.MIE = 0]; [mstatus.MPP] the old
    [priv_mode]; [priv_mode = M]; [stdby = false]; and [pc_next] the base
    of [mtvec] in direct mode and for an exception in vectored mode, and
    [base + 4 * cause_code] (on 32 bits) for an interrupt in vectored
    mode. *)
Theorem C1_m_trap_entry (cpu : rv_cpu_t) (ex : rv_exc_t) :
  ex <> rv_exc_none ->
  0 <= priv_mode cpu <= 3 ->
  0 <= mtvec (csr cpu) < 2 ^ 32 ->
  tvec_mode (mtvec (csr cpu)) = rv_csr_mtvec_mode_direct
  \/ tvec_mode (mtvec (csr cpu)) = rv_csr_mtvec_mode_vectored ->
  exists cpu', m_trap cpu ex = Some cpu' /\ m_trap_entry cpu ex cpu'.
Proof.
  intros Hex Hpriv Htvec Hmode.
  unfold m_trap, m_trap_entry. rewrite bool_decide_false by assumption.
  rewrite is_interrupt_spec, interrupt_no_spec by assumption.
  destruct_hart cpu.
  rewrite (is_set_bit _ 3) by lia.
  destruct (Z.testbit mstatus0 3) eqn:Emie; hart_cbv;
    rewrite land_mode_mask, land_not_mode_mask by assumption;
    destruct Hmode as [-> | ->]; simpl Z.eqb; cbv iota;
    destruct (exc_is_interrupt ex);
    (eexists; split; [reflexivity|]); hart_cbv;
    rewrite field_write_read, mpp_field by assumption;
    repeat split; bits.
Qed.

(** * Delegation and interrupt delivery *)

Lemma exception_mask_spec (ex : rv_exc_t) :
  ex <> rv_exc_none ->
  RV_EXCEPTION_MASK (rv_exc_val ex) = Z.shiftl 1 (cause_code ex).
Proof. intros H. destruct ex; try congruence; reflexivity. Qed.

Lemma is_set_exception_mask (x : Z) (ex : rv_exc_t) :
  ex <> rv_exc_none ->
  is_set x (RV_EXCEPTION_MASK (rv_exc_val ex)) = Z.testbit x (cause_code ex).
Proof.
  intros H. rewrite exception_mask_spec by assumption.
  apply is_set_bit. apply cause_code_range; assumption.
Qed.

Lemma m_trap_none (cpu : rv_cpu_t) : m_trap cpu rv_exc_none = None.
Proof. reflexivity. Qed.

Lemma s_trap_none (cpu : rv_cpu_t) : s_trap cpu rv_exc_none = None.
Proof. reflexivity. Qed.

(** C6.  [handle_exception] enters S-mode ([s_trap]) when the bit of [ex]
    in [medeleg] is set and the hart is not in M-mode, and M-mode
    ([m_trap]) in every other case. *)
Theorem C6_handle_exception_delegation (cpu : rv_cpu_t) (ex : rv_exc_t) :
  handle_exception cpu ex =
    if Z.testbit (medeleg (csr cpu)) (cause_code ex)
       && negb (priv_mode cpu =? rv_mmode)
    then s_trap cpu ex
    else m_trap cpu ex.
Proof.
  unfold handle_exception.
  destruct (decide (ex = rv_exc_none)) as [-> | Hex].
  - rewrite m_trap_none, s_trap_none.
    now repeat match goal with |- context [if ?b then _ else _] =>
      destruct b end.
  - now rewrite is_set_exception_mask by assumption.
Qed.

Lemma trap_chain_find (cpu : rv_cpu_t) (mask : Z) (order : list rv_exc_t)
    (trap_func : rv_cpu_t -> rv_exc_t -> option rv_cpu_t)
    (next : option rv_cpu_t) :
  Forall (fun i => i <> rv_exc_none) order ->
  trap_chain cpu mask order trap_func next =
    match highest_priority order mask with
    | Some i => trap_func cpu i
    | None => next
    end.
Proof.
  induction 1 as [|i rest Hi Hrest IH]; [reflexivity|].
  cbn [trap_chain highest_priority List.find]. unfold trap_if_set.
  rewrite is_set_exception_mask by assumption.
  fold (in_set mask i). destruct (in_set mask i); [reflexivity|].
  exact IH.
Qed.

Lemma priority_not_none :
  Forall (fun i => i <> rv_exc_none) m_priority
  /\ Forall (fun i => i <> rv_exc_none) s_priority.
Proof. split; repeat constructor; discriminate. Qed.

Lemma highest_priority_empty (order : list rv_exc_t) :
  highest_priority order 0 = None.
Proof.
  induction order as [|i rest IH]; [reflexivity|].
  cbn [highest_priority List.find]. unfold in_set at 1.
  rewrite Z.bits_0. exact IH.
Qed.

Lemma try_handle_interrupt_deliver (cpu : rv_cpu_t) :
  try_handle_interrupt cpu = deliver cpu (interrupt_to_take cpu).
Proof.
  destruct priority_not_none as [HM HS].
  unfold try_handle_interrupt, interrupt_to_take.
  fold (effective_mip cpu).
  change (rv_csr_mstatus_mie cpu)
    with (is_set (mstatus (csr cpu)) (Z.shiftl 1 3)).
  change (rv_csr_sstatus_sie cpu)
    with (is_set (mstatus (csr cpu)) (Z.shiftl 1 1)).
  rewrite !is_set_bit by lia.
  fold (can_trap_to_M cpu) (can_trap_to_S cpu).
  set (mip := effective_mip cpu).
  set (m_set := Z.land (Z.land mip _) (not32 _)).
  set (s_set := Z.land (Z.land mip _) rv_csr_si_mask).
  change (trap_if_set cpu s_set rv_exc_supervisor_external_interrupt s_trap _)
    with (trap_chain cpu s_set s_priority s_trap (Some cpu)).
  set (s_part := if can_trap_to_S cpu then _ else _).
  change (trap_if_set cpu m_set rv_exc_machine_external_interrupt m_trap _)
    with (trap_chain cpu m_set m_priority m_trap s_part).
  subst s_part. rewrite !trap_chain_find by assumption.
  destruct (Z.eqb_spec mip 0) as [E0 | _].
  - subst m_set s_set. rewrite E0, !Z.land_0_l, !highest_priority_empty.
    now destruct (can_trap_to_M cpu), (can_trap_to_S cpu).
  - destruct (can_trap_to_M cpu), (can_trap_to_S cpu),
      (highest_priority m_priority m_set),
      (highest_priority s_priority s_set); reflexivity.
Qed.

(** C5.  [try_handle_interrupt] works on the effective [mip]; it enters
    M-mode, on the first of MEI, MSI, MTI, SEI, SSI, STI found in
    [mip & mie & ~mideleg], when the hart is in M-mode with [mstatus.MIE]
    or below M-mode; when it takes no such trap it enters S-mode, on the
    first of SEI, SSI, STI found in [mip & mie & S-mask], when the hart is
    in S-mode with [sstatus.SIE] or below S-mode; otherwise the hart is
    unchanged.  At most one trap is taken. *)
Theorem C5_try_handle_interrupt_priority (cpu : rv_cpu_t) :
  try_handle_interrupt cpu = deliver cpu (interrupt_to_take cpu).
Proof. exact (try_handle_interrupt_deliver cpu). Qed.

(** * Timer bits across a step *)

Lemma timer_bits_agree_view (cpu cpu' : rv_cpu_t) :
  timer_view cpu' = timer_view cpu ->
  timer_bits_agree cpu -> timer_bits_agree cpu'.
Proof.
  unfold timer_view, timer_bits_agree. intros E H.
  injection E as -> -> -> -> ->. exact H.
Qed.

Lemma raise_timer_interrupts_agree (cpu : rv_cpu_t) :
  timer_bits_agree (raise_timer_interrupts cpu).
Proof.
  unfold raise_timer_interrupts, timer_bits_agree.
  destruct_hart cpu. fold (u32 cycle0).
  destruct (scyclecmp0 <=? u32 cycle0) eqn:Es; hart_cbv;
    destruct (mtimecmp0 <=? mtime0) eqn:Em; hart_cbv;
    fold (u32 cycle0); rewrite ?Es, ?Em; split; bits.
Qed.

Lemma account_agree (now : Z) (cpu : rv_cpu_t) (exception_raised : bool) :
  timer_bits_agree (account now cpu exception_raised).
Proof. unfold account. apply raise_timer_interrupts_agree. Qed.

Ltac split_ifs H :=
  repeat match type of H with
  | context [if ?b then _ else _] => destruct b
  end.

Lemma m_trap_timer_view (cpu cpu' : rv_cpu_t) (ex : rv_exc_t) :
  m_trap cpu ex = Some cpu' -> timer_view cpu' = timer_view cpu.
Proof.
  unfold m_trap, timer_view. intros H.
  destruct (bool_decide (ex = rv_exc_none)); [discriminate|].
  destruct_hart cpu.
  destruct (is_set mstatus0 rv_csr_mstatus_mie_mask); hart_cbv;
    split_ifs H; try discriminate; injection H as <-; reflexivity.
Qed.

Lemma s_trap_timer_view (cpu cpu' : rv_cpu_t) (ex : rv_exc_t) :
  s_trap cpu ex = Some cpu' -> timer_view cpu' = timer_view cpu.
Proof.
  unfold s_trap, timer_view. intros H.
  destruct (bool_decide (ex = rv_exc_none)); [discriminate|].
  destruct_hart cpu.
  destruct (is_set mstatus0 rv_csr_sstatus_sie_mask); hart_cbv;
    split_ifs H; try discriminate; injection H as <-; reflexivity.
Qed.

Lemma handle_exception_timer_view (cpu cpu' : rv_cpu_t) (ex : rv_exc_t) :
  handle_exception cpu ex = Some cpu' -> timer_view cpu' = timer_view cpu.
Proof.
  unfold handle_exception. intros H.
  destruct (is_set _ _ && negb _) in H;
    [eapply s_trap_timer_view | eapply m_trap_timer_view]; exact H.
Qed.

Lemma try_handle_interrupt_timer_view (cpu cpu' : rv_cpu_t) :
  try_handle_interrupt cpu = Some cpu' -> timer_view cpu' = timer_view cpu.
Proof.
  rewrite try_handle_interrupt_deliver.
  destruct (interrupt_to_take cpu) as [[[] i]|]; cbn [deliver]; intros H.
  - eapply m_trap_timer_view; exact H.
  - eapply s_trap_timer_view; exact H.
  - now injection H as <-.
Qed.

(** C7.  At the end of every [rv_cpu_step], [mip.MTIP] is set iff
    [mtime >= mtimecmp] and [mip.STIP] is set iff the low 32 bits of
    [cycle] are [>= scyclecmp]; a bit whose condition is false is clear. *)
Theorem C7_timer_bits_after_step (now : Z) (cpu : rv_cpu_t) (m : physmem)
    (cpu' : rv_cpu_t) (m' : physmem) :
  rv_cpu_step now cpu m = Some (cpu', m') -> timer_bits_agree cpu'.
Proof.
  unfold rv_cpu_step. intros H.
  destruct (if negb (stdby cpu) then execute cpu m else _)
    as [[[ex cpu1] m1]|]; [|discriminate].
  set (raised := negb (bool_decide (ex = rv_exc_none))) in H.
  pose proof (account_agree now cpu1 raised) as Hacc.
  set (cpu2 := account now cpu1 raised) in *.
  destruct (if raised then handle_exception cpu2 ex
            else try_handle_interrupt cpu2) as [cpu3|] eqn:Htrap;
    [|discriminate].
  assert (timer_view cpu3 = timer_view cpu2) as Hview.
  { destruct raised;
      [eapply handle_exception_timer_view
      |eapply try_handle_interrupt_timer_view]; exact Htrap. }
  injection H as <- _.
  eapply timer_bits_agree_view; [|exact Hacc].
  rewrite <- Hview. destruct_hart cpu3. now destruct (negb stdby0).
Qed.

(** * A step aborts only on an invalid trap-vector mode *)

Lemma m_trap_returns (cpu : rv_cpu_t) (ex : rv_exc_t) :
  ex <> rv_exc_none -> tvec_modes_valid cpu -> is_Some (m_trap cpu ex).
Proof.
  intros Hex [Hm _]. unfold m_trap.
  rewrite bool_decide_false by assumption.
  destruct_hart cpu.
  destruct (is_set mstatus0 rv_csr_mstatus_mie_mask); hart_cbv;
    rewrite land_mode_mask; destruct Hm as [-> | ->]; simpl Z.eqb;
    cbv iota; destruct (is_set _ _); eexists; reflexivity.
Qed.

Lemma s_trap_returns (cpu : rv_cpu_t) (ex : rv_exc_t) :
  ex <> rv_exc_none -> tvec_modes_valid cpu -> is_Some (s_trap cpu ex).
Proof.
  intros Hex [_ Hs]. unfold s_trap.
  rewrite bool_decide_false by assumption.
  destruct_hart cpu.
  destruct (is_set mstatus0 rv_csr_sstatus_sie_mask); hart_cbv;
    rewrite land_mode_mask; destruct Hs as [-> | ->]; simpl Z.eqb;
    cbv iota; destruct (is_set _ _); eexists; reflexivity.
Qed.

Lemma highest_priority_In (order : list rv_exc_t) (active : Z)
    (i : rv_exc_t) :
  highest_priority order active = Some i -> In i order.
Proof. intros H. apply List.find_some in H. tauto. Qed.

Lemma deliver_returns (cpu : rv_cpu_t) (t : trap_target) (i : rv_exc_t) :
  i <> rv_exc_none -> tvec_modes_valid cpu ->
  is_Some (deliver cpu (Some (t, i))).
Proof.
  intros Hi Hv. destruct t; cbn [deliver];
    [apply m_trap_returns | apply s_trap_returns]; assumption.
Qed.

Lemma interrupt_to_take_not_none (cpu : rv_cpu_t) (t : trap_target)
    (i : rv_exc_t) :
  interrupt_to_take cpu = Some (t, i) -> i <> rv_exc_none.
Proof.
  destruct priority_not_none as [HM HS].
  pose proof (proj1 (List.Forall_forall _ _) HM) as HM'.
  pose proof (proj1 (List.Forall_forall _ _) HS) as HS'.
  unfold interrupt_to_take. cbv zeta. intros H.
  destruct (if can_trap_to_M cpu then _ else None) as [j|] eqn:Em.
  - injection H as _ <-. destruct (can_trap_to_M cpu); [|discriminate].
    apply HM'. eapply highest_priority_In. exact Em.
  - destruct (if can_trap_to_S cpu then _ else None) as [j|] eqn:Es;
      [|discriminate].
    injection H as _ <-. destruct (can_trap_to_S cpu); [|discriminate].
    apply HS'. eapply highest_priority_In. exact Es.
Qed.

Lemma try_handle_interrupt_returns (cpu : rv_cpu_t) :
  tvec_modes_valid cpu -> is_Some (try_handle_interrupt cpu).
Proof.
  intros Hv. rewrite try_handle_interrupt_deliver.
  destruct (interrupt_to_take cpu) as [[t i]|] eqn:E.
  - apply deliver_returns; [|assumption].
    eapply interrupt_to_take_not_none. exact E.
  - cbn [deliver]. exists cpu. reflexivity.
Qed.

Lemma account_hmp_tvec (cpu : rv_cpu_t) (i : nat) :
  tvec_view (account_hmp cpu i) = tvec_view cpu.
Proof.
  unfold account_hmp. cbv zeta.
  destruct (is_set _ _); [reflexivity|].
  destruct (default hpm_no_event _); try reflexivity;
    match goal with |- context [if ?b then _ else _] => destruct b end;
    reflexivity.
Qed.

Lemma fold_account_hmp_tvec (l : list nat) (cpu : rv_cpu_t) :
  tvec_view (fold_left account_hmp l cpu) = tvec_view cpu.
Proof.
  revert cpu. induction l as [|i l IH]; intros cpu; [reflexivity|].
  cbn [fold_left]. rewrite IH. apply account_hmp_tvec.
Qed.

Lemma raise_timer_interrupts_tvec (cpu : rv_cpu_t) :
  tvec_view (raise_timer_interrupts cpu) = tvec_view cpu.
Proof.
  unfold raise_timer_interrupts. destruct_hart cpu.
  destruct (scyclecmp0 <=? _); hart_cbv;
    destruct (mtimecmp0 <=? mtime0); reflexivity.
Qed.

Lemma account_tvec (now : Z) (cpu : rv_cpu_t) (raised : bool) :
  tvec_view (account now cpu raised) = tvec_view cpu.
Proof.
  unfold account. cbv zeta.
  rewrite raise_timer_interrupts_tvec, fold_account_hmp_tvec.
  destruct cpu as [? ? ? c ? ? ? ?]; destruct c.
  destruct (negb (is_set _ 1)), (_ && _ && _); reflexivity.
Qed.

Lemma tvec_modes_valid_view (cpu cpu' : rv_cpu_t) :
  tvec_view cpu' = tvec_view cpu ->
  tvec_modes_valid cpu -> tvec_modes_valid cpu'.
Proof.
  unfold tvec_view, tvec_modes_valid. intros [= -> ->] H. exact H.
Qed.

(** Once the instruction has run, the step completes on every hart whose
    trap vectors hold a valid mode. *)
Lemma rv_cpu_step_returns (now : Z) (cpu : rv_cpu_t) (m : physmem)
    (ex : rv_exc_t) (cpu1 : rv_cpu_t) (m1 : physmem) :
  (if negb (stdby cpu) then execute cpu m else Some (rv_exc_none, cpu, m))
    = Some (ex, cpu1, m1) ->
  tvec_modes_valid cpu1 ->
  exists cpu', rv_cpu_step now cpu m = Some (cpu', m1).
Proof.
  intros Hexec Hv. unfold rv_cpu_step. rewrite Hexec.
  apply (tvec_modes_valid_view _ _
           (account_tvec now cpu1 (negb (bool_decide (ex = rv_exc_none)))))
    in Hv.
  generalize dependent (account now cpu1
                          (negb (bool_decide (ex = rv_exc_none)))).
  intros cpu2 Hv.
  assert (is_Some (if negb (bool_decide (ex = rv_exc_none))
                   then handle_exception cpu2 ex
                   else try_handle_interrupt cpu2)) as [cpu3 ->].
  { destruct (decide (ex = rv_exc_none)) as [-> | Hne].
    - rewrite bool_decide_true by reflexivity.
      now apply try_handle_interrupt_returns.
    - rewrite bool_decide_false by assumption. cbn [negb].
      unfold handle_exception.
      destruct (_ && _); [now apply s_trap_returns|now apply m_trap_returns]. }
  eexists. reflexivity.
Qed.

(** * Reservations and interrupt lines *)

Lemma ALIGN_DOWN_4 (phys : Z) : ALIGN_DOWN phys 4 = 4 * (phys / 4).
Proof.
  unfold ALIGN_DOWN.
  replace (4 * (phys / 4)) with (Z.shiftl (Z.shiftr phys 2) 2)
    by (rewrite Z.shiftr_div_pow2, Z.shiftl_mul_pow2 by lia;
        change (2 ^ 2) with 4; lia).
  apply Z.bits_inj'; intros i Hi.
  rewrite Z.land_spec, Z.lnot_spec, Z.shiftl_spec by lia.
  change (4 - 1) with (Z.ones 2). rewrite Z.testbit_ones_nonneg by lia.
  destruct (Z.ltb_spec i 2) as [Hlt|Hge]; simpl.
  - rewrite (Z.testbit_neg_r _ (i - 2)) by lia. apply andb_false_r.
  - rewrite Z.shiftr_spec by lia. replace (i - 2 + 2) with i by lia.
    apply andb_true_r.
Qed.


Lemma exception_mask_line (no : Z) :
  RV_EXCEPTION_MASK (interrupt_line no) = 2 ^ interrupt_line no.
Proof.
  unfold interrupt_line.
  destruct (Z.eqb_spec no 3) as [->|]; [reflexivity|].
  destruct (Z.eqb_spec no 1) as [->|]; [reflexivity|].
  destruct (Z.eqb_spec no 11) as [->|]; reflexivity.
Qed.

Lemma coerced_interrupt_no (no : Z) :
  (if negb (no =? RV_INTERRUPT_NO
                    (rv_exc_val rv_exc_machine_software_interrupt))
      && negb (no =? RV_INTERRUPT_NO
                       (rv_exc_val rv_exc_supervisor_software_interrupt))
      && negb (no =? RV_INTERRUPT_NO
                       (rv_exc_val rv_exc_machine_external_interrupt))
   then RV_INTERRUPT_NO (rv_exc_val rv_exc_machine_external_interrupt)
   else no) = interrupt_line no.
Proof.
  unfold interrupt_line.
  change (RV_INTERRUPT_NO (rv_exc_val rv_exc_machine_software_interrupt))
    with 3.
  change (RV_INTERRUPT_NO (rv_exc_val rv_exc_supervisor_software_interrupt))
    with 1.
  change (RV_INTERRUPT_NO (rv_exc_val rv_exc_machine_external_interrupt))
    with 11.
  now destruct (no =? 3), (no =? 1), (no =? 11).
Qed.

(** C9.  [rv_interrupt_up] with the number of the supervisor external
    interrupt sets [external_SEIP] and changes nothing else, so [csr.mip]
    keeps its software SEIP bit; with any other number it sets one bit of
    [csr.mip], the bit of MSI, SSI or MEI for their numbers and the bit of
    MEI for every other number.  [rv_interrupt_down] clears
    [external_SEIP], or that same bit of [csr.mip]. *)
Theorem C9_interrupt_lines (cpu : rv_cpu_t) (no : Z) :
  rv_interrupt_up cpu no =
    (if no =? sei_no then upd_csr (csr_set_external_SEIP true) cpu
     else upd_csr (csr_set_mip
            (Z.lor (mip (csr cpu)) (2 ^ interrupt_line no))) cpu)
  /\ rv_interrupt_down cpu no =
    (if no =? sei_no then upd_csr (csr_set_external_SEIP false) cpu
     else upd_csr (csr_set_mip
            (Z.land (mip (csr cpu)) (not32 (2 ^ interrupt_line no)))) cpu).
Proof.
  unfold rv_interrupt_up, rv_interrupt_down. cbv zeta.
  change (RV_INTERRUPT_NO (rv_exc_val rv_exc_supervisor_external_interrupt))
    with sei_no.
  rewrite coerced_interrupt_no, exception_mask_line. split; reflexivity.
Qed.

(** * Address translation *)

Ltac break_in H :=
  repeat match type of H with
  | context [match ?x with pair _ _ => _ end] => destruct x eqn:?
  | context [if ?b then _ else _] => destruct b eqn:?
  | context [match ?x with inl _ => _ | inr _ => _ end] => destruct x eqn:?
  | context [match ?x with Some _ => _ | None => _ end] => destruct x eqn:?
  end.

Lemma rv_convert_addr_cases (cpu : rv_cpu_t) (virt : Z)
    (wr fetch noisy : bool) (m : physmem)
    (ex : rv_exc_t) (phys : option Z) (m' : physmem) :
  rv_convert_addr cpu virt wr fetch noisy m = Some (ex, phys, m') ->
  (ex = rv_exc_none /\ exists p, phys = Some p)
  \/ (ex = page_fault_exception wr fetch /\ phys = None).
Proof.
  unfold rv_convert_addr. cbv zeta. intros H.
  break_in H; try discriminate; injection H as <- <- <-; eauto.
Qed.

Lemma testbit_high (x n i : Z) :
  0 <= x < 2 ^ n -> 0 <= n <= i -> Z.testbit x i = false.
Proof.
  intros Hx Hi. rewrite <- (Z.mod_small x (2 ^ n)) by assumption.
  apply Z.mod_pow2_bits_high. assumption.
Qed.

Lemma testbit_shiftl (a n i : Z) :
  0 <= n -> Z.testbit (Z.shiftl a n) i = Z.testbit a (i - n).
Proof.
  intros Hn. destruct (Z.neg_nonneg_cases i) as [Hneg|Hpos].
  - now rewrite !Z.testbit_neg_r by lia.
  - now apply Z.shiftl_spec.
Qed.

Lemma pte_from_uint_ppn_range (val : Z) :
  0 <= pte_ppn (pte_from_uint val) < 2 ^ 22.
Proof.
  cbn [pte_from_uint pte_ppn]. change 0x3FFFFF with (Z.ones 22).
  rewrite Z.land_ones by lia. apply Z.mod_pos_bound. lia.
Qed.

(** The page offset comes from the virtual address. *)
Lemma make_phys_offset (virt : Z) (pte : sv32_pte_t) (megapage : bool) :
  make_phys_from_ppn virt pte megapage mod 2 ^ 12 = virt mod 2 ^ 12.
Proof.
  rewrite <- !Z.land_ones by lia. unfold make_phys_from_ppn. cbv zeta.
  apply Z.bits_inj'; intros i Hi.
  rewrite !Z.land_spec, Z.testbit_ones_nonneg by lia.
  destruct (Z.ltb_spec i 12) as [Hlt|Hge]; [|now rewrite !andb_false_r].
  rewrite !Z.lor_spec, Z.land_spec, Z.shiftl_spec_low by lia.
  change 0x00000FFF with (Z.ones 12).
  rewrite Z.testbit_ones_nonneg by lia.
  replace (Z.testbit (if megapage then _ else _) i) with false.
  - destruct (Z.ltb_spec i 12); [|lia]. now rewrite !andb_true_r.
  - destruct megapage.
    + change 0x003FF000 with (Z.shiftl (Z.ones 10) 12).
      now rewrite Z.land_spec, Z.shiftl_spec_low, andb_false_r by lia.
    + now rewrite Z.shiftl_spec_low by lia.
Qed.

(** Megapage: the low 22 bits come from the virtual address and PPN1 from
    the entry. *)
Lemma make_phys_megapage_low (virt : Z) (pte : sv32_pte_t) :
  make_phys_from_ppn virt pte true mod 2 ^ 22 = virt mod 2 ^ 22.
Proof.
  rewrite <- !Z.land_ones by lia. unfold make_phys_from_ppn, pte_ppn1.
  cbv zeta iota.
  apply Z.bits_inj'; intros i Hi.
  rewrite !Z.land_spec, Z.testbit_ones_nonneg by lia.
  destruct (Z.ltb_spec i 22) as [Hlt|Hge]; [|now rewrite !andb_false_r].
  rewrite !Z.lor_spec, !Z.land_spec, !andb_true_r.
  change 0x003FF000 with (Z.shiftl (Z.ones 10) 12).
  change 0x00000FFF with (Z.ones 12).
  change 0x3FFC00 with (Z.shiftl (Z.ones 12) 10).
  rewrite !testbit_shiftl, Z.land_spec, testbit_shiftl, !Z.testbit_ones by lia.
  replace (i - 12 - 10) with (i - 22) by lia.
  destruct (Z.leb_spec 0 (i - 22)); [lia|].
  destruct (Z.leb_spec 0 (i - 12)), (Z.leb_spec 0 i),
    (Z.ltb_spec (i - 12) 10), (Z.ltb_spec i 12); try lia;
    rewrite ?andb_false_r, ?andb_true_r, ?orb_false_r; reflexivity.
Qed.

Lemma make_phys_megapage_ppn1 (virt : Z) (pte : sv32_pte_t) :
  0 <= pte_ppn pte < 2 ^ 22 ->
  make_phys_from_ppn virt pte true / 2 ^ 22 = pte_ppn pte / 2 ^ 10.
Proof.
  intros Hr. rewrite <- !Z.shiftr_div_pow2 by lia.
  unfold make_phys_from_ppn, pte_ppn1. cbv zeta iota.
  apply Z.bits_inj'; intros i Hi.
  rewrite !Z.shiftr_spec, !Z.lor_spec, !Z.land_spec by lia.
  change 0x003FF000 with (Z.shiftl (Z.ones 10) 12).
  change 0x00000FFF with (Z.ones 12).
  change 0x3FFC00 with (Z.shiftl (Z.ones 12) 10).
  rewrite !testbit_shiftl, Z.land_spec, testbit_shiftl, !Z.testbit_ones by lia.
  replace (i + 22 - 12) with (i + 10) by lia.
  replace (i + 10 - 10) with i by lia.
  destruct (Z.ltb_spec (i + 10) 10), (Z.ltb_spec (i + 22) 12); try lia.
  rewrite !andb_false_r, !orb_false_r.
  destruct (Z.leb_spec 0 i); [|lia].
  destruct (Z.ltb_spec i 12) as [Hlt|Hge]; simpl.
  - apply andb_true_r.
  - rewrite (testbit_high (pte_ppn pte) 22) by lia. reflexivity.
Qed.

(** 4 KiB page: the whole page number comes from the entry. *)
Lemma make_phys_page_ppn (virt : Z) (pte : sv32_pte_t) :
  0 <= pte_ppn pte < 2 ^ 22 ->
  make_phys_from_ppn virt pte false / 2 ^ 12 = pte_ppn pte.
Proof.
  intros Hr. rewrite <- !Z.shiftr_div_pow2 by lia.
  unfold make_phys_from_ppn, pte_ppn1, pte_ppn0. cbv zeta iota.
  apply Z.bits_inj'; intros i Hi.
  rewrite !Z.shiftr_spec, !Z.lor_spec, !Z.land_spec by lia.
  change 0x00000FFF with (Z.ones 12).
  change 0x3FFC00 with (Z.shiftl (Z.ones 12) 10).
  change 0x0003FF with (Z.ones 10).
  rewrite !testbit_shiftl, !Z.land_spec, testbit_shiftl, !Z.testbit_ones
    by lia.
  replace (i + 12 - 12) with i by lia.
  destruct (Z.ltb_spec (i + 12) 12); [lia|].
  rewrite !andb_false_r, !orb_false_r.
  destruct (Z.leb_spec 0 i); [|lia].
  destruct (Z.leb_spec 0 (i - 10)), (Z.ltb_spec (i - 10) 12),
    (Z.ltb_spec i 10); try lia; simpl;
    rewrite ?andb_false_r, ?andb_true_r, ?orb_false_r; try reflexivity.
  rewrite (testbit_high (pte_ppn pte) 22) by lia. reflexivity.
Qed.

Lemma rv_convert_addr_inactive (cpu : rv_cpu_t) (virt : Z)
    (wr fetch noisy : bool) (m : physmem) :
  wr && fetch = false ->
  satp_active cpu = false ->
  rv_convert_addr cpu virt wr fetch noisy m = Some (rv_exc_none, Some virt, m).
Proof. intros Hwf Hoff. unfold rv_convert_addr. now rewrite Hwf, Hoff. Qed.

Lemma rv_convert_addr_walk (cpu : rv_cpu_t) (virt : Z)
    (wr fetch noisy : bool) (m : physmem) (phys : Z) (m' : physmem) :
  satp_active cpu = true ->
  rv_convert_addr cpu virt wr fetch noisy m
    = Some (rv_exc_none, Some phys, m') ->
  let pte1 := fst (sv32_pte_level1 cpu virt noisy m) in
  exists pte,
    phys = make_phys_from_ppn virt pte (is_pte_leaf pte1)
    /\ pte_ppn pte = (if is_pte_leaf pte1 then pte_ppn pte1
                      else pte_ppn (sv32_pte_level0 cpu virt noisy m)).
Proof.
  intros Hon. unfold rv_convert_addr, sv32_pte_level0, sv32_pte_level1.
  cbv zeta. rewrite Hon. cbn [negb]. intros H.
  destruct (wr && fetch); [discriminate|].
  destruct (physmem_read32 _ _ noisy m) as [pte_val m1]. cbn [fst].
  destruct (negb (is_pte_valid (pte_from_uint pte_val))); [discriminate|].
  destruct (is_pte_leaf (pte_from_uint pte_val)).
  - destruct (negb (pte_ppn0 (pte_from_uint pte_val) =? 0));
      [discriminate|].
    destruct (negb (is_access_allowed _ _ _ _)); [discriminate|].
    injection H as <- _. eexists. split; reflexivity.
  - destruct (physmem_read32 _ _ noisy m1) as [pte_val0 m2]. cbn [fst].
    destruct (negb (is_pte_valid (pte_from_uint pte_val0)));
      [discriminate|].
    destruct (negb (is_pte_leaf (pte_from_uint pte_val0)));
      [discriminate|].
    destruct (negb (is_access_allowed _ _ _ _)); [discriminate|].
    injection H as <- _. eexists. split; reflexivity.
Qed.

(** C4.  When [rv_convert_addr] returns no fault, the low 12 bits of the
    physical address are those of the virtual address; when the walk ran
    and its first-level entry is a leaf (a megapage), the low 22 bits are
    those of the virtual address and PPN1 is that of the entry; when the
    first-level entry is a pointer, the whole page number is that of the
    second-level entry. *)
Theorem C4_walk_preserves_offset (cpu : rv_cpu_t) (virt : Z)
    (wr fetch noisy : bool) (m : physmem) (phys : Z) (m' : physmem) :
  rv_convert_addr cpu virt wr fetch noisy m
    = Some (rv_exc_none, Some phys, m') ->
  phys mod 2 ^ 12 = virt mod 2 ^ 12
  /\ (satp_active cpu = true ->
      let pte1 := fst (sv32_pte_level1 cpu virt noisy m) in
      if is_pte_leaf pte1
      then phys mod 2 ^ 22 = virt mod 2 ^ 22
           /\ phys / 2 ^ 22 = pte_ppn pte1 / 2 ^ 10
      else phys / 2 ^ 12 = pte_ppn (sv32_pte_level0 cpu virt noisy m)).
Proof.
  intros H. destruct (satp_active cpu) eqn:Hon.
  - pose proof (rv_convert_addr_walk _ _ _ _ _ _ _ _ Hon H) as Hw.
    cbv zeta in Hw. destruct Hw as (pte & -> & Hppn).
    split; [apply make_phys_offset|]. intros _. cbv zeta.
    assert (0 <= pte_ppn pte < 2 ^ 22) as Hrange.
    { rewrite Hppn. unfold sv32_pte_level0, sv32_pte_level1.
      destruct (physmem_read32 _ _ noisy m) as [v1 m1]. cbn [fst].
      destruct (is_pte_leaf (pte_from_uint v1));
        apply pte_from_uint_ppn_range. }
    destruct (is_pte_leaf (fst (sv32_pte_level1 cpu virt noisy m))).
    + rewrite <- Hppn. split;
        [apply make_phys_megapage_low
        |apply make_phys_megapage_ppn1; exact Hrange].
    + rewrite <- Hppn. apply make_phys_page_ppn; exact Hrange.
  - split; [|discriminate].
    unfold rv_convert_addr in H. rewrite Hon in H. cbn [negb] in H.
    destruct (wr && fetch); [discriminate|]. now injection H as <- _.
Qed.

Lemma mpp_value (cpu : rv_cpu_t) :
  rv_csr_mstatus_mpp cpu = (mstatus (csr cpu) / 2 ^ 11) mod 4.
Proof.
  unfold rv_csr_mstatus_mpp, rv_csr_mstatus_mpp_pos, rv_csr_mstatus_mpp_mask.
  rewrite <- Z.shiftr_div_pow2 by lia.
  change 4 with (2 ^ 2). rewrite <- Z.land_ones by lia.
  apply Z.bits_inj'; intros i Hi.
  rewrite Z.shiftr_spec, !Z.land_spec, Z.shiftr_spec, testbit_shiftl by lia.
  replace (i + 11 - 11) with i by lia.
  change 3 with (Z.ones 2). reflexivity.
Qed.

(** [rv_convert_addr] over the reads of the walk. *)
Lemma rv_convert_addr_reads (cpu : rv_cpu_t) (virt : Z)
    (wr fetch noisy : bool) (m : physmem) :
  wr && fetch = false ->
  satp_active cpu = true ->
  rv_convert_addr cpu virt wr fetch noisy m =
    match sv32_walk_reads cpu virt noisy m with
    | (Some (w, a), m1) =>
        if is_access_allowed cpu (pte_from_uint w) wr fetch
        then Some (rv_exc_none,
                   Some (make_phys_from_ppn virt
                           (pte_touched (pte_from_uint w) wr)
                           (is_pte_leaf
                              (fst (sv32_pte_level1 cpu virt noisy m)))),
                   if noisy
                   then snd (physmem_write32 (mhartid (csr cpu)) a
                               (uint_from_pte
                                  (pte_touched (pte_from_uint w) wr))
                               true m1)
                   else m1)
        else Some (page_fault_exception wr fetch, None, m1)
    | (None, m1) => Some (page_fault_exception wr fetch, None, m1)
    end.
Proof.
  intros Hwf Hon.
  unfold rv_convert_addr, sv32_walk_reads, sv32_pte_level1, pte_touched.
  cbv zeta. rewrite Hwf, Hon. cbn [negb].
  destruct (physmem_read32 _ _ noisy m) as [v1 m1]. cbn [fst].
  destruct (is_pte_valid (pte_from_uint v1)); cbn [negb]; [|reflexivity].
  destruct (is_pte_leaf (pte_from_uint v1)).
  - destruct (pte_ppn0 (pte_from_uint v1) =? 0); cbn [negb]; [|reflexivity].
    destruct (is_access_allowed cpu (pte_from_uint v1) wr fetch);
      reflexivity.
  - destruct (physmem_read32 _ _ noisy m1) as [v0 m0].
    destruct (is_pte_valid (pte_from_uint v0)); cbn [negb andb];
      [|reflexivity].
    destruct (is_pte_leaf (pte_from_uint v0)); cbn [negb]; [|reflexivity].
    destruct (is_access_allowed cpu (pte_from_uint v0) wr fetch);
      reflexivity.
Qed.

Lemma make_phys_touched (virt : Z) (pte : sv32_pte_t) (wr megapage : bool) :
  make_phys_from_ppn virt (pte_touched pte wr) megapage
  = make_phys_from_ppn virt pte megapage.
Proof. reflexivity. Qed.

Lemma rv_convert_addr_active (cpu : rv_cpu_t) (virt : Z)
    (wr fetch noisy : bool) (m : physmem) :
  wr && fetch = false ->
  satp_active cpu = true ->
  rv_convert_addr cpu virt wr fetch noisy m
  = sv32_walk cpu virt wr fetch noisy m.
Proof.
  intros Hwf Hon. rewrite rv_convert_addr_reads by assumption.
  unfold sv32_walk.
  destruct (sv32_walk_reads cpu virt noisy m) as [[[w a]|] m1];
    [|reflexivity].
  now rewrite make_phys_touched.
Qed.

(** C2 (as amended).  The effective privilege of the Sv32 walk is
    [mstatus.MPP] whenever [mstatus.MPRV] is set, for fetches as for loads
    and stores, and [priv_mode] otherwise.  Translation is performed iff
    [satp] is not bare and this privilege is at most S-mode: then the
    outcome, physical address or page fault, and the memory are those of
    the walk over the page table; otherwise the physical address is the
    virtual address, with no fault and no memory access. *)
Theorem C2_translation_gate (cpu : rv_cpu_t) (virt : Z)
    (wr fetch noisy : bool) (m : physmem) :
  wr && fetch = false ->
  sv32_effective_priv cpu
    = (if Z.testbit (mstatus (csr cpu)) 17
       then (mstatus (csr cpu) / 2 ^ 11) mod 4
       else priv_mode cpu)
  /\ satp_active cpu
     = Z.testbit (satp (csr cpu)) 31 && (sv32_effective_priv cpu <=? rv_smode)
  /\ rv_convert_addr cpu virt wr fetch noisy m
     = (if satp_active cpu
        then sv32_walk cpu virt wr fetch noisy m
        else Some (rv_exc_none, Some virt, m)).
Proof.
  intros Hwf. split; [|split].
  - unfold sv32_effective_priv, rv_csr_mstatus_mprv.
    rewrite (is_set_bit _ 17), mpp_value by lia. reflexivity.
  - unfold satp_active, rv_csr_satp_is_bare.
    rewrite (is_set_bit _ 31), negb_involutive by lia. reflexivity.
  - destruct (satp_active cpu) eqn:Hon.
    + now apply rv_convert_addr_active.
    + now apply rv_convert_addr_inactive.
Qed.

(** * Loads and stores *)

Lemma not_is_Some_None {A : Type} (o : option A) :
  bool_decide (is_Some o) = false -> o = None.
Proof.
  intros H. apply bool_decide_eq_false in H.
  destruct o; [|reflexivity]. exfalso. apply H. eauto.
Qed.

Lemma page_fault_not_none (wr fetch : bool) :
  bool_decide (page_fault_exception wr fetch = rv_exc_none) = false.
Proof. now destruct wr, fetch. Qed.

Lemma page_fault_not_misaligned (a : wide_access) (fetch : bool) :
  page_fault_exception (is_store a) (access_fetch a fetch)
  <> misaligned_code a fetch.
Proof. destruct a, fetch; discriminate. Qed.

Lemma misaligned_not_none (a : wide_access) (fetch : bool) :
  misaligned_code a fetch <> rv_exc_none.
Proof. destruct a, fetch; discriminate. Qed.

(** C3.  For a 16- or 32-bit load or store that does not reach the timer
    registers: a page fault of the translation is the code returned,
    whatever the alignment of the address; the misalignment code (load,
    instruction or store/AMO, by the kind of access) is returned only when
    the translation succeeded and the address is not aligned for the
    width, and it is returned then. *)
Theorem C3_page_fault_before_alignment (a : wide_access) (cpu : rv_cpu_t)
    (virt value : Z) (fetch noisy : bool) (m : physmem) :
  hits_timer a cpu virt value = false ->
  let translated :=
    translation_code cpu virt (is_store a) (access_fetch a fetch) noisy m in
  let returned := access_code a cpu virt value fetch noisy m in
  (forall ex, translated = Some ex -> ex <> rv_exc_none ->
     ex = page_fault_exception (is_store a) (access_fetch a fetch)
     /\ returned = Some ex)
  /\ (returned = Some (misaligned_code a fetch) ->
      translated = Some rv_exc_none
      /\ IS_ALIGNED virt (access_bytes a) = false)
  /\ (translated = Some rv_exc_none ->
      IS_ALIGNED virt (access_bytes a) = false ->
      returned = Some (misaligned_code a fetch)).
Proof.
  intros Hmiss. cbv zeta.
  pose proof (page_fault_not_misaligned a fetch) as Hpf.
  pose proof (misaligned_not_none a fetch) as Hmis.
  unfold translation_code, access_code.
  destruct a; apply not_is_Some_None in Hmiss;
    cbn [is_store access_fetch access_bytes] in *;
    unfold rv_read_mem16, rv_read_mem32, rv_write_mem16, rv_write_mem32;
    rewrite Hmiss;
    (destruct (rv_convert_addr cpu virt _ _ noisy m)
       as [[[ex phys] m1]|] eqn:Hconv;
     [|cbn [option_map]; repeat split; intros; discriminate]);
    apply rv_convert_addr_cases in Hconv;
    destruct Hconv as [[-> [p ->]] | [-> ->]];
    rewrite ?page_fault_not_none, ?(bool_decide_true (_ = _)) by reflexivity;
    cbn [option_map fst negb default];
    (split; [|split]).
  all: try (intros ex0 [= <-] Hne; first [congruence | now split]).
  all: try (intros Htr; exfalso; destruct fetch; discriminate).
  all: try (intros _ ->; reflexivity).
  all: intros Hret; try (exfalso; congruence).
  all: split; [reflexivity|].
  all: destruct (IS_ALIGNED virt _); [|reflexivity].
  all: cbn [negb] in Hret.
  all: repeat match type of Hret with
       | context [match ?x with pair _ _ => _ end] => destruct x
       | context [if ?b then _ else _] => destruct b
       end.
  all: cbn [option_map fst] in Hret; congruence.
Qed.

Lemma rv_write_mem_codes (w : store_width) (cpu : rv_cpu_t) (virt value : Z)
    (noisy : bool) (m : physmem) (ex : rv_exc_t) (cpu' : rv_cpu_t)
    (m' : physmem) :
  rv_write_mem w cpu virt value noisy m = Some (ex, cpu', m') ->
  ex = rv_exc_none \/ ex = rv_exc_store_amo_page_fault
  \/ ex = rv_exc_store_amo_address_misaligned.
Proof.
  intros H.
  destruct w; cbn [rv_write_mem] in H;
    unfold rv_write_mem8, rv_write_mem16, rv_write_mem32 in H;
    (destruct (try_write_memory_mapped_regs cpu virt _ _);
     [injection H as <- _ _; now left|]);
    (destruct (rv_convert_addr cpu virt true false noisy m)
       as [[[ex0 phys] m1]|] eqn:Hconv; [|discriminate]);
    apply rv_convert_addr_cases in Hconv;
    destruct Hconv as [[-> [p ->]] | [-> ->]];
    cbn [page_fault_exception] in H;
    rewrite ?(bool_decide_true (rv_exc_none = rv_exc_none)),
            ?(bool_decide_false (rv_exc_store_amo_page_fault = rv_exc_none))
      in H by (reflexivity || discriminate);
    cbn [negb] in H;
    repeat match type of H with
    | context [match ?x with pair _ _ => _ end] => destruct x
    | context [if ?b then _ else _] => destruct b
    end;
    injection H as <- _ _; auto.
Qed.

(** C10.  A store that does not reach the timer registers, translates
    without a fault and is aligned returns [rv_exc_none] and leaves the
    hart, [tval_next] included, as it was, whatever the physical write
    answers; and no store returns the store/AMO access fault. *)
Theorem C10_failed_store_is_silent (w : store_width) (cpu : rv_cpu_t)
    (virt value : Z) (noisy : bool) (m : physmem) (phys : Z)
    (m1 : physmem) :
  try_write_memory_mapped_regs cpu virt (value mod 2 ^ store_bits w)
                               (store_bits w) = None ->
  rv_convert_addr cpu virt true false noisy m
    = Some (rv_exc_none, Some phys, m1) ->
  IS_ALIGNED virt (store_bytes w) = true ->
  (forall (ok : bool) (m2 : physmem),
     physmem_write w (mhartid (csr cpu)) phys (value mod 2 ^ store_bits w)
                   true m1 = (ok, m2) ->
     rv_write_mem w cpu virt value noisy m = Some (rv_exc_none, cpu, m2))
  /\ (forall virt' value' noisy' m0 ex cpu' m',
        rv_write_mem w cpu virt' value' noisy' m0 = Some (ex, cpu', m') ->
        ex <> rv_exc_store_amo_access_fault).
Proof.
  intros Hmiss Hconv Hal. split.
  - intros ok m2 Hwrite.
    destruct w; cbn [rv_write_mem physmem_write store_bits store_bytes] in *;
      unfold rv_write_mem8, rv_write_mem16, rv_write_mem32;
      rewrite Hmiss, Hconv, (bool_decide_true (_ = _)) by reflexivity;
      cbn [negb]; change (default 0 (Some phys)) with phys;
      rewrite ?Hal; cbn [negb]; rewrite Hwrite; now destruct ok.
  - intros virt' value' noisy' m0 ex cpu' m' H.
    apply rv_write_mem_codes in H.
    destruct H as [-> | [-> | ->]]; discriminate.
Qed.

(** * Trap entry: both modes, and what an entry leaves alone *)

Lemma testbit_mpp_mask (i : Z) :
  i <> 11 -> i <> 12 -> Z.testbit rv_csr_mstatus_mpp_mask i = false.
Proof.
  intros H1 H2. unfold rv_csr_mstatus_mpp_mask.
  rewrite testbit_shiftl by lia. change 3 with (Z.ones 2).
  rewrite Z.testbit_ones by lia.
  destruct (Z.leb_spec 0 (i - 11)), (Z.ltb_spec (i - 11) 2);
    try reflexivity; lia.
Qed.

Lemma testbit_u32_shiftl (x k i : Z) :
  0 <= k <= i -> i < 32 ->
  Z.testbit (u32 (Z.shiftl x k)) i = Z.testbit x (i - k).
Proof.
  intros Hk Hi. unfold u32.
  rewrite Z.testbit_mod_pow2, testbit_shiftl by lia.
  destruct (Z.ltb_spec i 32); [reflexivity | lia].
Qed.

(** Symbolic bit of a word built from the masks of [mstatus]. *)
Ltac mask_bits :=
  repeat first
    [ rewrite Z.lor_spec | rewrite Z.land_spec
    | rewrite testbit_not32 by lia ];
  unfold rv_csr_mstatus_mie_mask, rv_csr_mstatus_mpie_mask,
    rv_csr_sstatus_sie_mask, rv_csr_sstatus_spie_mask,
    rv_csr_sstatus_spp_mask;
  rewrite ?testbit_bit, ?testbit_mpp_mask by lia;
  repeat match goal with
  | |- context [?a =? ?b] =>
    destruct (Z.eqb_spec a b); [lia|]
  | |- context [?a <? ?b] =>
    destruct (Z.ltb_spec a b); [|lia]
  end;
  cbn [negb andb orb];
  rewrite ?andb_true_r, ?andb_false_r, ?orb_false_r; try reflexivity.

(** The entry into S-mode mirrors the entry into M-mode on [sepc],
    [scause], [stval], [sstatus.SIE/SPIE/SPP] and [stvec]. *)
Theorem s_trap_enters_S_mode (cpu : rv_cpu_t) (ex : rv_exc_t) :
  ex <> rv_exc_none ->
  0 <= stvec (csr cpu) < 2 ^ 32 ->
  tvec_mode (stvec (csr cpu)) = rv_csr_mtvec_mode_direct
  \/ tvec_mode (stvec (csr cpu)) = rv_csr_mtvec_mode_vectored ->
  exists cpu', s_trap cpu ex = Some cpu' /\ s_trap_entry cpu ex cpu'.
Proof.
  intros Hex Htvec Hmode.
  unfold s_trap, s_trap_entry. rewrite bool_decide_false by assumption.
  rewrite is_interrupt_spec, interrupt_no_spec by assumption.
  destruct_hart cpu.
  rewrite (is_set_bit _ 1) by lia.
  destruct (Z.testbit mstatus0 1) eqn:Esie; hart_cbv;
    rewrite land_mode_mask, land_not_mode_mask by assumption;
    destruct Hmode as [-> | ->]; simpl Z.eqb; cbv iota;
    destruct (exc_is_interrupt ex);
    (eexists; split; [reflexivity|]); hart_cbv;
    repeat split; try reflexivity;
    try (rewrite Z.lor_spec, !Z.land_spec, !testbit_not32,
           testbit_u32_shiftl by (unfold rv_csr_sstatus_spp_pos; lia);
         unfold rv_csr_sstatus_spp_pos; eval_testbit;
         now rewrite andb_false_r, andb_true_r);
    bits.
Qed.

(** An entry into M-mode writes [mepc], [mcause], [mtval], [priv_mode],
    [stdby], [pc_next] and, in [mstatus], the bits MIE, MPIE and MPP;
    nothing else. *)
Theorem m_trap_footprint (cpu cpu' : rv_cpu_t) (ex : rv_exc_t) :
  m_trap cpu ex = Some cpu' ->
  outside_m_trap cpu' = outside_m_trap cpu
  /\ (forall i, 0 <= i < 32 -> i <> 3 -> i <> 7 -> i <> 11 -> i <> 12 ->
        Z.testbit (mstatus (csr cpu')) i = Z.testbit (mstatus (csr cpu)) i).
Proof.
  unfold m_trap, outside_m_trap. intros H.
  destruct (bool_decide (ex = rv_exc_none)); [discriminate|].
  destruct_hart cpu.
  destruct (is_set mstatus0 rv_csr_mstatus_mie_mask); hart_cbv;
    split_ifs H; try discriminate; injection H as <-;
    (split; [reflexivity|]); intros i Hi H3 H7 H11 H12; hart_cbv;
    mask_bits.
Qed.

(** An entry into S-mode writes [sepc], [scause], [stval], [priv_mode],
    [stdby], [pc_next] and, in [mstatus], the bits SIE, SPIE and SPP;
    nothing else: the machine-level fields of [mstatus] are kept. *)
Theorem s_trap_footprint (cpu cpu' : rv_cpu_t) (ex : rv_exc_t) :
  s_trap cpu ex = Some cpu' ->
  outside_s_trap cpu' = outside_s_trap cpu
  /\ (forall i, 0 <= i < 32 -> i <> 1 -> i <> 5 -> i <> 8 ->
        Z.testbit (mstatus (csr cpu')) i = Z.testbit (mstatus (csr cpu)) i).
Proof.
  unfold s_trap, outside_s_trap. intros H.
  destruct (bool_decide (ex = rv_exc_none)); [discriminate|].
  destruct_hart cpu.
  destruct (is_set mstatus0 rv_csr_sstatus_sie_mask); hart_cbv;
    split_ifs H; try discriminate; injection H as <-;
    (split; [reflexivity|]); intros i Hi H1 H5 H8; hart_cbv;
    mask_bits.
Qed.

(** * Interrupt delivery: what is taken, and what must be taken *)

Lemma highest_priority_Some (order : list rv_exc_t) (active : Z)
    (i : rv_exc_t) :
  highest_priority order active = Some i ->
  In i order /\ in_set active i = true.
Proof. intros H. apply List.find_some in H. exact H. Qed.

Lemma highest_priority_first (before after : list rv_exc_t)
    (i : rv_exc_t) (active : Z) :
  in_set active i = true ->
  (forall j, In j before -> in_set active j = false) ->
  highest_priority (before ++ i :: after) active = Some i.
Proof.
  intros Hi. unfold highest_priority.
  induction before as [|j before IH]; intros Hb; cbn [app List.find].
  - now rewrite Hi.
  - rewrite (Hb j) by (now left). apply IH. intros k Hk. apply Hb. now right.
Qed.

Lemma highest_priority_none (order : list rv_exc_t) (active : Z) :
  (forall j, In j order -> in_set active j = false) ->
  highest_priority order active = None.
Proof.
  unfold highest_priority.
  induction order as [|j order IH]; intros Hb; cbn [List.find];
    [reflexivity|].
  rewrite (Hb j) by (now left). apply IH. intros k Hk. apply Hb. now right.
Qed.

Lemma interrupt_to_take_sets (cpu : rv_cpu_t) :
  interrupt_to_take cpu =
    match (if can_trap_to_M cpu
           then highest_priority m_priority (m_active_set cpu)
           else None) with
    | Some i => Some (to_M, i)
    | None =>
      match (if can_trap_to_S cpu
             then highest_priority s_priority (s_active_set cpu)
             else None) with
      | Some i => Some (to_S, i)
      | None => None
      end
    end.
Proof. reflexivity. Qed.

Lemma can_trap_to_S_below_M (cpu : rv_cpu_t) :
  can_trap_to_S cpu = true -> can_trap_to_M cpu = true.
Proof.
  unfold can_trap_to_S, can_trap_to_M, rv_smode, rv_mmode.
  destruct (Z.eqb_spec (priv_mode cpu) 1), (Z.ltb_spec (priv_mode cpu) 1),
    (Z.ltb_spec (priv_mode cpu) 3), (Z.eqb_spec (priv_mode cpu) 3);
    cbn; intros; try reflexivity; try discriminate; lia.
Qed.

Lemma s_priority_cause_codes (i : rv_exc_t) :
  In i s_priority -> 0 <= cause_code i < 32 /\ In i m_priority.
Proof.
  intros [<- | [<- | [<- | []]]]; (split; [now vm_compute|]);
    cbn; auto 10.
Qed.

Lemma m_priority_cause_codes (i : rv_exc_t) :
  In i m_priority -> 0 <= cause_code i < 32.
Proof.
  intros [<- | [<- | [<- | [<- | [<- | [<- | []]]]]]]; now vm_compute.
Qed.

(** Whatever [try_handle_interrupt] takes is pending in the effective
    [mip] and enabled in [mie], with the gate of its mode open; it is
    taken in M-mode only if [mideleg] does not delegate it and in S-mode
    only if it is a supervisor interrupt that [mideleg] delegates.  A
    delegated machine-level interrupt is never taken. *)
Theorem taken_interrupt_is_due (cpu : rv_cpu_t) (t : trap_target)
    (i : rv_exc_t) :
  interrupt_to_take cpu = Some (t, i) ->
  try_handle_interrupt cpu
    = (match t with to_M => m_trap | to_S => s_trap end) cpu i
  /\ Z.testbit (effective_mip cpu) (cause_code i) = true
  /\ Z.testbit (mie (csr cpu)) (cause_code i) = true
  /\ match t with
     | to_M => can_trap_to_M cpu = true
               /\ Z.testbit (mideleg (csr cpu)) (cause_code i) = false
     | to_S => can_trap_to_S cpu = true /\ In i s_priority
               /\ Z.testbit (mideleg (csr cpu)) (cause_code i) = true
     end.
Proof.
  intros H. split.
  { rewrite try_handle_interrupt_deliver, H. now destruct t. }
  rewrite interrupt_to_take_sets in H.
  destruct (can_trap_to_M cpu) eqn:EM.
  - destruct (highest_priority m_priority (m_active_set cpu)) as [j|] eqn:Em.
    + injection H as <- <-.
      apply highest_priority_Some in Em. destruct Em as [Hin Hset].
      pose proof (m_priority_cause_codes _ Hin) as Hc.
      unfold in_set, m_active_set in Hset.
      rewrite !Z.land_spec, testbit_not32 in Hset by lia.
      destruct (Z.testbit (effective_mip cpu) _), (Z.testbit (mie _) _),
        (Z.testbit (mideleg _) _), (_ <? 32); try discriminate; auto.
    + destruct (can_trap_to_S cpu) eqn:ES; [|discriminate].
      destruct (highest_priority s_priority (s_active_set cpu)) as [j|]
        eqn:Es; [|discriminate].
      injection H as <- <-.
      apply highest_priority_Some in Es. destruct Es as [Hin Hset].
      destruct (s_priority_cause_codes _ Hin) as [Hc HinM].
      assert (in_set (m_active_set cpu) j = false) as Hm.
      { unfold highest_priority in Em.
        exact (List.find_none _ _ Em j HinM). }
      unfold in_set, m_active_set, s_active_set in *.
      rewrite !Z.land_spec in Hset.
      rewrite !Z.land_spec in Hm. rewrite testbit_not32 in Hm by lia.
      destruct (Z.testbit (effective_mip cpu) _), (Z.testbit (mie _) _),
        (Z.testbit (mideleg _) _), (Z.ltb_spec (cause_code j) 32);
        try discriminate; try lia; auto.
  - destruct (can_trap_to_S cpu) eqn:ES; [|discriminate].
    apply can_trap_to_S_below_M in ES. congruence.
Qed.

(** Completeness for M-mode: with the M gate open, the first interrupt of
    the order MEI, MSI, MTI, SEI, SSI, STI that is pending, enabled and
    not delegated is the one taken, in M-mode. *)
Theorem first_machine_interrupt_is_taken (cpu : rv_cpu_t)
    (before after : list rv_exc_t) (i : rv_exc_t) :
  m_priority = before ++ i :: after ->
  can_trap_to_M cpu = true ->
  in_set (m_active_set cpu) i = true ->
  (forall j, In j before -> in_set (m_active_set cpu) j = false) ->
  try_handle_interrupt cpu = m_trap cpu i.
Proof.
  intros Hsplit HM Hi Hb.
  rewrite try_handle_interrupt_deliver, interrupt_to_take_sets, HM, Hsplit.
  now rewrite (highest_priority_first before after i _ Hi Hb).
Qed.

(** Completeness for S-mode: when nothing is due in M-mode and the S gate
    is open, the first of SEI, SSI, STI that is pending and enabled is
    taken, in S-mode. *)
Theorem first_supervisor_interrupt_is_taken (cpu : rv_cpu_t)
    (before after : list rv_exc_t) (i : rv_exc_t) :
  s_priority = before ++ i :: after ->
  (forall j, In j m_priority -> in_set (m_active_set cpu) j = false) ->
  can_trap_to_S cpu = true ->
  in_set (s_active_set cpu) i = true ->
  (forall j, In j before -> in_set (s_active_set cpu) j = false) ->
  try_handle_interrupt cpu = s_trap cpu i.
Proof.
  intros Hsplit Hnone HS Hi Hb.
  rewrite try_handle_interrupt_deliver, interrupt_to_take_sets, HS, Hsplit.
  rewrite (highest_priority_none m_priority _ Hnone).
  rewrite (highest_priority_first before after i _ Hi Hb).
  now destruct (can_trap_to_M cpu).
Qed.

(** * Interrupt lines: raising, lowering, pending *)

Lemma rv_interrupt_up_eq (cpu : rv_cpu_t) (no : Z) :
  rv_interrupt_up cpu no =
    (if no =? sei_no then upd_csr (csr_set_external_SEIP true) cpu
     else upd_csr (csr_set_mip
            (Z.lor (mip (csr cpu)) (2 ^ interrupt_line no))) cpu).
Proof.
  unfold rv_interrupt_up. cbv zeta.
  change (RV_INTERRUPT_NO (rv_exc_val rv_exc_supervisor_external_interrupt))
    with sei_no.
  now rewrite coerced_interrupt_no, exception_mask_line.
Qed.

Lemma rv_interrupt_down_eq (cpu : rv_cpu_t) (no : Z) :
  rv_interrupt_down cpu no =
    (if no =? sei_no then upd_csr (csr_set_external_SEIP false) cpu
     else upd_csr (csr_set_mip
            (Z.land (mip (csr cpu)) (not32 (2 ^ interrupt_line no)))) cpu).
Proof.
  unfold rv_interrupt_down. cbv zeta.
  change (RV_INTERRUPT_NO (rv_exc_val rv_exc_supervisor_external_interrupt))
    with sei_no.
  now rewrite coerced_interrupt_no, exception_mask_line.
Qed.

Lemma interrupt_line_cases (no : Z) :
  no <> 9 ->
  (interrupt_line no = 1 /\ line_interrupt no
                            = rv_exc_supervisor_software_interrupt)
  \/ (interrupt_line no = 3 /\ line_interrupt no
                               = rv_exc_machine_software_interrupt)
  \/ (interrupt_line no = 11 /\ line_interrupt no
                                = rv_exc_machine_external_interrupt).
Proof.
  intros H9. unfold interrupt_line, line_interrupt.
  destruct (Z.eqb_spec no 9); [contradiction|].
  destruct (Z.eqb_spec no 3) as [->|]; [cbn; auto|].
  destruct (Z.eqb_spec no 1) as [->|]; [cbn; auto|].
  destruct (Z.eqb_spec no 11) as [->|]; cbn; auto.
Qed.

(** Lowering a line undoes raising it, raising twice is raising once; a
    raised line is pending in the effective [mip]; a lowered line is not,
    except the supervisor external one, which stays pending while the
    software bit [mip.SEIP] is set. *)
Theorem interrupt_line_round_trip (cpu : rv_cpu_t) (no : Z) :
  rv_interrupt_down (rv_interrupt_up cpu no) no = rv_interrupt_down cpu no
  /\ rv_interrupt_up (rv_interrupt_up cpu no) no = rv_interrupt_up cpu no
  /\ in_set (effective_mip (rv_interrupt_up cpu no)) (line_interrupt no)
     = true
  /\ in_set (effective_mip (rv_interrupt_down cpu no)) (line_interrupt no)
     = (if no =? 9 then Z.testbit (mip (csr cpu)) 9 else false).
Proof.
  rewrite ?rv_interrupt_up_eq, ?rv_interrupt_down_eq, ?rv_interrupt_up_eq.
  unfold sei_no, in_set, effective_mip.
  destruct (Z.eqb_spec no 9) as [-> | H9].
  - destruct cpu as [? ? ? c ? ? ? ?]; destruct c.
    cbn [upd_csr set_csr csr csr_set_external_SEIP mip external_SEIP
         line_interrupt Z.eqb Pos.eqb].
    change (cause_code rv_exc_supervisor_external_interrupt) with 9.
    repeat split.
    + rewrite Z.lor_spec. eval_testbit. apply orb_true_r.
    + now rewrite Z.lor_0_r.
  - destruct (interrupt_line_cases no H9) as [[-> ->]|[[-> ->]|[-> ->]]];
      destruct_hart cpu;
      (split; [do 2 f_equal; apply Z.bits_inj'; intros k Hk;
               rewrite !Z.land_spec, Z.lor_spec, !testbit_not32 by lia;
               now destruct (Z.testbit mip0 k), (Z.testbit (2 ^ _) k),
                 (k <? 32)|]);
      (split; [do 2 f_equal; apply Z.bits_inj'; intros k Hk;
               rewrite !Z.lor_spec;
               now destruct (Z.testbit mip0 k), (Z.testbit (2 ^ _) k)|]);
      change (cause_code rv_exc_supervisor_software_interrupt) with 1;
      change (cause_code rv_exc_machine_software_interrupt) with 3;
      change (cause_code rv_exc_machine_external_interrupt) with 11;
      rewrite !Z.lor_spec, ?Z.land_spec, ?testbit_not32 by lia;
      (split; destruct external_SEIP0; eval_testbit;
       rewrite ?orb_true_r, ?andb_false_r, ?orb_false_r; reflexivity).
Qed.

(** * Accounting *)

Lemma account_split (now : Z) (cpu : rv_cpu_t) (raised : bool) :
  account now cpu raised =
    raise_timer_interrupts
      (fold_left account_hmp (seq 0 29) (account_head now cpu raised)).
Proof. reflexivity. Qed.

Lemma raise_timer_interrupts_outside (cpu : rv_cpu_t) :
  outside_account (raise_timer_interrupts cpu) = outside_account cpu
  /\ cycle (csr (raise_timer_interrupts cpu)) = cycle (csr cpu)
  /\ instret (csr (raise_timer_interrupts cpu)) = instret (csr cpu)
  /\ mtime (csr (raise_timer_interrupts cpu)) = mtime (csr cpu)
  /\ last_tick_time (csr (raise_timer_interrupts cpu))
     = last_tick_time (csr cpu)
  /\ hpmcounters (csr (raise_timer_interrupts cpu)) = hpmcounters (csr cpu).
Proof.
  unfold raise_timer_interrupts, outside_account. destruct_hart cpu.
  destruct (scyclecmp0 <=? _); hart_cbv;
    destruct (mtimecmp0 <=? mtime0); repeat split.
Qed.

Lemma account_hmp_outside (cpu : rv_cpu_t) (i : nat) :
  outside_account (account_hmp cpu i) = outside_account cpu
  /\ cycle (csr (account_hmp cpu i)) = cycle (csr cpu)
  /\ instret (csr (account_hmp cpu i)) = instret (csr cpu)
  /\ mtime (csr (account_hmp cpu i)) = mtime (csr cpu)
  /\ last_tick_time (csr (account_hmp cpu i)) = last_tick_time (csr cpu)
  /\ mip (csr (account_hmp cpu i)) = mip (csr cpu).
Proof.
  unfold account_hmp, outside_account. cbv zeta.
  destruct (is_set _ _); [repeat split|].
  destruct (default hpm_no_event _); try (repeat split; fail);
    match goal with |- context [if ?b then _ else _] => destruct b end;
    destruct cpu as [? ? ? c ? ? ? ?]; destruct c; repeat split.
Qed.

Lemma fold_account_hmp_outside (l : list nat) (cpu : rv_cpu_t) :
  outside_account (fold_left account_hmp l cpu) = outside_account cpu
  /\ cycle (csr (fold_left account_hmp l cpu)) = cycle (csr cpu)
  /\ instret (csr (fold_left account_hmp l cpu)) = instret (csr cpu)
  /\ mtime (csr (fold_left account_hmp l cpu)) = mtime (csr cpu)
  /\ last_tick_time (csr (fold_left account_hmp l cpu))
     = last_tick_time (csr cpu)
  /\ mip (csr (fold_left account_hmp l cpu)) = mip (csr cpu).
Proof.
  revert cpu. induction l as [|i l IH]; intros cpu; [repeat split|].
  cbn [fold_left].
  destruct (IH (account_hmp cpu i)) as (-> & -> & -> & -> & -> & ->).
  apply account_hmp_outside.
Qed.

Lemma account_head_outside (now : Z) (cpu : rv_cpu_t) (raised : bool) :
  outside_account (account_head now cpu raised) = outside_account cpu
  /\ hpmcounters (csr (account_head now cpu raised))
     = hpmcounters (csr cpu).
Proof.
  unfold account_head, outside_account.
  destruct cpu as [? ? ? c ? ? ? ?]; destruct c. cbv zeta.
  destruct (negb (is_set _ 1)), (_ && _ && _); split; reflexivity.
Qed.

Lemma account_outside (now : Z) (cpu : rv_cpu_t) (raised : bool) :
  outside_account (account now cpu raised) = outside_account cpu.
Proof.
  rewrite account_split.
  destruct (raise_timer_interrupts_outside
              (fold_left account_hmp (seq 0 29)
                 (account_head now cpu raised))) as [-> _].
  destruct (fold_account_hmp_outside (seq 0 29)
              (account_head now cpu raised)) as [-> _].
  apply account_head_outside.
Qed.

(** Fields of the hart that accounting cannot reach. *)
Lemma outside_account_fields (cpu cpu' : rv_cpu_t) :
  outside_account cpu' = outside_account cpu ->
  regs cpu' = regs cpu /\ pc cpu' = pc cpu /\ pc_next cpu' = pc_next cpu
  /\ priv_mode cpu' = priv_mode cpu /\ stdby cpu' = stdby cpu
  /\ mstatus (csr cpu') = mstatus (csr cpu)
  /\ mtvec (csr cpu') = mtvec (csr cpu)
  /\ stvec (csr cpu') = stvec (csr cpu)
  /\ medeleg (csr cpu') = medeleg (csr cpu)
  /\ tval_next (csr cpu') = tval_next (csr cpu)
  /\ mcountinhibit (csr cpu') = mcountinhibit (csr cpu)
  /\ hpmevents (csr cpu') = hpmevents (csr cpu).
Proof.
  unfold outside_account.
  destruct cpu as [? ? ? c ? ? ? ?], cpu' as [? ? ? c' ? ? ? ?];
    destruct c, c'.
  cbn. intros [= -> -> -> -> -> -> -> -> -> -> -> -> -> -> -> -> -> -> ->
                 -> -> -> -> -> -> ->].
  repeat split.
Qed.

Lemma is_set_1 (x : Z) : is_set x 1 = Z.testbit x 0.
Proof. exact (is_set_bit x 0 (Z.le_refl 0)). Qed.

Lemma is_set_4 (x : Z) : is_set x 4 = Z.testbit x 2.
Proof. apply (is_set_bit x 2). lia. Qed.

Lemma account_cycle (now : Z) (cpu : rv_cpu_t) (raised : bool) :
  cycle (csr (account now cpu raised))
    = (if Z.testbit (mcountinhibit (csr cpu)) 0 then cycle (csr cpu)
       else (cycle (csr cpu) + 1) mod 2 ^ 64).
Proof.
  rewrite account_split.
  destruct (raise_timer_interrupts_outside
              (fold_left account_hmp (seq 0 29)
                 (account_head now cpu raised))) as (_ & -> & _).
  destruct (fold_account_hmp_outside (seq 0 29)
              (account_head now cpu raised)) as (_ & -> & _).
  unfold account_head. rewrite is_set_1.
  destruct cpu as [? ? ? c ? ? ? ?]; destruct c. cbv zeta.
  cbn [csr mcountinhibit cycle].
  destruct (Z.testbit mcountinhibit0 0), (_ && _ && _); reflexivity.
Qed.

Lemma account_instret (now : Z) (cpu : rv_cpu_t) (raised : bool) :
  instret (csr (account now cpu raised))
    = (if Z.testbit (mcountinhibit (csr cpu)) 2 || raised || stdby cpu
       then instret (csr cpu)
       else (instret (csr cpu) + 1) mod 2 ^ 64).
Proof.
  rewrite account_split.
  destruct (raise_timer_interrupts_outside
              (fold_left account_hmp (seq 0 29)
                 (account_head now cpu raised))) as (_ & _ & -> & _).
  destruct (fold_account_hmp_outside (seq 0 29)
              (account_head now cpu raised)) as (_ & _ & -> & _).
  unfold account_head.
  destruct cpu as [? ? ? c ? ? ? ?]; destruct c. cbv zeta.
  destruct (negb (is_set _ 1)); hart_cbv; rewrite is_set_4;
    destruct (Z.testbit mcountinhibit0 2), raised, stdby0; reflexivity.
Qed.

(** [account] advances [cycle] unless bit 0 of [mcountinhibit] is set, and
    [instret] unless bit 2 is set, an exception was raised or the hart is
    in standby; each by one, on 64 bits.  Outside the counters, the clock
    and [mip] it changes nothing. *)
Theorem account_counters (now : Z) (cpu : rv_cpu_t) (raised : bool) :
  cycle (csr (account now cpu raised))
    = (if Z.testbit (mcountinhibit (csr cpu)) 0 then cycle (csr cpu)
       else (cycle (csr cpu) + 1) mod 2 ^ 64)
  /\ instret (csr (account now cpu raised))
     = (if Z.testbit (mcountinhibit (csr cpu)) 2 || raised || stdby cpu
        then instret (csr cpu)
        else (instret (csr cpu) + 1) mod 2 ^ 64)
  /\ outside_account (account now cpu raised) = outside_account cpu.
Proof.
  split; [apply account_cycle|].
  split; [apply account_instret|apply account_outside].
Qed.

(** [account] moves [mtime] by the host time elapsed since the last step,
    on 64 bits, and records the host time: the offset of [mtime] from the
    host clock never changes. *)
Theorem account_clock (now : Z) (cpu : rv_cpu_t) (raised : bool) :
  mtime (csr (account now cpu raised))
    = (mtime (csr cpu) + (now - last_tick_time (csr cpu))) mod 2 ^ 64
  /\ last_tick_time (csr (account now cpu raised)) = now
  /\ (mtime (csr (account now cpu raised))
      - last_tick_time (csr (account now cpu raised))) mod 2 ^ 64
     = (mtime (csr cpu) - last_tick_time (csr cpu)) mod 2 ^ 64.
Proof.
  assert (mtime (csr (account now cpu raised))
          = (mtime (csr cpu) + (now - last_tick_time (csr cpu))) mod 2 ^ 64
          /\ last_tick_time (csr (account now cpu raised)) = now)
    as [Hm Hl].
  { rewrite account_split.
    destruct (raise_timer_interrupts_outside
                (fold_left account_hmp (seq 0 29)
                   (account_head now cpu raised)))
      as (_ & _ & _ & -> & -> & _).
    destruct (fold_account_hmp_outside (seq 0 29)
                (account_head now cpu raised)) as (_ & _ & _ & -> & -> & _).
    unfold account_head, u64.
    destruct cpu as [? ? ? c ? ? ? ?]; destruct c. cbv zeta.
    destruct (negb (is_set _ 1)), (_ && _ && _); hart_cbv;
      rewrite Zplus_mod_idemp_r; split; reflexivity. }
  rewrite Hm, Hl. repeat split.
  rewrite Zminus_mod_idemp_l. f_equal. lia.
Qed.

Lemma hpm_ticks_outside (cpu cpu' : rv_cpu_t) (i : nat) :
  outside_account cpu' = outside_account cpu ->
  hpm_ticks cpu' i = hpm_ticks cpu i.
Proof.
  intros H. apply outside_account_fields in H.
  destruct H as (_ & _ & _ & Hp & Hs & _ & _ & _ & _ & _ & Hi & He).
  unfold hpm_ticks. rewrite Hp, Hs, Hi, He. reflexivity.
Qed.

Lemma incr_lookup (l : list Z) (j i : nat) :
  <[j := u64 (default 0 (l !! j) + 1)]> l !! i
  = if decide (i = j) then hpm_bump true <$> l !! j else l !! i.
Proof.
  destruct (decide (i = j)) as [->|Hne].
  - destruct (l !! j) as [v|] eqn:Hj.
    + rewrite list_lookup_insert_eq by (eapply lookup_lt_Some; exact Hj).
      reflexivity.
    + apply lookup_ge_None. rewrite length_insert.
      apply lookup_ge_None. exact Hj.
  - apply list_lookup_insert_ne. congruence.
Qed.

Lemma fmap_bump_false (o : option Z) : hpm_bump false <$> o = o.
Proof. destruct o; reflexivity. Qed.

Lemma account_hmp_counter (cpu : rv_cpu_t) (j i : nat) :
  (j < 29)%nat ->
  hpmcounters (csr (account_hmp cpu j)) !! i
  = if decide (i = j)
    then hpm_bump (hpm_ticks cpu j) <$> hpmcounters (csr cpu) !! j
    else hpmcounters (csr cpu) !! i.
Proof.
  intros Hj. unfold account_hmp, hpm_ticks. cbv zeta.
  assert (Hmask : u32 (Z.shiftl 1 (Z.of_nat j + 3))
                  = Z.shiftl 1 (Z.of_nat j + 3)).
  { unfold u32. apply Z.mod_small. rewrite Z.shiftl_1_l. split.
    - apply Z.pow_nonneg. lia.
    - apply Z.pow_lt_mono_r; lia. }
  rewrite Hmask, is_set_bit by lia.
  assert (Hkeep : forall b, b = false ->
            hpmcounters (csr cpu) !! i
            = if decide (i = j)
              then hpm_bump b <$> hpmcounters (csr cpu) !! j
              else hpmcounters (csr cpu) !! i).
  { intros b ->. destruct (decide (i = j)) as [->|]; [|reflexivity].
    now rewrite fmap_bump_false. }
  destruct (Z.testbit _ _); [now apply Hkeep|]. cbn [negb andb].
  destruct (hpmevents (csr cpu) !! j) as [ev|];
    cbn [default from_option id]; [|now apply Hkeep].
  destruct ev; try (now apply Hkeep);
    match goal with
    | |- context [if ?b then upd_csr _ _ else _] => destruct b
    end;
    try (now apply Hkeep);
    destruct cpu as [? ? ? c ? ? ? ?]; destruct c;
    cbn [upd_csr set_csr csr csr_set_hpmcounters hpmcounters];
    apply incr_lookup.
Qed.

Lemma fold_account_hmp_counter (n a : nat) (cpu : rv_cpu_t) (i : nat) :
  (a + n <= 29)%nat ->
  hpmcounters (csr (fold_left account_hmp (seq a n) cpu)) !! i
  = if decide (a <= i < a + n)%nat
    then hpm_bump (hpm_ticks cpu i) <$> hpmcounters (csr cpu) !! i
    else hpmcounters (csr cpu) !! i.
Proof.
  revert a cpu. induction n as [|n IH]; intros a cpu Hle.
  - cbn [seq fold_left]. destruct (decide _); [lia|reflexivity].
  - cbn [seq fold_left]. rewrite IH by lia.
    rewrite (hpm_ticks_outside cpu (account_hmp cpu a) i)
      by apply account_hmp_outside.
    rewrite account_hmp_counter by lia.
    destruct (decide (i = a)) as [->|Hne].
    + destruct (decide (S a <= a < S a + n)%nat); [lia|].
      destruct (decide (a <= a < a + S n)%nat); [reflexivity|lia].
    + destruct (decide (S a <= i < S a + n)%nat),
               (decide (a <= i < a + S n)%nat); try lia; reflexivity.
Qed.

(** One pass of [account] moves each of the 29 performance counters by at
    most one: counter [i] ticks, on 64 bits, exactly when bit [i + 3] of
    [mcountinhibit] is clear and its event matches the hart's mode (or
    standby, for wait cycles) as it was on entry. *)
Theorem account_hpm_counters (now : Z) (cpu : rv_cpu_t) (raised : bool)
    (i : nat) :
  hpmcounters (csr (account now cpu raised)) !! i
  = if decide (i < 29)%nat
    then hpm_bump (hpm_ticks cpu i) <$> hpmcounters (csr cpu) !! i
    else hpmcounters (csr cpu) !! i.
Proof.
  rewrite account_split.
  destruct (raise_timer_interrupts_outside
              (fold_left account_hmp (seq 0 29)
                 (account_head now cpu raised)))
    as (_ & _ & _ & _ & _ & ->).
  rewrite fold_account_hmp_counter by lia.
  destruct (account_head_outside now cpu raised) as [Ho ->].
  rewrite (hpm_ticks_outside cpu _ i Ho).
  destruct (decide (0 <= i < 0 + 29)%nat), (decide (i < 29)%nat);
    try lia; reflexivity.
Qed.

(** * The step *)

Lemma rv_cpu_step_eq (now : Z) (cpu : rv_cpu_t) (m : physmem) :
  rv_cpu_step now cpu m =
    match executed cpu m with
    | None => None
    | Some (ex, c, m1) =>
      let raised := negb (bool_decide (ex = rv_exc_none)) in
      match (if raised then handle_exception (account now c raised) ex
             else try_handle_interrupt (account now c raised)) with
      | None => None
      | Some c' => Some (step_epilogue (step_advance c'), m1)
      end
    end.
Proof.
  unfold rv_cpu_step, executed.
  destruct (if negb (stdby cpu) then execute cpu m
            else Some (rv_exc_none, cpu, m)) as [[[ex c] m1]|];
    [|reflexivity].
  cbv zeta.
  destruct (if negb (bool_decide (ex = rv_exc_none)) then _ else _) as [c'|];
    [|reflexivity].
  unfold step_epilogue, step_advance. destruct (negb (stdby c')); reflexivity.
Qed.

Lemma m_trap_facts (cpu cpu' : rv_cpu_t) (ex : rv_exc_t) :
  m_trap cpu ex = Some cpu' ->
  trap_taken to_M (if exc_is_interrupt ex then pc_next cpu else pc cpu)
    (rv_exc_val ex) (tval_next (csr cpu)) cpu'
  /\ pc cpu' = pc cpu /\ regs cpu' = regs cpu
  /\ instret (csr cpu') = instret (csr cpu).
Proof.
  unfold m_trap, trap_taken. intros H.
  destruct (bool_decide_reflect (ex = rv_exc_none)) as [|Hex];
    [discriminate|].
  rewrite is_interrupt_spec in H by assumption.
  destruct_hart cpu.
  destruct (is_set mstatus0 rv_csr_mstatus_mie_mask); hart_cbv;
    split_ifs H; try discriminate; injection H as <-; repeat split.
Qed.

Lemma s_trap_facts (cpu cpu' : rv_cpu_t) (ex : rv_exc_t) :
  s_trap cpu ex = Some cpu' ->
  trap_taken to_S (if exc_is_interrupt ex then pc_next cpu else pc cpu)
    (rv_exc_val ex) (tval_next (csr cpu)) cpu'
  /\ pc cpu' = pc cpu /\ regs cpu' = regs cpu
  /\ instret (csr cpu') = instret (csr cpu).
Proof.
  unfold s_trap, trap_taken. intros H.
  destruct (bool_decide_reflect (ex = rv_exc_none)) as [|Hex];
    [discriminate|].
  rewrite is_interrupt_spec in H by assumption.
  destruct_hart cpu.
  destruct (is_set mstatus0 rv_csr_sstatus_sie_mask); hart_cbv;
    split_ifs H; try discriminate; injection H as <-; repeat split.
Qed.

Lemma trap_facts (t : trap_target) (cpu cpu' : rv_cpu_t) (ex : rv_exc_t) :
  (match t with to_M => m_trap | to_S => s_trap end) cpu ex = Some cpu' ->
  trap_taken t (if exc_is_interrupt ex then pc_next cpu else pc cpu)
    (rv_exc_val ex) (tval_next (csr cpu)) cpu'
  /\ pc cpu' = pc cpu /\ regs cpu' = regs cpu
  /\ instret (csr cpu') = instret (csr cpu).
Proof. destruct t; [apply m_trap_facts|apply s_trap_facts]. Qed.

Lemma handle_exception_target (cpu : rv_cpu_t) (ex : rv_exc_t) :
  ex <> rv_exc_none ->
  handle_exception cpu ex
  = (match exception_target cpu ex with to_M => m_trap | to_S => s_trap end)
      cpu ex.
Proof.
  intros Hex. unfold handle_exception, exception_target. cbv zeta.
  rewrite is_set_exception_mask by assumption.
  now destruct (_ && _).
Qed.

Lemma interrupt_to_take_interrupt (cpu : rv_cpu_t) (t : trap_target)
    (i : rv_exc_t) :
  interrupt_to_take cpu = Some (t, i) -> exc_is_interrupt i = true.
Proof.
  rewrite interrupt_to_take_sets. intros H.
  assert (Hin : In i m_priority).
  { destruct (can_trap_to_M cpu);
      [destruct (highest_priority m_priority _) as [j|] eqn:Em|].
    - injection H as <- <-. now apply highest_priority_Some in Em.
    - destruct (can_trap_to_S cpu); [|discriminate].
      destruct (highest_priority s_priority _) as [j|] eqn:Es;
        [|discriminate].
      injection H as <- <-. apply highest_priority_Some in Es.
      now apply s_priority_cause_codes.
    - destruct (can_trap_to_S cpu); [|discriminate].
      destruct (highest_priority s_priority _) as [j|] eqn:Es;
        [|discriminate].
      injection H as <- <-. apply highest_priority_Some in Es.
      now apply s_priority_cause_codes. }
  destruct Hin as [<- | [<- | [<- | [<- | [<- | [<- | []]]]]]]; reflexivity.
Qed.

Lemma step_epilogue_fields (c : rv_cpu_t) :
  tval_next (csr (step_epilogue c)) = 0
  /\ regs (step_epilogue c) = <[0%nat := 0]> (regs c)
  /\ pc (step_epilogue c) = pc c /\ pc_next (step_epilogue c) = pc_next c
  /\ stdby (step_epilogue c) = stdby c
  /\ priv_mode (step_epilogue c) = priv_mode c
  /\ instret (csr (step_epilogue c)) = instret (csr c)
  /\ mepc (csr (step_epilogue c)) = mepc (csr c)
  /\ mcause (csr (step_epilogue c)) = mcause (csr c)
  /\ mtval (csr (step_epilogue c)) = mtval (csr c)
  /\ sepc (csr (step_epilogue c)) = sepc (csr c)
  /\ scause (csr (step_epilogue c)) = scause (csr c)
  /\ stval (csr (step_epilogue c)) = stval (csr c).
Proof.
  unfold step_epilogue. destruct c as [? ? ? c ? ? ? ?]; destruct c.
  repeat split.
Qed.

Lemma step_advance_fields (c : rv_cpu_t) :
  regs (step_advance c) = regs c
  /\ stdby (step_advance c) = stdby c
  /\ priv_mode (step_advance c) = priv_mode c
  /\ csr (step_advance c) = csr c
  /\ pc (step_advance c) = (if stdby c then pc c else pc_next c)
  /\ pc_next (step_advance c)
     = (if stdby c then pc_next c else u32 (pc_next c + 4)).
Proof.
  unfold step_advance. destruct c as [? ? ? c ? s ? ?]; destruct s;
    repeat split.
Qed.

Lemma trap_taken_epilogue (t : trap_target) (epc cause tval : Z)
    (c : rv_cpu_t) :
  trap_taken t epc cause tval c ->
  trap_taken t epc cause tval (step_epilogue (step_advance c)).
Proof.
  unfold trap_taken.
  destruct (step_epilogue_fields (step_advance c))
    as (_ & _ & _ & _ & -> & -> & _ & -> & -> & -> & -> & -> & ->).
  destruct (step_advance_fields c) as (_ & -> & -> & -> & _).
  exact (fun H => H).
Qed.

Lemma x0_cleared (l : list Z) (v : Z) :
  <[0%nat := 0]> l !! 0%nat = Some v -> v = 0.
Proof.
  destruct l as [|r rs]; intros H; [discriminate H|]. now injection H as <-.
Qed.

(** Every step that returns leaves [x0] zero and [tval_next] zero, and a
    hart that is not in standby with [pc_next] four bytes after [pc], on
    32 bits. *)
Theorem step_postconditions (now : Z) (cpu cpu' : rv_cpu_t)
    (m m' : physmem) :
  rv_cpu_step now cpu m = Some (cpu', m') ->
  tval_next (csr cpu') = 0
  /\ (forall v, regs cpu' !! 0%nat = Some v -> v = 0)
  /\ (stdby cpu' = false -> pc_next cpu' = (pc cpu' + 4) mod 2 ^ 32).
Proof.
  rewrite rv_cpu_step_eq.
  destruct (executed cpu m) as [[[ex c] m1]|]; [|discriminate]. cbv zeta.
  destruct (if negb (bool_decide (ex = rv_exc_none)) then _ else _) as [c'|];
    [|discriminate].
  intros [= <- <-].
  destruct (step_epilogue_fields (step_advance c'))
    as (-> & -> & -> & -> & -> & _).
  destruct (step_advance_fields c') as (_ & -> & _ & _ & -> & ->).
  split; [reflexivity|]. split.
  - intros v. apply x0_cleared.
  - now intros ->.
Qed.

Lemma account_fields (now : Z) (cpu : rv_cpu_t) (raised : bool) :
  regs (account now cpu raised) = regs cpu
  /\ pc (account now cpu raised) = pc cpu
  /\ pc_next (account now cpu raised) = pc_next cpu
  /\ priv_mode (account now cpu raised) = priv_mode cpu
  /\ stdby (account now cpu raised) = stdby cpu
  /\ medeleg (csr (account now cpu raised)) = medeleg (csr cpu)
  /\ tval_next (csr (account now cpu raised)) = tval_next (csr cpu).
Proof.
  destruct (outside_account_fields cpu (account now cpu raised)
              (account_outside now cpu raised))
    as (-> & -> & -> & -> & -> & _ & _ & _ & -> & -> & _).
  repeat split.
Qed.

(** The step after an instruction (or none, in standby) that raised no
    exception. *)
Lemma quiet_step_facts (now : Z) (cpu c1 cpu' : rv_cpu_t)
    (m m1 m' : physmem) :
  executed cpu m = Some (rv_exc_none, c1, m1) ->
  rv_cpu_step now cpu m = Some (cpu', m') ->
  m' = m1
  /\ regs cpu' = <[0%nat := 0]> (regs c1)
  /\ match interrupt_to_take (account now c1 false) with
     | None =>
         cpu' = step_epilogue (step_advance (account now c1 false))
         /\ stdby cpu' = stdby c1
         /\ priv_mode cpu' = priv_mode c1
         /\ pc cpu' = (if stdby c1 then pc c1 else pc_next c1)
         /\ instret (csr cpu') = instret (csr (account now c1 false))
     | Some (t, i) =>
         trap_taken t (pc_next c1) (rv_exc_val i) (tval_next (csr c1)) cpu'
         /\ instret (csr cpu') = instret (csr (account now c1 false))
     end.
Proof.
  intros He. rewrite rv_cpu_step_eq, He. cbv zeta.
  rewrite (bool_decide_true (rv_exc_none = rv_exc_none)) by reflexivity.
  cbn [negb]. rewrite try_handle_interrupt_deliver.
  destruct (account_fields now c1 false)
    as (Hr & Hpc & Hpn & Hpr & Hs & _ & Htv).
  destruct (interrupt_to_take (account now c1 false)) as [[t i]|] eqn:Ei.
  - assert (Hi := interrupt_to_take_interrupt _ _ _ Ei).
    destruct (deliver (account now c1 false) (Some (t, i))) as [c'|] eqn:Et;
      [|discriminate].
    assert (Et' : (match t with to_M => m_trap | to_S => s_trap end)
                    (account now c1 false) i = Some c')
      by (destruct t; exact Et).
    clear Et. rename Et' into Et.
    intros [= <- <-]. apply trap_facts in Et.
    rewrite Hi, Hpn, Htv, Hr in Et. destruct Et as (Ht & _ & Hr' & Hin).
    destruct (step_epilogue_fields (step_advance c'))
      as (_ & -> & _ & _ & _ & _ & -> & _).
    destruct (step_advance_fields c') as (-> & _ & _ & -> & _).
    rewrite Hr', Hin.
    split; [reflexivity|]. split; [reflexivity|].
    split; [now apply trap_taken_epilogue|reflexivity].
  - intros [= <- <-].
    destruct (step_epilogue_fields (step_advance (account now c1 false)))
      as (_ & -> & -> & _ & -> & -> & -> & _).
    destruct (step_advance_fields (account now c1 false))
      as (-> & -> & -> & -> & -> & _).
    rewrite Hr, Hs, Hpr, Hpc, Hpn. repeat split.
Qed.

(** A step of a hart in standby touches no memory and retires nothing.
    The hart stays in standby, where it was, exactly when accounting
    leaves no interrupt to take; an interrupt wakes it, and the return
    address is the [pc_next] the hart went to sleep with. *)
Theorem standby_step (now : Z) (cpu cpu' : rv_cpu_t) (m m' : physmem) :
  stdby cpu = true ->
  rv_cpu_step now cpu m = Some (cpu', m') ->
  m' = m
  /\ instret (csr cpu') = instret (csr cpu)
  /\ match interrupt_to_take (account now cpu false) with
     | None => stdby cpu' = true /\ priv_mode cpu' = priv_mode cpu
               /\ pc cpu' = pc cpu /\ pc_next cpu' = pc_next cpu
     | Some (t, i) =>
         trap_taken t (pc_next cpu) (rv_exc_val i) (tval_next (csr cpu)) cpu'
     end.
Proof.
  intros Hs Hstep.
  assert (He : executed cpu m = Some (rv_exc_none, cpu, m))
    by (unfold executed; now rewrite Hs).
  destruct (quiet_step_facts now cpu cpu cpu' m m m' He Hstep)
    as (-> & _ & H).
  assert (Hin : instret (csr (account now cpu false)) = instret (csr cpu)).
  { rewrite account_instret, Hs.
    destruct (Z.testbit (mcountinhibit (csr cpu)) 2); reflexivity. }
  split; [reflexivity|].
  destruct (interrupt_to_take (account now cpu false)) as [[t i]|].
  - destruct H as [Ht ->]. now split.
  - destruct H as (-> & Hs' & Hp & Hpc & ->). rewrite Hs in Hs', Hpc.
    split; [exact Hin|]. repeat split; try assumption.
    destruct (step_epilogue_fields (step_advance (account now cpu false)))
      as (_ & _ & _ & -> & _).
    destruct (step_advance_fields (account now cpu false))
      as (_ & _ & _ & _ & _ & ->).
    destruct (account_fields now cpu false) as (_ & _ & -> & _ & -> & _).
    now rewrite Hs.
Qed.

(** A step whose instruction raised no exception: memory is as the
    instruction left it and, [x0] apart, so are the registers.  With no
    interrupt to take the hart moves to [pc_next], unless the instruction
    put it in standby; an interrupt taken in the same step returns to
    [pc_next], the instruction after the one just run. *)
Theorem step_without_exception (now : Z) (cpu c1 cpu' : rv_cpu_t)
    (m m1 m' : physmem) :
  stdby cpu = false ->
  execute cpu m = Some (rv_exc_none, c1, m1) ->
  rv_cpu_step now cpu m = Some (cpu', m') ->
  m' = m1
  /\ regs cpu' = <[0%nat := 0]> (regs c1)
  /\ match interrupt_to_take (account now c1 false) with
     | None => stdby cpu' = stdby c1
               /\ priv_mode cpu' = priv_mode c1
               /\ pc cpu' = (if stdby c1 then pc c1 else pc_next c1)
     | Some (t, i) =>
         trap_taken t (pc_next c1) (rv_exc_val i) (tval_next (csr c1)) cpu'
     end.
Proof.
  intros Hs Hex Hstep.
  assert (He : executed cpu m = Some (rv_exc_none, c1, m1))
    by (unfold executed; now rewrite Hs).
  destruct (quiet_step_facts now cpu c1 cpu' m m1 m' He Hstep)
    as (-> & Hr & H).
  split; [reflexivity|]. split; [exact Hr|].
  destruct (interrupt_to_take (account now c1 false)) as [[t i]|].
  - apply H.
  - destruct H as (_ & ? & ? & ? & _). now repeat split.
Qed.

(** The step after an instruction that raised [ex]. *)
Lemma exception_step_facts (now : Z) (cpu c1 cpu' : rv_cpu_t)
    (m m1 m' : physmem) (ex : rv_exc_t) :
  executed cpu m = Some (ex, c1, m1) ->
  ex <> rv_exc_none ->
  rv_cpu_step now cpu m = Some (cpu', m') ->
  m' = m1
  /\ regs cpu' = <[0%nat := 0]> (regs c1)
  /\ instret (csr cpu') = instret (csr c1)
  /\ trap_taken (exception_target c1 ex)
       (if exc_is_interrupt ex then pc_next c1 else pc c1)
       (rv_exc_val ex) (tval_next (csr c1)) cpu'.
Proof.
  intros He Hex. rewrite rv_cpu_step_eq, He. cbv zeta.
  rewrite (bool_decide_false (ex = rv_exc_none)) by assumption.
  cbn [negb]. rewrite handle_exception_target by assumption.
  destruct (account_fields now c1 true)
    as (Hr & Hpc & Hpn & Hpr & Hs & Hmd & Htv).
  assert (Ht : exception_target (account now c1 true) ex
               = exception_target c1 ex)
    by (unfold exception_target; now rewrite Hmd, Hpr).
  rewrite Ht.
  destruct ((match exception_target c1 ex with
             | to_M => m_trap | to_S => s_trap end)
              (account now c1 true) ex) as [c'|] eqn:Et; [|discriminate].
  intros [= <- <-]. apply trap_facts in Et.
  rewrite Hpc, Hpn, Htv, Hr in Et. destruct Et as (Htk & _ & Hr' & Hin).
  destruct (step_epilogue_fields (step_advance c'))
    as (_ & -> & _ & _ & _ & _ & -> & _).
  destruct (step_advance_fields c') as (-> & _ & _ & -> & _).
  rewrite Hr', Hin, account_instret.
  replace (Z.testbit (mcountinhibit (csr c1)) 2 || true || stdby c1)
    with true by (destruct (Z.testbit (mcountinhibit (csr c1)) 2);
                  reflexivity).
  split; [reflexivity|]. split; [reflexivity|]. split; [reflexivity|].
  now apply trap_taken_epilogue.
Qed.

(** A step whose instruction raised an exception takes that exception and
    no interrupt: the trap goes to the mode [medeleg] selects, the return
    address is the [pc] of the instruction, the trap value is the
    [tval_next] the instruction left, and nothing is retired. *)
Theorem step_with_exception (now : Z) (cpu c1 cpu' : rv_cpu_t)
    (m m1 m' : physmem) (ex : rv_exc_t) :
  stdby cpu = false ->
  execute cpu m = Some (ex, c1, m1) ->
  ex <> rv_exc_none ->
  exc_is_interrupt ex = false ->
  rv_cpu_step now cpu m = Some (cpu', m') ->
  m' = m1
  /\ regs cpu' = <[0%nat := 0]> (regs c1)
  /\ instret (csr cpu') = instret (csr c1)
  /\ trap_taken (exception_target c1 ex) (pc c1) (rv_exc_val ex)
       (tval_next (csr c1)) cpu'.
Proof.
  intros Hs Hexec Hex Hni Hstep.
  assert (He : executed cpu m = Some (ex, c1, m1))
    by (unfold executed; now rewrite Hs).
  pose proof (exception_step_facts now cpu c1 cpu' m m1 m' ex He Hex Hstep)
    as H.
  now rewrite Hni in H.
Qed.

(** A step whose fetch address does not translate: nothing is fetched or
    executed, memory is as the walk left it, and the hart takes an
    instruction page fault whose return address is the [pc] of the fetch
    and whose trap value is the [tval_next] of the hart on entry. *)
Theorem fetch_fault_step (now : Z) (cpu cpu' : rv_cpu_t) (m m1 m' : physmem)
    (ex : rv_exc_t) (phys : option Z) :
  stdby cpu = false ->
  rv_convert_addr cpu (pc cpu) false true true m = Some (ex, phys, m1) ->
  ex <> rv_exc_none ->
  rv_cpu_step now cpu m = Some (cpu', m') ->
  execute cpu m = Some (rv_exc_instruction_page_fault, cpu, m1)
  /\ m' = m1
  /\ regs cpu' = <[0%nat := 0]> (regs cpu)
  /\ instret (csr cpu') = instret (csr cpu)
  /\ trap_taken (exception_target cpu rv_exc_instruction_page_fault)
       (pc cpu) (rv_exc_val rv_exc_instruction_page_fault)
       (tval_next (csr cpu)) cpu'.
Proof.
  intros Hs Hconv Hex Hstep.
  assert (Hpf : ex = rv_exc_instruction_page_fault).
  { destruct (rv_convert_addr_cases _ _ _ _ _ _ _ _ _ Hconv) as [[? _]|[? _]];
      [contradiction|assumption]. }
  subst ex.
  assert (Hexec : execute cpu m
                  = Some (rv_exc_instruction_page_fault, cpu, m1)).
  { unfold execute. rewrite Hconv.
    now rewrite (bool_decide_false _ Hex). }
  split; [exact Hexec|].
  assert (He : executed cpu m
               = Some (rv_exc_instruction_page_fault, cpu, m1))
    by (unfold executed; now rewrite Hs).
  exact (exception_step_facts now cpu cpu cpu' m m1 m' _ He Hex Hstep).
Qed.

(** A step whose instruction is reported illegal by its executor traps
    with the instruction word, as read from the translated fetch address,
    as trap value. *)
Theorem illegal_instruction_step (now : Z) (cpu c1 cpu' : rv_cpu_t)
    (m m1 m2 m3 m4 m' : physmem) (phys w : Z) (f : rv_instr_func_t) :
  stdby cpu = false ->
  rv_convert_addr cpu (pc cpu) false true true m
    = Some (rv_exc_none, Some phys, m1) ->
  fetch_instr cpu phys m1 = Some (f, m2) ->
  physmem_read32 (mhartid (csr cpu)) phys true m2 = (w, m3) ->
  f cpu w m3 = (rv_exc_illegal_instruction, c1, m4) ->
  rv_cpu_step now cpu m = Some (cpu', m') ->
  m' = m4
  /\ regs cpu' = <[0%nat := 0]> (regs c1)
  /\ trap_taken (exception_target c1 rv_exc_illegal_instruction)
       (pc c1) (rv_exc_val rv_exc_illegal_instruction) w cpu'.
Proof.
  intros Hs Hconv Hf Hr Hrun Hstep.
  assert (Hexec : execute cpu m
                  = Some (rv_exc_illegal_instruction,
                          upd_csr (csr_set_tval_next w) c1, m4)).
  { unfold execute. rewrite Hconv.
    rewrite (bool_decide_true (rv_exc_none = rv_exc_none)) by reflexivity.
    cbn [negb]. cbv zeta. change (default 0 (Some phys)) with phys.
    rewrite Hf, Hr, Hrun.
    now rewrite (bool_decide_true
                   (rv_exc_illegal_instruction = rv_exc_illegal_instruction))
      by reflexivity. }
  assert (He : executed cpu m
               = Some (rv_exc_illegal_instruction,
                       upd_csr (csr_set_tval_next w) c1, m4))
    by (unfold executed; now rewrite Hs).
  assert (Hex : rv_exc_illegal_instruction <> rv_exc_none) by discriminate.
  destruct (exception_step_facts now cpu _ cpu' m m4 m' _ He Hex Hstep)
    as (-> & Hregs & _ & Ht).
  split; [reflexivity|]. split; [exact Hregs|].
  destruct c1 as [? ? ? c ? ? ? ?]; destruct c. exact Ht.
Qed.

(** * Translation *)

Lemma is_access_allowed_spec (cpu : rv_cpu_t) (pte : sv32_pte_t)
    (wr fetch : bool) :
  is_access_allowed cpu pte wr fetch = true
  <-> access_permitted cpu pte wr fetch.
Proof.
  unfold is_access_allowed, access_permitted, rv_csr_sstatus_mxr,
    rv_csr_sstatus_sum, rv_csr_sstatus_mxr_mask, rv_csr_sstatus_sum_mask.
  cbv zeta.
  rewrite (is_set_bit _ 19), (is_set_bit _ 18) by lia.
  unfold rv_smode, rv_umode.
  destruct (Z.eqb_spec (sv32_effective_priv cpu) 1) as [Hs|Hs],
           (Z.eqb_spec (sv32_effective_priv cpu) 0) as [Hu|Hu];
    try lia;
    destruct wr, fetch, (pte_w pte), (pte_x pte), (pte_r pte), (pte_u pte),
      (Z.testbit (mstatus (csr cpu)) 19),
      (Z.testbit (mstatus (csr cpu)) 18);
    cbn; split; intros H; try discriminate; try reflexivity;
    try (repeat split; intros; try discriminate; try congruence;
         auto; fail);
    try (destruct H as (H1 & H2 & H3 & H4 & H5);
         first [ specialize (H1 eq_refl); discriminate
               | specialize (H2 eq_refl); discriminate
               | specialize (H5 Hu); discriminate
               | destruct (H4 Hs eq_refl); discriminate
               | destruct (H3 eq_refl eq_refl) as [|[? ?]]; discriminate ]).
Qed.

Lemma sv32_walk_reads_leaf (cpu : rv_cpu_t) (virt : Z) (noisy : bool)
    (m : physmem) (w a : Z) :
  fst (sv32_walk_reads cpu virt noisy m) = Some (w, a) ->
  is_pte_valid (pte_from_uint w) = true
  /\ is_pte_leaf (pte_from_uint w) = true.
Proof.
  unfold sv32_walk_reads. cbv zeta.
  destruct (physmem_read32 _ _ noisy m) as [v1 m1].
  destruct (is_pte_valid (pte_from_uint v1)) eqn:Ev1; cbn [negb fst];
    [|discriminate].
  destruct (is_pte_leaf (pte_from_uint v1)) eqn:El1; cbn [fst].
  - destruct (pte_ppn0 (pte_from_uint v1) =? 0); [|discriminate].
    now intros [= <- <-].
  - destruct (physmem_read32 _ _ noisy m1) as [v0 m0]. cbn [fst].
    destruct (is_pte_valid (pte_from_uint v0)) eqn:Ev0; cbn [andb];
      [|discriminate].
    destruct (is_pte_leaf (pte_from_uint v0)) eqn:El0; [|discriminate].
    now intros [= <- <-].
Qed.

(** With translation on, [rv_convert_addr] succeeds exactly when the walk
    reaches a valid leaf entry whose permissions allow the access: W for a
    store, X for a fetch, R (or X under [MXR]) for a load, U only from
    U-mode or from S-mode data accesses under [SUM].  Every other outcome
    is the page fault of the access, with no physical address. *)
Theorem translation_succeeds_iff_permitted (cpu : rv_cpu_t) (virt : Z)
    (wr fetch noisy : bool) (m : physmem) :
  wr && fetch = false ->
  satp_active cpu = true ->
  exists ex phys m',
    rv_convert_addr cpu virt wr fetch noisy m = Some (ex, phys, m')
    /\ (ex = rv_exc_none <->
        exists w a,
          fst (sv32_walk_reads cpu virt noisy m) = Some (w, a)
          /\ is_pte_valid (pte_from_uint w) = true
          /\ is_pte_leaf (pte_from_uint w) = true
          /\ access_permitted cpu (pte_from_uint w) wr fetch)
    /\ (ex <> rv_exc_none ->
        ex = page_fault_exception wr fetch /\ phys = None).
Proof.
  intros Hwf Hon. rewrite rv_convert_addr_reads by assumption.
  pose proof (sv32_walk_reads_leaf cpu virt noisy m) as Hleaf.
  assert (Hpf : page_fault_exception wr fetch <> rv_exc_none)
    by (unfold page_fault_exception; destruct fetch, wr; discriminate).
  destruct (sv32_walk_reads cpu virt noisy m) as [[[w a]|] m1]; cbn [fst] in *.
  - destruct (is_access_allowed cpu (pte_from_uint w) wr fetch) eqn:Ea.
    + eexists _, _, _. split; [reflexivity|]. split; [|congruence].
      split; [|reflexivity]. intros _. exists w, a.
      destruct (Hleaf w a eq_refl) as [Hv Hl].
      split; [reflexivity|]. split; [exact Hv|]. split; [exact Hl|].
      now apply is_access_allowed_spec.
    + eexists _, _, _. split; [reflexivity|]. split; [|now split].
      split; [intros He; now rewrite He in Hpf|].
      intros (w' & a' & [= <- <-] & _ & _ & Hp).
      apply is_access_allowed_spec in Hp. congruence.
  - eexists _, _, _. split; [reflexivity|]. split; [|now split].
    split; [intros He; now rewrite He in Hpf|].
    intros (w' & a' & Hn & _). discriminate.
Qed.

Ltac eval_cmp :=
  repeat match goal with
  | |- context [?a =? ?b] =>
    is_ground a; is_ground b;
    let v := eval vm_compute in (a =? b) in change (a =? b) with v
  | |- context [?a <=? ?b] =>
    is_ground a; is_ground b;
    let v := eval vm_compute in (a <=? b) in change (a <=? b) with v
  | |- context [?a <? ?b] =>
    is_ground a; is_ground b;
    let v := eval vm_compute in (a <? b) in change (a <? b) with v
  end.

Lemma testbit_b2z (b : bool) (j : Z) :
  Z.testbit (Z.b2z b) j = b && (j =? 0).
Proof.
  destruct b; cbn [Z.b2z andb]; [|apply Z.bits_0].
  change 1 with (Z.shiftl 1 0). apply testbit_bit. lia.
Qed.

Lemma testbit_field (x n k i : Z) :
  0 <= n -> 0 <= k ->
  Z.testbit (Z.shiftl (Z.land x (Z.ones n)) k) i
  = (k <=? i) && (i <? k + n) && Z.testbit x (i - k).
Proof.
  intros Hn Hk. rewrite testbit_shiftl by assumption.
  destruct (Z.leb_spec k i) as [Hle|Hlt].
  - rewrite Z.land_spec, Z.testbit_ones_nonneg by lia.
    destruct (Z.ltb_spec (i - k) n), (Z.ltb_spec i (k + n)); try lia;
      cbn [andb]; rewrite ?andb_true_r, ?andb_false_r; reflexivity.
  - now rewrite Z.testbit_neg_r by lia.
Qed.

Lemma testbit_flag (b : bool) (k i : Z) :
  0 <= k -> Z.testbit (Z.shiftl (Z.b2z b) k) i = b && (i =? k).
Proof.
  intros Hk. rewrite testbit_shiftl, testbit_b2z by assumption.
  f_equal. destruct (Z.eqb_spec (i - k) 0), (Z.eqb_spec i k);
    try reflexivity; lia.
Qed.

(** The bits of the word of an entry. *)
Lemma testbit_uint_from_pte (pte : sv32_pte_t) (i : Z) :
  0 <= i ->
  Z.testbit (uint_from_pte pte) i
  = if i =? 0 then pte_v pte else if i =? 1 then pte_r pte
    else if i =? 2 then pte_w pte else if i =? 3 then pte_x pte
    else if i =? 4 then pte_u pte else if i =? 5 then pte_g pte
    else if i =? 6 then pte_a pte else if i =? 7 then pte_d pte
    else if i <? 10 then Z.testbit (pte_rsw pte) (i - 8)
    else if i <? 32 then Z.testbit (pte_ppn pte) (i - 10)
    else false.
Proof.
  intros Hi. unfold uint_from_pte.
  change (Z.land (pte_rsw pte) 0x3) with (Z.land (pte_rsw pte) (Z.ones 2)).
  change 0x3FFFFF with (Z.ones 22).
  rewrite !Z.lor_spec, !testbit_field, !testbit_flag, testbit_b2z by lia.
  repeat match goal with
  | |- context [if i =? ?k then _ else _] =>
    destruct (Z.eqb_spec i k);
      [subst; eval_cmp; cbn [andb orb];
       rewrite ?andb_false_r, ?andb_true_r, ?orb_false_r; reflexivity|]
  end.
  rewrite ?andb_false_r. cbn [orb].
  destruct (Z.leb_spec 8 i), (Z.ltb_spec i (8 + 2)), (Z.ltb_spec i 10),
    (Z.leb_spec 10 i), (Z.ltb_spec i (10 + 22)), (Z.ltb_spec i 32);
    try lia; cbn [andb orb]; rewrite ?orb_false_r; reflexivity.
Qed.

Lemma testbit_pte_from_uint (w i : Z) :
  0 <= w < 2 ^ 32 -> 0 <= i ->
  Z.testbit (uint_from_pte (pte_from_uint w)) i = Z.testbit w i.
Proof.
  intros Hw Hi. rewrite testbit_uint_from_pte by assumption.
  unfold pte_from_uint.
  cbn [pte_v pte_r pte_w pte_x pte_u pte_g pte_a pte_d pte_rsw pte_ppn].
  change (Z.land (Z.shiftr w 8) 0x3)
    with (Z.land (Z.shiftr w 8) (Z.ones 2)).
  change 0x3FFFFF with (Z.ones 22).
  repeat match goal with
  | |- context [i =? ?k] =>
    destruct (Z.eqb_spec i k); [subst; reflexivity|]
  end.
  destruct (Z.ltb_spec i 10).
  - rewrite Z.land_spec, Z.shiftr_spec, Z.testbit_ones_nonneg by lia.
    replace (i - 8 + 8) with i by lia.
    destruct (Z.ltb_spec (i - 8) 2); [apply andb_true_r|lia].
  - destruct (Z.ltb_spec i 32).
    + rewrite Z.land_spec, Z.shiftr_spec, Z.testbit_ones_nonneg by lia.
      replace (i - 10 + 10) with i by lia.
      destruct (Z.ltb_spec (i - 10) 22); [apply andb_true_r|lia].
    + symmetry. now apply testbit_u32_high.
Qed.

(** The word of the entry the walk marks: the word read, with the accessed
    bit and, for a store, the dirty bit. *)
Lemma uint_from_pte_touched (w : Z) (wr : bool) :
  0 <= w < 2 ^ 32 ->
  uint_from_pte (pte_touched (pte_from_uint w) wr) = pte_word_touched w wr.
Proof.
  intros Hw. apply Z.bits_inj'; intros i Hi.
  unfold pte_word_touched. rewrite Z.lor_spec.
  rewrite <- (testbit_pte_from_uint w i) by assumption.
  rewrite !testbit_uint_from_pte by assumption.
  unfold pte_touched, pte_set_a, pte_set_d. cbv zeta.
  cbn [pte_v pte_r pte_w pte_x pte_u pte_g pte_a pte_d pte_rsw pte_ppn].
  repeat match goal with
  | |- context [i =? ?k] =>
    destruct (Z.eqb_spec i k);
      [subst; destruct wr; eval_testbit;
       rewrite ?orb_false_r, ?orb_true_r; reflexivity|]
  end.
  assert (Hhi : Z.testbit (if wr then 0xC0 else 0x40) i = false).
  { destruct wr.
    - change 0xC0 with (Z.shiftl (Z.ones 2) 6).
      rewrite testbit_shiftl, Z.testbit_ones by lia.
      destruct (Z.leb_spec 0 (i - 6)), (Z.ltb_spec (i - 6) 2);
        try reflexivity; lia.
    - change 0x40 with (Z.shiftl 1 6). rewrite testbit_bit by lia.
      destruct (Z.eqb_spec i 6); [lia|reflexivity]. }
  rewrite Hhi. now rewrite orb_false_r.
Qed.

(** What a translation does to memory.  Without the walk, nothing.  A
    walk that faults, and any quiet walk, only performs its reads.  A
    noisy walk that succeeds writes one word after them: the leaf entry,
    at its own address, with the accessed bit set, the dirty bit set for
    a store, and every other bit as read. *)
Theorem translation_memory_effect (cpu : rv_cpu_t) (virt : Z)
    (wr fetch noisy : bool) (m : physmem)
    (ex : rv_exc_t) (phys : option Z) (m' : physmem) :
  rv_convert_addr cpu virt wr fetch noisy m = Some (ex, phys, m') ->
  (satp_active cpu = false -> m' = m)
  /\ (satp_active cpu = true ->
      (ex <> rv_exc_none \/ noisy = false ->
       m' = snd (sv32_walk_reads cpu virt noisy m))
      /\ (ex = rv_exc_none -> noisy = true ->
          exists w a,
            fst (sv32_walk_reads cpu virt noisy m) = Some (w, a)
            /\ (0 <= w < 2 ^ 32 ->
                m' = snd (physmem_write32 (mhartid (csr cpu)) a
                            (pte_word_touched w wr) true
                            (snd (sv32_walk_reads cpu virt noisy m)))))).
Proof.
  intros H.
  assert (Hwf : wr && fetch = false).
  { unfold rv_convert_addr in H. now destruct (wr && fetch). }
  assert (Hpf : page_fault_exception wr fetch <> rv_exc_none)
    by (unfold page_fault_exception; destruct fetch, wr; discriminate).
  split; intros Hon.
  - rewrite rv_convert_addr_inactive in H by assumption. congruence.
  - rewrite rv_convert_addr_reads in H by assumption.
    destruct (sv32_walk_reads cpu virt noisy m) as [[[w a]|] m1];
      cbn [fst snd].
    + destruct (is_access_allowed cpu (pte_from_uint w) wr fetch).
      * injection H as <- _ <-. split.
        -- intros [Hne | ->]; [congruence|reflexivity].
        -- intros _ ->. exists w, a. split; [reflexivity|].
           intros Hw. now rewrite uint_from_pte_touched.
      * injection H as <- _ <-. split; [reflexivity|congruence].
    + injection H as <- _ <-. split; [reflexivity|congruence].
Qed.

Lemma make_phys_from_ppn_bound (virt : Z) (pte : sv32_pte_t)
    (megapage : bool) :
  0 <= make_phys_from_ppn virt pte megapage < 2 ^ 34.
Proof.
  assert (Hmod : make_phys_from_ppn virt pte megapage mod 2 ^ 34
                 = make_phys_from_ppn virt pte megapage).
  { apply Z.bits_inj'; intros i Hi.
    rewrite Z.testbit_mod_pow2 by lia.
    destruct (Z.ltb_spec i 34) as [Hlt|Hge]; [reflexivity|].
    cbn [andb]. symmetry.
    unfold make_phys_from_ppn, pte_ppn0, pte_ppn1. cbv zeta.
    rewrite !Z.lor_spec.
    assert (H1 : Z.testbit (Z.shiftl (Z.land (pte_ppn pte) 0x3FFC00) 12) i
                 = false).
    { rewrite testbit_shiftl, Z.land_spec by lia.
      rewrite (testbit_high 0x3FFC00 22 (i - 12)) by lia.
      apply andb_false_r. }
    assert (H2 : Z.testbit (if megapage then Z.land virt 0x003FF000
                            else Z.shiftl (Z.land (pte_ppn pte) 0x0003FF) 12)
                   i = false).
    { destruct megapage.
      - rewrite Z.land_spec, (testbit_high 0x003FF000 22 i) by lia.
        apply andb_false_r.
      - rewrite testbit_shiftl, Z.land_spec by lia.
        rewrite (testbit_high 0x0003FF 10 (i - 12)) by lia.
        apply andb_false_r. }
    assert (H3 : Z.testbit (Z.land virt 0x00000FFF) i = false).
    { rewrite Z.land_spec, (testbit_high 0x00000FFF 12 i) by lia.
      apply andb_false_r. }
    now rewrite H1, H2, H3. }
  rewrite <- Hmod. apply Z.mod_pos_bound. lia.
Qed.

(** The physical address of a translated 32-bit virtual address has 34
    bits: with translation off it is the virtual address, with
    translation on it is built from a 22-bit page number and 12 bits of
    offset. *)
Theorem translation_address_bound (cpu : rv_cpu_t) (virt : Z)
    (wr fetch noisy : bool) (m : physmem) (phys : Z) (m' : physmem) :
  0 <= virt < 2 ^ 32 ->
  rv_convert_addr cpu virt wr fetch noisy m
    = Some (rv_exc_none, Some phys, m') ->
  0 <= phys < 2 ^ 34
  /\ (satp_active cpu = false -> phys = virt).
Proof.
  intros Hv H.
  assert (Hwf : wr && fetch = false).
  { unfold rv_convert_addr in H. now destruct (wr && fetch). }
  destruct (satp_active cpu) eqn:Hon.
  - split; [|discriminate].
    rewrite rv_convert_addr_reads in H by assumption.
    destruct (sv32_walk_reads cpu virt noisy m) as [[[w a]|] m1];
      [|discriminate].
    destruct (is_access_allowed cpu (pte_from_uint w) wr fetch);
      [|discriminate].
    injection H as <- _. apply make_phys_from_ppn_bound.
  - rewrite rv_convert_addr_inactive in H by assumption.
    injection H as <- _. split; [lia|reflexivity].
Qed.

(** * Loads, stores and the timer registers *)

Lemma timer_offset_fits (virt : Z) (w : store_width) :
  IS_ALIGNED virt (store_bits w / 8) = true ->
  0 <= Z.land virt 0x7 * 8
  /\ Z.land virt 0x7 * 8 + store_bits w <= 64.
Proof.
  unfold IS_ALIGNED. intros H. apply Z.eqb_eq in H.
  change 0x7 with (Z.ones 3). rewrite Z.land_ones by lia.
  destruct w; cbn [store_bits] in *.
  - pose proof (Z.mod_pos_bound virt (2 ^ 3)). lia.
  - change (16 / 8 - 1) with (Z.ones 1) in H.
    rewrite Z.land_ones in H by lia.
    change (2 ^ 1) with 2 in H. change (2 ^ 3) with 8.
    pose proof (Z.mod_pos_bound virt 8).
    assert (virt mod 8 <> 7) by
      (intros E; pose proof (Z.div_mod virt 8); pose proof (Z.div_mod virt 2);
       lia).
    lia.
  - change (32 / 8 - 1) with (Z.ones 2) in H.
    rewrite Z.land_ones in H by lia.
    change (2 ^ 2) with 4 in H. change (2 ^ 3) with 8.
    pose proof (Z.mod_pos_bound virt 8).
    assert (virt mod 8 = 0 \/ virt mod 8 = 4) by
      (pose proof (Z.div_mod virt 8); pose proof (Z.div_mod virt 4); lia).
    lia.
Qed.

(** The bits written into a 64-bit register are the bits read back. *)
Lemma write_extract (old v off w : Z) :
  0 <= off -> 0 < w -> off + w <= 64 ->
  EXTRACT_BITS (u64 (WRITE_BITS old v off (off + w))) off (off + w) mod 2 ^ w
  = v mod 2 ^ w.
Proof.
  intros Hoff Hw Hfit. unfold EXTRACT_BITS, WRITE_BITS, u64.
  replace (off + w - off) with w by lia.
  apply Z.bits_inj'; intros i Hi.
  rewrite !Z.testbit_mod_pow2 by lia.
  destruct (Z.ltb_spec i w) as [Hlt|Hge]; [|reflexivity]. cbn [andb].
  rewrite Z.land_spec, Z.shiftr_spec, Z.testbit_mod_pow2 by lia.
  rewrite Z.lor_spec, Z.land_spec, Z.lnot_spec, !testbit_shiftl by lia.
  rewrite Z.land_spec. replace (i + off - off) with i by lia.
  rewrite !Z.testbit_ones_nonneg by lia.
  destruct (Z.ltb_spec (i + off) 64), (Z.ltb_spec i w); try lia.
  cbn [negb andb]. now rewrite !andb_true_r, andb_false_r.
Qed.

Lemma try_write_memory_mapped_regs_Some (cpu cpu' : rv_cpu_t)
    (virt value width : Z) :
  try_write_memory_mapped_regs cpu virt value width = Some cpu' ->
  IS_ALIGNED virt (width / 8) = true
  /\ effective_priv cpu = rv_mmode
  /\ ((ALIGN_DOWN virt 8 = RV_MTIME_ADDRESS
       /\ cpu' = upd_csr (csr_set_mtime
                    (u64 (WRITE_BITS (mtime (csr cpu)) value
                            (Z.land virt 0x7 * 8)
                            (Z.land virt 0x7 * 8 + width)))) cpu)
      \/ (ALIGN_DOWN virt 8 <> RV_MTIME_ADDRESS
          /\ ALIGN_DOWN virt 8 = RV_MTIMECMP_ADDRESS
          /\ cpu' = upd_csr (csr_set_mtimecmp
                       (u64 (WRITE_BITS (mtimecmp (csr cpu)) value
                               (Z.land virt 0x7 * 8)
                               (Z.land virt 0x7 * 8 + width)))) cpu)).
Proof.
  unfold try_write_memory_mapped_regs. cbv zeta.
  destruct (IS_ALIGNED virt (width / 8)); cbn [negb]; [|discriminate].
  destruct (Z.eqb_spec (effective_priv cpu) rv_mmode); cbn [negb];
    [|discriminate].
  destruct (Z.eqb_spec (ALIGN_DOWN virt 8) RV_MTIME_ADDRESS).
  - intros [= <-]. auto.
  - destruct (Z.eqb_spec (ALIGN_DOWN virt 8) RV_MTIMECMP_ADDRESS);
      [|discriminate].
    intros [= <-]. auto 6.
Qed.

(** A store that reaches a timer register needs effective privilege M and
    an address aligned for its width; it is not translated and touches no
    memory, and changes nothing of the hart but [mtime] and [mtimecmp].
    A load of the same width from the same address then returns the value
    stored, on the bits of the width, again without touching memory. *)
Theorem timer_store_load_round_trip (w : store_width) (cpu cpu' : rv_cpu_t)
    (virt value : Z) (fetch noisy : bool) (m : physmem) :
  try_write_memory_mapped_regs cpu virt (value mod 2 ^ store_bits w)
                               (store_bits w) = Some cpu' ->
  effective_priv cpu = rv_mmode
  /\ IS_ALIGNED virt (store_bytes w) = true
  /\ rv_write_mem w cpu virt value noisy m = Some (rv_exc_none, cpu', m)
  /\ outside_timer cpu' = outside_timer cpu
  /\ rv_read_mem w cpu' virt fetch noisy m
     = Some (rv_exc_none, Some (value mod 2 ^ store_bits w), cpu', m).
Proof.
  intros H.
  assert (Hwrite : rv_write_mem w cpu virt value noisy m
                   = Some (rv_exc_none, cpu', m)).
  { destruct w; cbn [rv_write_mem store_bits] in *;
      unfold rv_write_mem8, rv_write_mem16, rv_write_mem32;
      now rewrite H. }
  destruct (try_write_memory_mapped_regs_Some _ _ _ _ _ H)
    as (Hal & Hpriv & Hreg).
  assert (Hbytes : store_bits w / 8 = store_bytes w) by now destruct w.
  destruct (timer_offset_fits virt w Hal) as [Hoff Hfit].
  assert (Hbits : 0 < store_bits w) by now destruct w.
  assert (Hidem : (value mod 2 ^ store_bits w) mod 2 ^ store_bits w
                  = value mod 2 ^ store_bits w)
    by (apply Z.mod_mod; destruct w; discriminate).
  assert (Hread : try_read_memory_mapped_regs cpu' virt (store_bits w)
                  = Some (value mod 2 ^ store_bits w)).
  { unfold try_read_memory_mapped_regs. cbv zeta. rewrite Hal. cbn [negb].
    assert (Hpriv' : effective_priv cpu' = rv_mmode).
    { rewrite <- Hpriv.
      destruct Hreg as [[_ ->] | (_ & _ & ->)];
        destruct cpu as [? ? ? c ? ? ? ?]; destruct c; reflexivity. }
    rewrite Hpriv'. cbn [Z.eqb rv_mmode Pos.eqb negb].
    destruct Hreg as [[Ha ->] | (Hna & Ha & ->)].
    - rewrite Ha, Z.eqb_refl.
      destruct cpu as [? ? ? c ? ? ? ?]; destruct c.
      cbn [upd_csr set_csr csr csr_set_mtime mtime].
      now rewrite write_extract, Hidem by lia.
    - destruct (Z.eqb_spec (ALIGN_DOWN virt 8) RV_MTIME_ADDRESS);
        [contradiction|].
      rewrite Ha, Z.eqb_refl.
      destruct cpu as [? ? ? c ? ? ? ?]; destruct c.
      cbn [upd_csr set_csr csr csr_set_mtimecmp mtimecmp].
      now rewrite write_extract, Hidem by lia. }
  split; [exact Hpriv|]. split; [now rewrite <- Hbytes|].
  split; [exact Hwrite|]. split.
  - destruct Hreg as [[_ ->] | (_ & _ & ->)];
      destruct cpu as [? ? ? c ? ? ? ?]; destruct c; reflexivity.
  - destruct w; cbn [rv_read_mem store_bits] in *;
      unfold rv_read_mem8, rv_read_mem16, rv_read_mem32,
        try_read_memory_mapped_regs_8, try_read_memory_mapped_regs_16,
        try_read_memory_mapped_regs_32;
      now rewrite Hread.
Qed.



(** * Setting the program counter *)

Lemma IS_ALIGNED_4 (x : Z) : IS_ALIGNED x 4 = (x mod 4 =? 0).
Proof.
  unfold IS_ALIGNED. change (4 - 1) with (Z.ones 2).
  now rewrite Z.land_ones by lia.
Qed.

(** [rv_cpu_set_pc] ignores a target that is not 4-byte aligned; an
    aligned target becomes [pc], with [pc_next] four bytes after it on 32
    bits.  Hence it keeps both program counters aligned, and it changes
    nothing else. *)
Theorem rv_cpu_set_pc_keeps_alignment (cpu : rv_cpu_t) (value : Z) :
  IS_ALIGNED (pc cpu) 4 = true ->
  IS_ALIGNED (pc_next cpu) 4 = true ->
  IS_ALIGNED (pc (rv_cpu_set_pc cpu value)) 4 = true
  /\ IS_ALIGNED (pc_next (rv_cpu_set_pc cpu value)) 4 = true
  /\ (IS_ALIGNED value 4 = false -> rv_cpu_set_pc cpu value = cpu)
  /\ (IS_ALIGNED value 4 = true ->
      pc (rv_cpu_set_pc cpu value) = value
      /\ pc_next (rv_cpu_set_pc cpu value) = (value + 4) mod 2 ^ 32)
  /\ set_pc 0 (set_pc_next 0 (rv_cpu_set_pc cpu value))
     = set_pc 0 (set_pc_next 0 cpu).
Proof.
  intros Hpc Hnext. unfold rv_cpu_set_pc.
  destruct (IS_ALIGNED value 4) eqn:Hal; cbn [negb].
  - cbv zeta. destruct cpu as [? ? ? c ? ? ? ?].
    cbn [set_pc set_pc_next pc pc_next regs csr priv_mode stdby
         reserved_valid reserved_addr].
    split; [exact Hal|]. split; [|split; [discriminate|now split]].
    rewrite IS_ALIGNED_4 in *. apply Z.eqb_eq in Hal. apply Z.eqb_eq.
    unfold u32. clear Hpc Hnext. Z.div_mod_to_equations. lia.
  - repeat split; try assumption; discriminate.
Qed.

(** * Traps and the privilege mode *)

Lemma m_trap_gate (cpu cpu' : rv_cpu_t) (ex : rv_exc_t) :
  m_trap cpu ex = Some cpu' ->
  priv_mode cpu' = rv_mmode /\ Z.testbit (mstatus (csr cpu')) 3 = false.
Proof.
  unfold m_trap. intros H.
  destruct (bool_decide (ex = rv_exc_none)); [discriminate|].
  destruct_hart cpu.
  destruct (is_set mstatus0 rv_csr_mstatus_mie_mask); hart_cbv;
    split_ifs H; try discriminate; injection H as <-;
    (split; [reflexivity|]); hart_cbv;
    rewrite Z.lor_spec, !Z.land_spec, !testbit_not32 by lia;
    unfold rv_csr_mstatus_mie_mask;
    rewrite testbit_bit, testbit_mpp_mask by lia;
    cbn; now rewrite !andb_false_r.
Qed.

Lemma s_trap_gate (cpu cpu' : rv_cpu_t) (ex : rv_exc_t) :
  s_trap cpu ex = Some cpu' ->
  priv_mode cpu' = rv_smode /\ Z.testbit (mstatus (csr cpu')) 1 = false.
Proof.
  unfold s_trap. intros H.
  destruct (bool_decide (ex = rv_exc_none)); [discriminate|].
  destruct_hart cpu.
  destruct (is_set mstatus0 rv_csr_sstatus_sie_mask); hart_cbv;
    split_ifs H; try discriminate; injection H as <-;
    (split; [reflexivity|]); hart_cbv;
    rewrite Z.lor_spec, !Z.land_spec, !testbit_not32 by lia;
    unfold rv_csr_sstatus_sie_mask, rv_csr_sstatus_spp_mask;
    rewrite !testbit_bit by lia;
    cbn; now rewrite !andb_false_r.
Qed.

Lemma interrupt_to_take_gate (cpu : rv_cpu_t) (t : trap_target)
    (i : rv_exc_t) :
  interrupt_to_take cpu = Some (t, i) ->
  match t with
  | to_M => can_trap_to_M cpu = true
  | to_S => can_trap_to_S cpu = true
  end.
Proof.
  rewrite interrupt_to_take_sets.
  destruct (can_trap_to_M cpu);
    [destruct (highest_priority m_priority _); [now intros [= <- <-]|]|];
    (destruct (can_trap_to_S cpu); [|discriminate]);
    (destruct (highest_priority s_priority _); [|discriminate]);
    now intros [= <- <-].
Qed.

(** A trap closes the gate of the mode it enters: after an entry into
    M-mode no interrupt at all is taken, and after an entry into S-mode no
    interrupt is taken in S-mode, whatever is pending and enabled. *)
Theorem trap_entry_masks_interrupts (t : trap_target) (cpu cpu' : rv_cpu_t)
    (ex : rv_exc_t) :
  (match t with to_M => m_trap | to_S => s_trap end) cpu ex = Some cpu' ->
  match t with
  | to_M => try_handle_interrupt cpu' = Some cpu'
  | to_S => forall i, interrupt_to_take cpu' <> Some (to_S, i)
  end.
Proof.
  destruct t; intros H.
  - apply m_trap_gate in H. destruct H as [Hp Hb].
    rewrite try_handle_interrupt_deliver, interrupt_to_take_sets.
    unfold can_trap_to_M, can_trap_to_S. rewrite Hp, Hb. reflexivity.
  - apply s_trap_gate in H. destruct H as [Hp Hb].
    intros i Hi. apply interrupt_to_take_gate in Hi.
    unfold can_trap_to_S in Hi. rewrite Hp, Hb in Hi. discriminate Hi.
Qed.

(** No trap lowers the privilege mode: the hart after [handle_exception]
    or [try_handle_interrupt] runs in the mode it was in or in a higher
    one. *)
Theorem traps_never_lower_privilege (cpu cpu' : rv_cpu_t) (ex : rv_exc_t) :
  priv_mode cpu = rv_umode \/ priv_mode cpu = rv_smode
  \/ priv_mode cpu = rv_mmode ->
  handle_exception cpu ex = Some cpu'
  \/ try_handle_interrupt cpu = Some cpu' ->
  priv_mode cpu <= priv_mode cpu'.
Proof.
  intros Hpriv [H | H].
  - destruct (decide (ex = rv_exc_none)) as [-> | Hex].
    + unfold handle_exception in H. rewrite m_trap_none, s_trap_none in H.
      now destruct (_ && _).
    + rewrite handle_exception_target in H by assumption.
      unfold exception_target in H.
      destruct (Z.testbit (medeleg (csr cpu)) (cause_code ex)
                && negb (priv_mode cpu =? rv_mmode)) eqn:Ed.
      * apply s_trap_gate in H. destruct H as [-> _].
        apply andb_true_iff in Ed. destruct Ed as [_ Ed].
        unfold rv_umode, rv_smode, rv_mmode in *.
        destruct (Z.eqb_spec (priv_mode cpu) 3); [discriminate|lia].
      * apply m_trap_gate in H. destruct H as [-> _].
        unfold rv_umode, rv_smode, rv_mmode in *. lia.
  - rewrite try_handle_interrupt_deliver in H.
    destruct (interrupt_to_take cpu) as [[[] i]|] eqn:Ei; cbn [deliver] in H.
    + apply m_trap_gate in H. destruct H as [-> _].
      unfold rv_umode, rv_smode, rv_mmode in *. lia.
    + apply s_trap_gate in H. destruct H as [-> _].
      apply interrupt_to_take_gate in Ei. unfold can_trap_to_S in Ei.
      unfold rv_umode, rv_smode, rv_mmode in *.
      destruct (Z.eqb_spec (priv_mode cpu) 1), (Z.ltb_spec (priv_mode cpu) 1);
        try lia; discriminate.
    + injection H as <-. lia.
Qed.

(** * Completion of a step *)

Lemma rv_convert_addr_returns (cpu : rv_cpu_t) (virt : Z)
    (wr fetch noisy : bool) (m : physmem) :
  wr && fetch = false ->
  is_Some (rv_convert_addr cpu virt wr fetch noisy m).
Proof.
  intros Hwf. destruct (satp_active cpu) eqn:Hon.
  - rewrite rv_convert_addr_reads by assumption.
    destruct (sv32_walk_reads cpu virt noisy m) as [[[w a]|] m1]; [|eauto].
    destruct (is_access_allowed cpu (pte_from_uint w) wr fetch); eauto.
  - rewrite rv_convert_addr_inactive by assumption. eauto.
Qed.

(** [execute] fails only in [fetch_instr]. *)
Lemma execute_aborts_iff (cpu : rv_cpu_t) (m : physmem) :
  execute cpu m = None
  <-> exists phys m1,
        rv_convert_addr cpu (pc cpu) false true true m
          = Some (rv_exc_none, Some phys, m1)
        /\ fetch_instr cpu phys m1 = None.
Proof.
  unfold execute.
  destruct (rv_convert_addr_returns cpu (pc cpu) false true true m eq_refl)
    as [[[ex phys] m1] Hconv].
  rewrite Hconv.
  destruct (rv_convert_addr_cases _ _ _ _ _ _ _ _ _ Hconv)
    as [[-> [p ->]] | [-> ->]].
  - rewrite (bool_decide_true (rv_exc_none = rv_exc_none)) by reflexivity.
    cbn [negb]. cbv zeta. change (default 0 (Some p)) with p.
    destruct (fetch_instr cpu p m1) as [[f m2]|] eqn:Hf.
    + destruct (physmem_read32 _ _ true m2) as [w m3].
      destruct (f cpu w m3) as [[ex' c1] m4].
      split; [discriminate|].
      intros (phys & m1' & [= <- <-] & Hn). congruence.
    + split; [|reflexivity]. intros _. exists p, m1. now split.
  - rewrite page_fault_not_none. cbn [negb].
    split; [discriminate|]. intros (phys & m1' & [=] & _).
Qed.

(** The assertions of a step: before and while the instruction runs only
    that of [fetch_instr] can fail; after it, only the one on the mode
    field of the trap vectors. *)
Lemma step_abort_cases (now : Z) (cpu : rv_cpu_t) (m : physmem) :
  (executed cpu m = None
   <-> stdby cpu = false
       /\ exists phys m1,
            rv_convert_addr cpu (pc cpu) false true true m
              = Some (rv_exc_none, Some phys, m1)
            /\ fetch_instr cpu phys m1 = None)
  /\ (forall ex c1 m1,
        executed cpu m = Some (ex, c1, m1) ->
        tvec_modes_valid c1 ->
        exists cpu', rv_cpu_step now cpu m = Some (cpu', m1))
  /\ (executed cpu m = None -> rv_cpu_step now cpu m = None).
Proof.
  split; [|split].
  - unfold executed. destruct (stdby cpu); cbn [negb].
    + split; [discriminate|]. intros [[=] _].
    + rewrite execute_aborts_iff. split; [now split|now intros [_ H]].
  - intros ex c1 m1 He Hv.
    exact (rv_cpu_step_returns now cpu m ex c1 m1 He Hv).
  - intros He. rewrite rv_cpu_step_eq, He. reflexivity.
Qed.

End Hart.

(** * The decoded-instruction cache *)

Section CacheFacts.

Context {pm : PhysMem} {ft : FrameTable} {dec : InstrDecoder}.

Lemma ALIGN_DOWN_pow2 (x k : Z) :
  0 <= k -> ALIGN_DOWN x (2 ^ k) = x - x mod 2 ^ k.
Proof.
  intros Hk. unfold ALIGN_DOWN.
  replace (2 ^ k - 1) with (Z.ones k) by (rewrite Z.ones_equiv; lia).
  rewrite <- Z.ldiff_land, Z.ldiff_ones_r by assumption.
  rewrite Z.shiftl_mul_pow2, Z.shiftr_div_pow2 by assumption.
  pose proof (Z.div_mod x (2 ^ k)). pose proof (Z.pow_pos_nonneg 2 k). lia.
Qed.

Lemma ALIGN_DOWN_frame (x : Z) :
  ALIGN_DOWN x DIC.FRAME_SIZE = x - x mod 4096.
Proof. exact (ALIGN_DOWN_pow2 x 12 ltac:(lia)). Qed.

Lemma ALIGN_DOWN_frame_idem (x : Z) :
  ALIGN_DOWN (ALIGN_DOWN x DIC.FRAME_SIZE) DIC.FRAME_SIZE
  = ALIGN_DOWN x DIC.FRAME_SIZE.
Proof.
  rewrite !ALIGN_DOWN_frame. Z.div_mod_to_equations. lia.
Qed.

(** The slot of an address lies in the array of an item. *)
Lemma PHYS2CACHEINSTR_range (phys : Z) :
  0 <= DIC.PHYS2CACHEINSTR phys < 1024.
Proof.
  unfold DIC.PHYS2CACHEINSTR, DIC.FRAME_MASK, DIC.FRAME_SIZE, DIC.INSTR_SIZE.
  change (4096 - 1) with (Z.ones 12). rewrite Z.land_ones by lia.
  Z.div_mod_to_equations. lia.
Qed.

(** The address of slot [PHYS2CACHEINSTR phys] of the frame of [phys]. *)
Lemma slot_address (phys : Z) :
  ALIGN_DOWN phys DIC.FRAME_SIZE
  + DIC.PHYS2CACHEINSTR phys * DIC.INSTR_SIZE
  = ALIGN_DOWN phys 4.
Proof.
  pose proof (ALIGN_DOWN_pow2 phys 2 ltac:(lia)) as H4.
  change (2 ^ 2) with 4 in H4. rewrite ALIGN_DOWN_frame, H4. clear H4.
  unfold DIC.PHYS2CACHEINSTR, DIC.FRAME_MASK, DIC.FRAME_SIZE, DIC.INSTR_SIZE.
  change (4096 - 1) with (Z.ones 12). rewrite Z.land_ones by lia.
  Z.div_mod_to_equations. lia.
Qed.

Lemma decode_slots_length (hart base : Z) (n : nat) (i : Z) (m : physmem) :
  length (fst (DIC.decode_slots hart base n i m)) = n.
Proof.
  revert i m. induction n as [|n IH]; intros i m; [reflexivity|].
  cbn [DIC.decode_slots].
  destruct (physmem_read32 hart _ false m) as [w m1].
  specialize (IH (i + 1) m1).
  destruct (DIC.decode_slots hart base n (i + 1) m1) as [rest m2].
  cbn [fst length] in *. now rewrite IH.
Qed.

Lemma cache_item_page_decode_wf (cpu : rv_cpu_t) (c : DIC.cache_item_t)
    (m : physmem) :
  DIC.addr (fst (DIC.cache_item_page_decode cpu c m)) = DIC.addr c
  /\ length (DIC.instrs (fst (DIC.cache_item_page_decode cpu c m)))
     = Z.to_nat (DIC.FRAME_SIZE / DIC.INSTR_SIZE).
Proof.
  unfold DIC.cache_item_page_decode.
  pose proof (decode_slots_length (mhartid (csr cpu)) (DIC.addr c)
                (Z.to_nat (DIC.FRAME_SIZE / DIC.INSTR_SIZE)) 0 m) as Hlen.
  destruct (DIC.decode_slots _ _ _ _ m) as [slots m1].
  cbn [fst DIC.addr DIC.instrs] in *. now split.
Qed.

Lemma update_cache_item_wf (cpu : rv_cpu_t) (c c' : DIC.cache_item_t)
    (m m' : physmem) :
  DIC.item_wf c ->
  DIC.update_cache_item cpu c m = Some (c', m') ->
  DIC.item_wf c' /\ DIC.addr c' = DIC.addr c.
Proof.
  intros Hwf. unfold DIC.update_cache_item.
  destruct (physmem_find_frame (DIC.addr c) m) as [frame|]; [|discriminate].
  destruct (frame_valid frame m).
  - intros [= <- <-]. now split.
  - destruct (cache_item_page_decode_wf cpu c m) as [Ha Hl].
    destruct (DIC.cache_item_page_decode cpu c m) as [c1 m1].
    cbn [fst] in *. intros [= <- <-].
    split; [|exact Ha]. split; [|exact Hl].
    rewrite Ha. apply Hwf.
Qed.

Lemma slot_in_item (c : DIC.cache_item_t) (phys : Z) :
  DIC.item_wf c ->
  is_Some (DIC.instrs c !! Z.to_nat (DIC.PHYS2CACHEINSTR phys)).
Proof.
  intros [_ Hlen]. apply lookup_lt_is_Some. rewrite Hlen.
  pose proof (PHYS2CACHEINSTR_range phys).
  change (DIC.FRAME_SIZE / DIC.INSTR_SIZE) with 1024. lia.
Qed.

Lemma cache_hit_Some (cache : list DIC.cache_item_t) (phys : Z)
    (pos : nat) (c : DIC.cache_item_t) :
  DIC.cache_hit cache phys = Some (pos, c) ->
  cache !! pos = Some c /\ DIC.addr c = ALIGN_DOWN phys DIC.FRAME_SIZE.
Proof.
  unfold DIC.cache_hit. cbv zeta. intros H.
  apply list_find_Some in H. destruct H as (Hl & Ha & _). now split.
Qed.

Lemma cache_hit_None (cache : list DIC.cache_item_t) (phys : Z) :
  DIC.cache_hit cache phys = None ->
  ALIGN_DOWN phys DIC.FRAME_SIZE ∉ map DIC.addr cache.
Proof.
  unfold DIC.cache_hit. cbv zeta. intros H.
  apply list_find_None in H. intros Hin.
  change (map DIC.addr cache) with (DIC.addr <$> cache) in Hin.
  apply list_elem_of_fmap in Hin. destruct Hin as (c & Hc & Hin).
  rewrite Forall_forall in H. exact (H c Hin (eq_sym Hc)).
Qed.

Lemma cache_hit_present (cache : list DIC.cache_item_t) (phys : Z) :
  ALIGN_DOWN phys DIC.FRAME_SIZE ∈ map DIC.addr cache ->
  is_Some (DIC.cache_hit cache phys).
Proof.
  intros Hin. destruct (DIC.cache_hit cache phys) as [r|] eqn:E; [eauto|].
  now apply cache_hit_None in E.
Qed.

(** [fetch_instr] on a well-formed cache returns an executor whenever a
    cached frame is still in RAM, and leaves the cache well formed: every
    item has a frame-aligned address and a full array, and no frame is
    cached twice.  On a hit the cached frames are the same; on a miss in
    RAM the frame of [phys] is appended; outside RAM the cache is
    unchanged.  After a hit or a miss in RAM the frame of [phys] is
    cached. *)
Theorem fetch_instr_keeps_cache_wf (cpu : rv_cpu_t) (phys : Z)
    (cache : list DIC.cache_item_t) (m : physmem) :
  DIC.cache_wf cache ->
  (is_Some (DIC.cache_hit cache phys) ->
   is_Some (physmem_find_frame (ALIGN_DOWN phys DIC.FRAME_SIZE) m)) ->
  exists f cache' m',
    DIC.fetch_instr cpu phys cache m = Some (f, cache', m')
    /\ DIC.cache_wf cache'
    /\ match DIC.cache_hit cache phys, physmem_find_frame phys m with
       | Some _, _ => map DIC.addr cache' = map DIC.addr cache
       | None, Some _ =>
           map DIC.addr cache'
           = map DIC.addr cache ++ [ALIGN_DOWN phys DIC.FRAME_SIZE]
       | None, None => cache' = cache
       end
    /\ (is_Some (DIC.cache_hit cache phys)
        \/ is_Some (physmem_find_frame phys m) ->
        is_Some (DIC.cache_hit cache' phys)).
Proof.
  intros [Hall Hnodup] Hram. unfold DIC.fetch_instr.
  destruct (DIC.cache_hit cache phys) as [[pos c]|] eqn:Ehit.
  - destruct (cache_hit_Some _ _ _ _ Ehit) as [Hpos Haddr].
    assert (Hc : DIC.item_wf c)
      by (eapply (proj1 (Forall_lookup _ _) Hall); exact Hpos).
    destruct (DIC.update_cache_item cpu c m) as [[c' m']|] eqn:Eup.
    + destruct (update_cache_item_wf _ _ _ _ _ Hc Eup) as [Hc' Ha'].
      destruct (slot_in_item c' phys Hc') as [f Hf]. rewrite Hf.
      assert (Hmap : map DIC.addr (<[pos := c']> cache) = map DIC.addr cache).
      { change (DIC.addr <$> <[pos := c']> cache = DIC.addr <$> cache).
        rewrite list_fmap_insert. apply list_insert_id.
        now rewrite list_lookup_fmap, Hpos, Ha'. }
      exists f, (<[pos := c']> cache), m'.
      split; [reflexivity|]. split; [|split; [exact Hmap|]].
      * split; [now apply Forall_insert|now rewrite Hmap].
      * intros _. apply cache_hit_present. rewrite Hmap, <- Haddr.
        change (DIC.addr c ∈ DIC.addr <$> cache).
        apply list_elem_of_fmap. exists c. split; [reflexivity|].
        eapply list_elem_of_lookup_2; exact Hpos.
    + exfalso. unfold DIC.update_cache_item in Eup. rewrite Haddr in Eup.
      destruct (Hram ltac:(eauto)) as [frame Hframe]. rewrite Hframe in Eup.
      destruct (frame_valid frame m); [discriminate|].
      now destruct (DIC.cache_item_page_decode cpu c m).
  - unfold DIC.cache_try_add.
    destruct (physmem_find_frame phys m) as [frame|] eqn:Eframe.
    + pose proof (cache_item_page_decode_wf cpu
                    (DIC.mk_item (ALIGN_DOWN phys DIC.FRAME_SIZE) []) m)
        as [Ha Hl].
      destruct (DIC.cache_item_page_decode cpu _ m) as [c1 m1].
      cbn [fst DIC.addr] in Ha, Hl.
      assert (Hc1 : DIC.item_wf c1).
      { split; [|exact Hl]. rewrite Ha. apply ALIGN_DOWN_frame_idem. }
      destruct (slot_in_item c1 phys Hc1) as [f Hf]. rewrite Hf.
      assert (Hmap : map DIC.addr (cache ++ [c1])
                     = map DIC.addr cache ++ [ALIGN_DOWN phys DIC.FRAME_SIZE])
        by (rewrite map_app; cbn [map]; now rewrite Ha).
      exists f, (cache ++ [c1]), (frame_set_valid frame true m1).
      split; [reflexivity|]. split; [|split; [exact Hmap|]].
      * split.
        -- apply Forall_app. split; [exact Hall|]. now constructor.
        -- rewrite Hmap. apply NoDup_app. split; [exact Hnodup|].
           split; [|apply NoDup_singleton].
           intros a Ha1 Ha2. apply list_elem_of_singleton in Ha2. subst a.
           now apply cache_hit_None in Ehit.
      * intros _. apply cache_hit_present. rewrite Hmap.
        apply elem_of_app. right. now apply list_elem_of_singleton.
    + destruct (physmem_read32 (mhartid (csr cpu)) phys true m) as [w m1].
      exists (rv_instr_decode w), cache, m1.
      split; [reflexivity|]. split; [now split|]. split; [reflexivity|].
      intros [[? [=]]|[? [=]]].
Qed.

Lemma decode_slots_pure (hart base : Z) (n : nat) (i : Z) (m : physmem) :
  (forall a m0, snd (physmem_read32 hart a false m0) = m0) ->
  snd (DIC.decode_slots hart base n i m) = m
  /\ forall k, (k < n)%nat ->
       fst (DIC.decode_slots hart base n i m) !! k
       = Some (rv_instr_decode
                 (fst (physmem_read32 hart
                         (base + (i + Z.of_nat k) * DIC.INSTR_SIZE) false m))).
Proof.
  intros Hpure. revert i m. induction n as [|n IH]; intros i m.
  - split; [reflexivity|]. intros k Hk. lia.
  - cbn [DIC.decode_slots].
    pose proof (Hpure (base + i * DIC.INSTR_SIZE) m) as Hm.
    destruct (physmem_read32 hart (base + i * DIC.INSTR_SIZE) false m)
      as [w m1] eqn:Er.
    cbn [snd] in Hm. subst m1.
    destruct (IH (i + 1) m) as [IHm IHk].
    destruct (DIC.decode_slots hart base n (i + 1) m) as [rest m2].
    cbn [fst snd] in *. split; [exact IHm|].
    intros [|k] Hk.
    + cbn. rewrite Z.add_0_r, Er. reflexivity.
    + change (rest !! k
              = Some (rv_instr_decode
                        (fst (physmem_read32 hart
                                (base + (i + Z.of_nat (S k)) * DIC.INSTR_SIZE)
                                false m)))).
      rewrite (IHk k) by lia. do 4 f_equal. lia.
Qed.

Lemma cache_item_page_decode_pure (cpu : rv_cpu_t) (c : DIC.cache_item_t)
    (m : physmem) (phys : Z) :
  (forall a m0, snd (physmem_read32 (mhartid (csr cpu)) a false m0) = m0) ->
  DIC.addr c = ALIGN_DOWN phys DIC.FRAME_SIZE ->
  snd (DIC.cache_item_page_decode cpu c m) = m
  /\ DIC.instrs (fst (DIC.cache_item_page_decode cpu c m))
       !! Z.to_nat (DIC.PHYS2CACHEINSTR phys)
     = Some (rv_instr_decode
               (fst (physmem_read32 (mhartid (csr cpu)) (ALIGN_DOWN phys 4)
                       false m))).
Proof.
  intros Hpure Haddr. unfold DIC.cache_item_page_decode.
  destruct (decode_slots_pure (mhartid (csr cpu)) (DIC.addr c)
              (Z.to_nat (DIC.FRAME_SIZE / DIC.INSTR_SIZE)) 0 m Hpure)
    as [Hm Hk].
  destruct (DIC.decode_slots _ _ _ _ m) as [slots m1].
  cbn [fst snd DIC.instrs] in *. split; [exact Hm|].
  pose proof (PHYS2CACHEINSTR_range phys) as Hr.
  rewrite Hk by (change (DIC.FRAME_SIZE / DIC.INSTR_SIZE) with 1024; lia).
  rewrite Z2Nat.id, Z.add_0_l, Haddr, slot_address by lia. reflexivity.
Qed.

(** When quiet reads leave memory as it is, the executor [fetch_instr]
    returns after decoding a frame (a miss in RAM, or a hit on a frame
    whose bit [valid] is clear) is the decoding of the word at [phys]
    aligned down to four bytes, and memory changes only by the bit [valid]
    of that frame. *)
Theorem fetch_instr_decodes_aligned_word (cpu : rv_cpu_t) (phys : Z)
    (cache cache' : list DIC.cache_item_t) (m m' : physmem)
    (frame : frame_t) (f : rv_instr_func_t) :
  (forall a m0, snd (physmem_read32 (mhartid (csr cpu)) a false m0) = m0) ->
  DIC.frame_to_decode cache phys m = Some frame ->
  DIC.fetch_instr cpu phys cache m = Some (f, cache', m') ->
  f = rv_instr_decode
        (fst (physmem_read32 (mhartid (csr cpu)) (ALIGN_DOWN phys 4) false m))
  /\ m' = frame_set_valid frame true m.
Proof.
  intros Hpure. unfold DIC.frame_to_decode, DIC.fetch_instr.
  destruct (DIC.cache_hit cache phys) as [[pos c]|] eqn:Ehit.
  - destruct (cache_hit_Some _ _ _ _ Ehit) as [_ Haddr].
    unfold DIC.update_cache_item.
    destruct (physmem_find_frame (DIC.addr c) m) as [fr|]; [|discriminate].
    destruct (frame_valid fr m); [discriminate|]. intros [= ->].
    destruct (cache_item_page_decode_pure cpu c m phys Hpure Haddr)
      as [Hm Hslot].
    destruct (DIC.cache_item_page_decode cpu c m) as [c1 m1].
    cbn [fst snd] in *. subst m1. rewrite Hslot. now intros [= <- _ <-].
  - unfold DIC.cache_try_add. intros ->.
    destruct (cache_item_page_decode_pure cpu
                (DIC.mk_item (ALIGN_DOWN phys DIC.FRAME_SIZE) []) m phys
                Hpure eq_refl) as [Hm Hslot].
    destruct (DIC.cache_item_page_decode cpu _ m) as [c1 m1].
    cbn [fst snd] in *. subst m1. rewrite Hslot. now intros [= <- _ <-].
Qed.

(** A hit on a frame whose bit [valid] is set reads nothing: [fetch_instr]
    returns the executor stored in the slot of [phys], whatever memory
    holds there now, and leaves the cache and memory as they are. *)
Theorem fetch_instr_reuses_valid_frame (cpu : rv_cpu_t) (phys : Z)
    (cache : list DIC.cache_item_t) (m : physmem)
    (pos : nat) (c : DIC.cache_item_t) (frame : frame_t) :
  DIC.cache_hit cache phys = Some (pos, c) ->
  physmem_find_frame (ALIGN_DOWN phys DIC.FRAME_SIZE) m = Some frame ->
  frame_valid frame m = true ->
  DIC.fetch_instr cpu phys cache m
  = (fun f => (f, cache, m))
      <$> DIC.instrs c !! Z.to_nat (DIC.PHYS2CACHEINSTR phys).
Proof.
  intros Ehit Hframe Hvalid. unfold DIC.fetch_instr. rewrite Ehit.
  destruct (cache_hit_Some _ _ _ _ Ehit) as [Hpos Haddr].
  unfold DIC.update_cache_item. rewrite Haddr, Hframe, Hvalid.
  rewrite (list_insert_id _ _ _ Hpos).
  now destruct (DIC.instrs c !! Z.to_nat (DIC.PHYS2CACHEINSTR phys)).
Qed.

(** [rv_cpu_done] empties the cache, whatever it held. *)
Lemma rv_cpu_done_empty (cache : list DIC.cache_item_t) :
  DIC.rv_cpu_done cache = [].
Proof. induction cache as [|c cache IH]; [reflexivity|exact IH]. Qed.

(** [fetch_instr] fails exactly on a hit whose frame is no longer in RAM. *)
Lemma fetch_instr_aborts_iff (cpu : rv_cpu_t) (phys : Z)
    (cache : list DIC.cache_item_t) (m : physmem) :
  DIC.cache_wf cache ->
  DIC.fetch_instr cpu phys cache m = None
  <-> is_Some (DIC.cache_hit cache phys)
      /\ physmem_find_frame (ALIGN_DOWN phys DIC.FRAME_SIZE) m = None.
Proof.
  intros [Hall _]. unfold DIC.fetch_instr.
  destruct (DIC.cache_hit cache phys) as [[pos c]|] eqn:Ehit.
  - destruct (cache_hit_Some _ _ _ _ Ehit) as [Hpos Haddr].
    assert (Hc : DIC.item_wf c)
      by (eapply (proj1 (Forall_lookup _ _) Hall); exact Hpos).
    destruct (DIC.update_cache_item cpu c m) as [[c' m']|] eqn:Eup.
    + destruct (update_cache_item_wf _ _ _ _ _ Hc Eup) as [Hc' _].
      destruct (slot_in_item c' phys Hc') as [f ->].
      split; [discriminate|]. intros [_ Hnone].
      unfold DIC.update_cache_item in Eup. rewrite Haddr, Hnone in Eup.
      discriminate Eup.
    + split; [|reflexivity]. intros _. split; [eauto|].
      unfold DIC.update_cache_item in Eup. rewrite Haddr in Eup.
      destruct (physmem_find_frame (ALIGN_DOWN phys DIC.FRAME_SIZE) m)
        as [frame|]; [|reflexivity].
      destruct (frame_valid frame m); [discriminate|].
      now destruct (DIC.cache_item_page_decode cpu c m).
  - split; [|intros [[? [=]] _]].
    unfold DIC.cache_try_add.
    destruct (physmem_find_frame phys m) as [frame|].
    + pose proof (cache_item_page_decode_wf cpu
                    (DIC.mk_item (ALIGN_DOWN phys DIC.FRAME_SIZE) []) m)
        as [Ha Hl].
      destruct (DIC.cache_item_page_decode cpu _ m) as [c1 m1].
      cbn [fst DIC.addr] in Ha, Hl.
      assert (Hc1 : DIC.item_wf c1).
      { split; [|exact Hl]. rewrite Ha. apply ALIGN_DOWN_frame_idem. }
      destruct (slot_in_item c1 phys Hc1) as [f ->]. discriminate.
    + now destruct (physmem_read32 (mhartid (csr cpu)) phys true m).
Qed.

End CacheFacts.

(** * The step on the cache of the sources *)

Section LinkedStep.

Context {platform : Platform} {pm : PhysMem} {ft : FrameTable}
        {dec : InstrDecoder}.

(** The accessors of the memory layer, and so the walk, leave the cache
    alone. *)
Lemma sv32_walk_reads_cache (cpu : rv_cpu_t) (virt : Z) (noisy : bool)
    (s : DIC.cached) :
  fst (snd (sv32_walk_reads (pm := DIC.cached_mem) cpu virt noisy s)) = fst s.
Proof.
  unfold sv32_walk_reads. cbv zeta.
  cbn [physmem_read32 DIC.cached_mem]. unfold DIC.lift_read.
  destruct (physmem_read32 _ _ noisy (snd s)) as [v1 m1].
  destruct (negb (is_pte_valid (pte_from_uint v1))); [reflexivity|].
  destruct (is_pte_leaf (pte_from_uint v1)); [reflexivity|].
  cbn [snd fst].
  destruct (physmem_read32 _ _ noisy m1) as [v0 m0]. reflexivity.
Qed.

Lemma rv_convert_addr_cache (cpu : rv_cpu_t) (virt : Z)
    (wr fetch noisy : bool) (s s1 : DIC.cached) (ex : rv_exc_t)
    (phys : option Z) :
  rv_convert_addr (pm := DIC.cached_mem) cpu virt wr fetch noisy s
    = Some (ex, phys, s1) ->
  fst s1 = fst s.
Proof.
  intros H.
  assert (Hwf : wr && fetch = false).
  { unfold rv_convert_addr in H. now destruct (wr && fetch). }
  destruct (satp_active cpu) eqn:Hon.
  - rewrite rv_convert_addr_reads in H by assumption.
    pose proof (sv32_walk_reads_cache cpu virt noisy s) as Hc.
    destruct (sv32_walk_reads (pm := DIC.cached_mem) cpu virt noisy s)
      as [[[w a]|] s'].
    + cbn [snd] in Hc.
      destruct (is_access_allowed cpu (pte_from_uint w) wr fetch).
      * injection H as _ _ <-. destruct noisy; [|exact Hc].
        cbn [physmem_write32 DIC.cached_mem]. unfold DIC.lift_write.
        now destruct (physmem_write32 _ _ _ true (snd s')).
      * now injection H as _ _ <-.
    + cbn [snd] in Hc. now injection H as _ _ <-.
  - rewrite rv_convert_addr_inactive in H by assumption.
    now injection H as _ _ <-.
Qed.

(** On the cache of the sources, well formed: before and while the
    instruction runs, a step fails exactly when the hart is awake, its fetch
    address translates and the frame of the physical address is in the cache
    but no longer in RAM, the failed [ASSERT(frame != NULL)] of
    [update_cache_item].  After the instruction the only assertion that can
    fail is the one on the mode field of the trap vectors: when [mtvec] and
    [stvec] hold the direct or the vectored mode once the instruction has
    run, the step returns, with the state the instruction left. *)
Theorem step_completes (now : Z) (cpu : rv_cpu_t)
    (cache : list DIC.cache_item_t) (m : physmem) :
  DIC.cache_wf cache ->
  (executed (pm := DIC.cached_mem) (decoder := DIC.decoder) cpu (cache, m)
     = None
   <-> stdby cpu = false
       /\ exists phys m1,
            rv_convert_addr (pm := DIC.cached_mem) cpu (pc cpu) false true
              true (cache, m)
              = Some (rv_exc_none, Some phys, (cache, m1))
            /\ is_Some (DIC.cache_hit cache phys)
            /\ physmem_find_frame (ALIGN_DOWN phys DIC.FRAME_SIZE) m1 = None)
  /\ (forall ex c1 s1,
        executed (pm := DIC.cached_mem) (decoder := DIC.decoder) cpu
          (cache, m) = Some (ex, c1, s1) ->
        tvec_modes_valid c1 ->
        exists cpu',
          rv_cpu_step (pm := DIC.cached_mem) (decoder := DIC.decoder) now cpu
            (cache, m) = Some (cpu', s1))
  /\ (executed (pm := DIC.cached_mem) (decoder := DIC.decoder) cpu (cache, m)
       = None ->
      rv_cpu_step (pm := DIC.cached_mem) (decoder := DIC.decoder) now cpu
        (cache, m) = None).
Proof.
  intros Hwf.
  destruct (step_abort_cases (pm := DIC.cached_mem) (decoder := DIC.decoder)
              now cpu (cache, m)) as (Habort & Hret & Hnone).
  split; [|split; [exact Hret | exact Hnone]].
  rewrite Habort. split.
  - intros (Hs & phys & s1 & Hconv & Hf). split; [exact Hs|].
    pose proof (rv_convert_addr_cache _ _ _ _ _ _ _ _ _ Hconv) as Hc.
    destruct s1 as [cache1 m1]. cbn [fst] in Hc. subst cache1.
    exists phys, m1. split; [exact Hconv|].
    apply (fetch_instr_aborts_iff cpu phys cache m1 Hwf).
    cbn [fetch_instr DIC.decoder fst snd] in Hf.
    now destruct (DIC.fetch_instr cpu phys cache m1) as [[[f c'] m']|].
  - intros (Hs & phys & m1 & Hconv & Hhit & Hframe). split; [exact Hs|].
    exists phys, (cache, m1). split; [exact Hconv|].
    cbn [fetch_instr DIC.decoder fst snd].
    now rewrite (proj2 (fetch_instr_aborts_iff cpu phys cache m1 Hwf)
                   (conj Hhit Hframe)).
Qed.

End LinkedStep.

(** * Runs on the word RAM *)

Section Runs.

#[local] Existing Instance Scenario.platform.
#[local] Existing Instance WordRam.phys_mem.
#[local] Existing Instance WordRam.decoder.

(** Scenario S6: the step takes the machine timer interrupt. *)
Example S6_machine_timer_interrupt :
  exists cpu' m',
    rv_cpu_step 0 Scenario.timer_hart [] = Some (cpu', m')
    /\ mcause (csr cpu') = 0x80000007
    /\ mepc (csr cpu') = 0x1004
    /\ pc cpu' = 0x100
    /\ priv_mode cpu' = rv_mmode.
Proof. do 2 eexists. vm_compute. repeat split. Qed.

Lemma C1_m_trap_entry_witness :
  exists cpu',
    m_trap Scenario.timer_hart rv_exc_machine_timer_interrupt = Some cpu'
    /\ m_trap_entry Scenario.timer_hart rv_exc_machine_timer_interrupt cpu'.
Proof.
  apply (C1_m_trap_entry Scenario.timer_hart rv_exc_machine_timer_interrupt).
  - discriminate.
  - vm_compute. split; discriminate.
  - vm_compute. split; [discriminate | reflexivity].
  - left. reflexivity.
Defined.

(** A fetch from the U-mode hart with [MPRV] set and [MPP = M], under Sv32:
    the privilege the walk uses is M, not the [priv_mode] the statement
    gives to a fetch, and the address is not translated, although [satp] is
    not bare and U is below S; on the same hart without [MPRV] the address
    is translated through the megapage. *)
Lemma C2_counterexample_fetch_under_mprv :
  sv32_effective_priv Scenario.mprv_hart
    <> claimed_effective_priv Scenario.mprv_hart true
  /\ satp_active Scenario.mprv_hart
     <> negb (rv_csr_satp_is_bare Scenario.mprv_hart)
        && (claimed_effective_priv Scenario.mprv_hart true <=? rv_smode)
  /\ rv_convert_addr Scenario.mprv_hart 0x00400abc false true true
       Scenario.user_ram
     = Some (rv_exc_none, Some 0x00400abc, Scenario.user_ram)
  /\ rv_convert_addr Scenario.user_hart 0x00400abc false true true
       Scenario.user_ram
     = Some (rv_exc_none, Some 0x00800abc, (4, 0x2000DF) :: Scenario.user_ram).
Proof. vm_compute. repeat split; discriminate. Qed.

(** Under [MPRV] with [MPP = M] the fetch is not translated; without [MPRV]
    the same fetch is walked through the megapage, and the leaf is written
    back. *)
Lemma C2_translation_gate_witness :
  rv_convert_addr Scenario.mprv_hart 0x00400abc false true true
    Scenario.user_ram
  = Some (rv_exc_none, Some 0x00400abc, Scenario.user_ram)
  /\ rv_convert_addr Scenario.user_hart 0x00400abc false true true
       Scenario.user_ram
     = Some (rv_exc_none, Some 0x00800abc, (4, 0x2000DF) :: Scenario.user_ram).
Proof.
  destruct (C2_translation_gate (pm := WordRam.phys_mem) Scenario.mprv_hart
              0x00400abc false true true Scenario.user_ram eq_refl)
    as (_ & _ & H).
  destruct (C2_translation_gate (pm := WordRam.phys_mem) Scenario.user_hart
              0x00400abc false true true Scenario.user_ram eq_refl)
    as (_ & _ & H').
  split; [exact H | exact H'].
Defined.

(** A misaligned 32-bit load from an unmapped page: the page fault wins. *)
Lemma C3_page_fault_before_alignment_witness :
  IS_ALIGNED 0x00800001 4 = false
  /\ access_code load32 Scenario.user_hart 0x00800001 0 false true
       Scenario.user_ram
     = Some rv_exc_load_page_fault.
Proof.
  split; [reflexivity|].
  destruct (C3_page_fault_before_alignment (pm := WordRam.phys_mem) load32 Scenario.user_hart
              0x00800001 0 false true Scenario.user_ram eq_refl)
    as (H & _ & _).
  destruct (H rv_exc_load_page_fault) as [_ Hret];
    [reflexivity | discriminate | exact Hret].
Defined.

(** The fetch through the megapage: [0x00400abc] goes to [0x00800abc]. *)
Lemma C4_walk_preserves_offset_witness :
  0x00800abc mod 2 ^ 12 = 0x00400abc mod 2 ^ 12
  /\ 0x00800abc mod 2 ^ 22 = 0x00400abc mod 2 ^ 22
  /\ 0x00800abc / 2 ^ 22 = pte_ppn (pte_from_uint 0x2000DF) / 2 ^ 10.
Proof.
  destruct (C4_walk_preserves_offset (pm := WordRam.phys_mem)
              Scenario.user_hart 0x00400abc false true
              true Scenario.user_ram 0x00800abc
              ((4, 0x2000DF) :: Scenario.user_ram) eq_refl) as [H12 H].
  split; [exact H12 | exact (H eq_refl)].
Defined.

(** The step of scenario S6 returns, with [mip.MTIP] set. *)
Lemma C7_timer_bits_after_step_witness :
  match rv_cpu_step 0 Scenario.timer_hart [] with
  | Some (cpu', _) =>
    timer_bits_agree cpu' /\ Z.testbit (mip (csr cpu')) 7 = true
  | None => False
  end.
Proof.
  destruct (rv_cpu_step (pm := WordRam.phys_mem) 0 Scenario.timer_hart [])
    as [[cpu' m']|] eqn:Hstep.
  - split; [exact (C7_timer_bits_after_step _ _ _ _ _ Hstep)|].
    vm_compute in Hstep. injection Hstep as <- _. reflexivity.
  - vm_compute in Hstep. discriminate.
Defined.


(** A 32-bit store outside the RAM: the physical write fails and the store
    returns [rv_exc_none] on an unchanged hart. *)
Lemma C10_failed_store_is_silent_witness :
  WordRam.write 32 0 0x2000 0xdead true [] = (false, [])
  /\ rv_write_mem sw32 Scenario.reset_hart 0x2000 0xdead true []
     = Some (rv_exc_none, Scenario.reset_hart, []).
Proof.
  split; [reflexivity|].
  refine (proj1 (C10_failed_store_is_silent (platform := Scenario.platform)
                   (pm := WordRam.phys_mem) sw32 Scenario.reset_hart 0x2000
                   0xdead true [] 0x2000 [] _ _ _) false [] _);
    vm_compute; reflexivity.
Defined.


(** ** Runs of the further properties *)

Lemma s_trap_enters_S_mode_witness :
  exists cpu',
    s_trap Scenario.supervisor_hart rv_exc_supervisor_timer_interrupt
      = Some cpu'
    /\ s_trap_entry Scenario.supervisor_hart
         rv_exc_supervisor_timer_interrupt cpu'.
Proof.
  apply (s_trap_enters_S_mode Scenario.supervisor_hart
           rv_exc_supervisor_timer_interrupt).
  - discriminate.
  - vm_compute. split; [discriminate | reflexivity].
  - left. reflexivity.
Defined.

Lemma m_trap_footprint_witness :
  exists cpu',
    m_trap Scenario.timer_hart rv_exc_machine_timer_interrupt = Some cpu'
    /\ outside_m_trap cpu' = outside_m_trap Scenario.timer_hart
    /\ Z.testbit (mstatus (csr cpu')) 17
       = Z.testbit (mstatus (csr Scenario.timer_hart)) 17.
Proof.
  destruct (m_trap Scenario.timer_hart rv_exc_machine_timer_interrupt)
    as [cpu'|] eqn:H; [|vm_compute in H; discriminate].
  exists cpu'. split; [reflexivity|].
  destruct (m_trap_footprint _ _ _ H) as [Hout Hbits].
  split; [exact Hout|]. apply Hbits; lia.
Defined.

Lemma s_trap_footprint_witness :
  exists cpu',
    s_trap Scenario.supervisor_hart rv_exc_supervisor_timer_interrupt
      = Some cpu'
    /\ outside_s_trap cpu' = outside_s_trap Scenario.supervisor_hart
    /\ Z.testbit (mstatus (csr cpu')) 3
       = Z.testbit (mstatus (csr Scenario.supervisor_hart)) 3.
Proof.
  destruct (s_trap Scenario.supervisor_hart rv_exc_supervisor_timer_interrupt)
    as [cpu'|] eqn:H; [|vm_compute in H; discriminate].
  exists cpu'. split; [reflexivity|].
  destruct (s_trap_footprint _ _ _ H) as [Hout Hbits].
  split; [exact Hout|]. apply Hbits; lia.
Defined.

Lemma taken_interrupt_is_due_witness :
  try_handle_interrupt Scenario.pending_timer_hart
    = m_trap Scenario.pending_timer_hart rv_exc_machine_timer_interrupt
  /\ Z.testbit (effective_mip Scenario.pending_timer_hart) 7 = true
  /\ Z.testbit (mie (csr Scenario.pending_timer_hart)) 7 = true.
Proof.
  destruct (taken_interrupt_is_due Scenario.pending_timer_hart to_M
              rv_exc_machine_timer_interrupt eq_refl) as (H1 & H2 & H3 & _).
  split; [exact H1|]. split; [exact H2 | exact H3].
Defined.

Lemma first_machine_interrupt_is_taken_witness :
  try_handle_interrupt Scenario.pending_timer_hart
    = m_trap Scenario.pending_timer_hart rv_exc_machine_timer_interrupt.
Proof.
  apply (first_machine_interrupt_is_taken Scenario.pending_timer_hart
           [rv_exc_machine_external_interrupt;
            rv_exc_machine_software_interrupt]
           [rv_exc_supervisor_external_interrupt;
            rv_exc_supervisor_software_interrupt;
            rv_exc_supervisor_timer_interrupt]
           rv_exc_machine_timer_interrupt).
  - reflexivity.
  - reflexivity.
  - reflexivity.
  - intros j [<- | [<- | []]]; reflexivity.
Defined.

Lemma first_supervisor_interrupt_is_taken_witness :
  try_handle_interrupt Scenario.supervisor_hart
    = s_trap Scenario.supervisor_hart rv_exc_supervisor_timer_interrupt.
Proof.
  apply (first_supervisor_interrupt_is_taken Scenario.supervisor_hart
           [rv_exc_supervisor_external_interrupt;
            rv_exc_supervisor_software_interrupt]
           [] rv_exc_supervisor_timer_interrupt).
  - reflexivity.
  - intros j [<- | [<- | [<- | [<- | [<- | [<- | []]]]]]]; reflexivity.
  - reflexivity.
  - reflexivity.
  - intros j [<- | [<- | []]]; reflexivity.
Defined.

(** The step of scenario S6 leaves [tval_next] and [x0] zero and the hart
    four bytes before [pc_next]. *)
Lemma step_postconditions_witness :
  match rv_cpu_step 0 Scenario.timer_hart [] with
  | Some (cpu', _) =>
    tval_next (csr cpu') = 0
    /\ regs cpu' !! 0%nat = Some 0
    /\ pc_next cpu' = (pc cpu' + 4) mod 2 ^ 32
  | None => False
  end.
Proof.
  destruct (rv_cpu_step (pm := WordRam.phys_mem) 0 Scenario.timer_hart [])
    as [[cpu' m']|] eqn:Hstep; [|vm_compute in Hstep; discriminate].
  destruct (step_postconditions _ _ _ _ _ Hstep) as (Ht & _ & Hpc).
  split; [exact Ht|].
  vm_compute in Hstep. injection Hstep as <- _.
  split; [reflexivity | apply Hpc; reflexivity].
Defined.

(** The sleeping timer hart is woken by the machine timer interrupt; the
    return address is the [pc_next] it went to sleep with. *)
Lemma standby_step_witness :
  match rv_cpu_step 0 Scenario.standby_hart [] with
  | Some (cpu', m') =>
    m' = []
    /\ instret (csr cpu') = 0
    /\ trap_taken to_M 0x1004 0x80000007 0 cpu'
  | None => False
  end.
Proof.
  destruct (rv_cpu_step (pm := WordRam.phys_mem) 0 Scenario.standby_hart [])
    as [[cpu' m']|] eqn:Hstep; [|vm_compute in Hstep; discriminate].
  pose proof (standby_step 0 Scenario.standby_hart cpu' [] m' eq_refl Hstep)
    as (Hm & Hi & Ht).
  split; [exact Hm|]. split; [exact Hi | exact Ht].
Defined.

(** The reset hart runs the instruction that does nothing and moves on. *)
Lemma step_without_exception_witness :
  match rv_cpu_step 0 Scenario.reset_hart [] with
  | Some (cpu', m') =>
    m' = []
    /\ regs cpu' = <[0%nat := 0]> (regs Scenario.reset_hart)
    /\ stdby cpu' = false /\ priv_mode cpu' = rv_mmode /\ pc cpu' = 0x1004
  | None => False
  end.
Proof.
  destruct (rv_cpu_step (pm := WordRam.phys_mem) 0 Scenario.reset_hart [])
    as [[cpu' m']|] eqn:Hstep; [|vm_compute in Hstep; discriminate].
  exact (step_without_exception 0 Scenario.reset_hart Scenario.reset_hart
           cpu' [] [] m' eq_refl eq_refl Hstep).
Defined.

(** On the decoder that knows no instruction the reset hart traps to M-mode
    with the cause 2; the return address is the [pc] of the instruction. *)
Lemma step_with_exception_witness :
  match rv_cpu_step (decoder := WordRam.decoder_illegal) 0
          Scenario.reset_hart [] with
  | Some (cpu', m') =>
    m' = []
    /\ instret (csr cpu') = 0
    /\ trap_taken to_M 0x1000 2 0xFFFFFFFF cpu'
  | None => False
  end.
Proof.
  destruct (rv_cpu_step (pm := WordRam.phys_mem)
              (decoder := WordRam.decoder_illegal) 0 Scenario.reset_hart [])
    as [[cpu' m']|] eqn:Hstep; [|vm_compute in Hstep; discriminate].
  destruct (step_with_exception (decoder := WordRam.decoder_illegal) 0
              Scenario.reset_hart
              (upd_csr (csr_set_tval_next 0xFFFFFFFF) Scenario.reset_hart)
              cpu' [] [] m' rv_exc_illegal_instruction eq_refl eq_refl
              ltac:(discriminate) eq_refl Hstep) as (Hm & _ & Hi & Ht).
  split; [exact Hm|]. split; [exact Hi | exact Ht].
Defined.

(** The U-mode hart fetches at [0x1000], which its page table does not map:
    an instruction page fault, with the trap value 0. *)
Lemma fetch_fault_step_witness :
  match rv_cpu_step 0 Scenario.user_hart Scenario.user_ram with
  | Some (cpu', m') =>
    execute Scenario.user_hart Scenario.user_ram
      = Some (rv_exc_instruction_page_fault, Scenario.user_hart,
              Scenario.user_ram)
    /\ m' = Scenario.user_ram
    /\ trap_taken to_M 0x1000 12 0 cpu'
  | None => False
  end.
Proof.
  destruct (rv_cpu_step (pm := WordRam.phys_mem) 0 Scenario.user_hart
              Scenario.user_ram)
    as [[cpu' m']|] eqn:Hstep; [|vm_compute in Hstep; discriminate].
  destruct (fetch_fault_step (pm := WordRam.phys_mem) 0 Scenario.user_hart cpu' Scenario.user_ram
              Scenario.user_ram m' rv_exc_instruction_page_fault None
              eq_refl eq_refl ltac:(discriminate) Hstep)
    as (He & Hm & _ & _ & Ht).
  split; [exact He|]. split; [exact Hm | exact Ht].
Defined.

(** The trap value of the illegal instruction is the word fetched. *)
Lemma illegal_instruction_step_witness :
  match rv_cpu_step (decoder := WordRam.decoder_illegal) 0
          Scenario.reset_hart [] with
  | Some (cpu', m') => m' = [] /\ mtval (csr cpu') = 0xFFFFFFFF
  | None => False
  end.
Proof.
  destruct (rv_cpu_step (pm := WordRam.phys_mem)
              (decoder := WordRam.decoder_illegal) 0 Scenario.reset_hart [])
    as [[cpu' m']|] eqn:Hstep; [|vm_compute in Hstep; discriminate].
  destruct (illegal_instruction_step (pm := WordRam.phys_mem)
              (decoder := WordRam.decoder_illegal) 0
              Scenario.reset_hart Scenario.reset_hart cpu'
              [] [] [] [] [] m' 0x1000 0xFFFFFFFF WordRam.illegal
              eq_refl eq_refl eq_refl eq_refl eq_refl Hstep)
    as (Hm & _ & _ & _ & _ & _ & Ht).
  split; [exact Hm | exact Ht].
Defined.

(** The fetch of the U-mode hart through its megapage is permitted: the
    leaf is valid, executable and a user page. *)
Lemma translation_succeeds_iff_permitted_witness :
  exists ex phys m',
    rv_convert_addr Scenario.user_hart 0x00400abc false true true
      Scenario.user_ram = Some (ex, phys, m')
    /\ (ex = rv_exc_none <->
        exists w a,
          fst (sv32_walk_reads Scenario.user_hart 0x00400abc true
                 Scenario.user_ram) = Some (w, a)
          /\ is_pte_valid (pte_from_uint w) = true
          /\ is_pte_leaf (pte_from_uint w) = true
          /\ access_permitted Scenario.user_hart (pte_from_uint w) false true)
    /\ (ex <> rv_exc_none ->
        ex = page_fault_exception false true /\ phys = None).
Proof.
  exact (translation_succeeds_iff_permitted (pm := WordRam.phys_mem)
           Scenario.user_hart 0x00400abc false true true Scenario.user_ram
           eq_refl eq_refl).
Defined.

(** The noisy walk writes the leaf back with the accessed bit: [0x2000DF]
    already has it, and the dirty bit stays as it was. *)
Lemma translation_memory_effect_witness :
  exists w a,
    fst (sv32_walk_reads Scenario.user_hart 0x00400abc true Scenario.user_ram)
      = Some (w, a)
    /\ (0 <= w < 2 ^ 32 ->
        (4, 0x2000DF) :: Scenario.user_ram
        = snd (WordRam.write 32 0 a (pte_word_touched w false) true
                 (snd (sv32_walk_reads Scenario.user_hart 0x00400abc true
                         Scenario.user_ram)))).
Proof.
  destruct (translation_memory_effect (pm := WordRam.phys_mem)
              Scenario.user_hart 0x00400abc false true true Scenario.user_ram
              rv_exc_none (Some 0x00800abc)
              ((4, 0x2000DF) :: Scenario.user_ram) eq_refl) as [_ H].
  destruct (H eq_refl) as [_ Hw]. exact (Hw eq_refl eq_refl).
Defined.

Lemma translation_address_bound_witness :
  0 <= 0x00800abc < 2 ^ 34.
Proof.
  destruct (translation_address_bound (pm := WordRam.phys_mem)
              Scenario.user_hart 0x00400abc false true true Scenario.user_ram
              0x00800abc ((4, 0x2000DF) :: Scenario.user_ram)
              ltac:(lia) eq_refl) as [H _].
  exact H.
Defined.

(** A 32-bit store of the reset hart to [MTIMECMP], and the load back. *)
Lemma timer_store_load_round_trip_witness :
  rv_write_mem sw32 Scenario.reset_hart 0xFF000008 0xdeadbeef true []
    = Some (rv_exc_none,
            upd_csr (csr_set_mtimecmp 0xdeadbeef) Scenario.reset_hart, [])
  /\ rv_read_mem sw32
       (upd_csr (csr_set_mtimecmp 0xdeadbeef) Scenario.reset_hart)
       0xFF000008 false true []
     = Some (rv_exc_none, Some 0xdeadbeef,
             upd_csr (csr_set_mtimecmp 0xdeadbeef) Scenario.reset_hart, []).
Proof.
  destruct (timer_store_load_round_trip (platform := Scenario.platform)
              (pm := WordRam.phys_mem) sw32 Scenario.reset_hart
              (upd_csr (csr_set_mtimecmp 0xdeadbeef) Scenario.reset_hart)
              0xFF000008 0xdeadbeef false true [] eq_refl)
    as (_ & _ & Hw & _ & Hr).
  split; [exact Hw | exact Hr].
Defined.



(** The debugger cannot move the reset hart to a misaligned address. *)
Lemma rv_cpu_set_pc_keeps_alignment_witness :
  rv_cpu_set_pc Scenario.reset_hart 0x2002 = Scenario.reset_hart
  /\ pc (rv_cpu_set_pc Scenario.reset_hart 0x2000) = 0x2000
  /\ pc_next (rv_cpu_set_pc Scenario.reset_hart 0x2000) = 0x2004.
Proof.
  destruct (rv_cpu_set_pc_keeps_alignment Scenario.reset_hart 0x2002
              eq_refl eq_refl) as (_ & _ & H & _).
  destruct (rv_cpu_set_pc_keeps_alignment Scenario.reset_hart 0x2000
              eq_refl eq_refl) as (_ & _ & _ & H' & _).
  split; [exact (H eq_refl) | exact (H' eq_refl)].
Defined.

(** The first fetch at [0x10] caches frame 0. *)
Lemma fetch_instr_keeps_cache_wf_witness :
  exists f cache' m',
    DIC.fetch_instr (ft := WordRam.frame_table) (dec := WordRam.instr_decoder)
      Scenario.reset_hart 0x10 [] Scenario.code_ram = Some (f, cache', m')
    /\ DIC.cache_wf cache'
    /\ map DIC.addr cache' = [0]
    /\ is_Some (DIC.cache_hit cache' 0x10).
Proof.
  destruct (fetch_instr_keeps_cache_wf (pm := WordRam.phys_mem)
              (ft := WordRam.frame_table) (dec := WordRam.instr_decoder)
              Scenario.reset_hart 0x10 [] Scenario.code_ram)
    as (f & cache' & m' & Hf & Hwf & Hmap & Hhit).
  - split; constructor.
  - intros [? [=]].
  - exists f, cache', m'. split; [exact Hf|]. split; [exact Hwf|].
    split; [exact Hmap|]. apply Hhit. right. eexists. reflexivity.
Defined.

(** The executor of the first fetch at [0x12] is the decoding of the word 0
    at [0x10], and the frame becomes valid. *)
Lemma fetch_instr_decodes_aligned_word_witness :
  WordRam.nop = WordRam.decode (fst (WordRam.read 32 0 0x10 false
                                       Scenario.code_ram))
  /\ (-1, 1) :: Scenario.code_ram
     = WordRam.set_frame_valid 0 true Scenario.code_ram.
Proof.
  exact (fetch_instr_decodes_aligned_word (pm := WordRam.phys_mem)
           (ft := WordRam.frame_table) (dec := WordRam.instr_decoder)
           Scenario.reset_hart 0x12 []
           [DIC.mk_item 0
              (fst (DIC.decode_slots (dec := WordRam.instr_decoder) 0 0 1024 0
                      Scenario.code_ram))]
           Scenario.code_ram ((-1, 1) :: Scenario.code_ram) 0 WordRam.nop
           (fun _ _ => eq_refl) eq_refl eq_refl).
Defined.

(** The frame is valid, so the stored executor is returned although the
    word at [0x10] now decodes to [nop]. *)
Lemma fetch_instr_reuses_valid_frame_witness :
  DIC.fetch_instr (ft := WordRam.frame_table) (dec := WordRam.instr_decoder)
    Scenario.reset_hart 0x10 DIC.stale_cache DIC.valid_ram
  = Some (WordRam.illegal, DIC.stale_cache, DIC.valid_ram).
Proof.
  exact (fetch_instr_reuses_valid_frame (pm := WordRam.phys_mem)
           (ft := WordRam.frame_table) (dec := WordRam.instr_decoder)
           Scenario.reset_hart 0x10 DIC.stale_cache DIC.valid_ram 0%nat
           (DIC.mk_item 0 (replicate 1024 WordRam.illegal)) 0
           eq_refl eq_refl eq_refl).
Defined.

(** After the timer hart has taken its interrupt, the interrupt, still
    pending, is not taken again. *)
Lemma trap_entry_masks_interrupts_witness :
  exists cpu',
    m_trap Scenario.pending_timer_hart rv_exc_machine_timer_interrupt
      = Some cpu'
    /\ interrupt_to_take Scenario.pending_timer_hart <> None
    /\ try_handle_interrupt cpu' = Some cpu'.
Proof.
  destruct (m_trap Scenario.pending_timer_hart rv_exc_machine_timer_interrupt)
    as [cpu'|] eqn:H; [|vm_compute in H; discriminate].
  exists cpu'. split; [reflexivity|]. split; [vm_compute; discriminate|].
  exact (trap_entry_masks_interrupts to_M _ _ _ H).
Defined.

(** The page fault of the U-mode hart enters M-mode. *)
Lemma traps_never_lower_privilege_witness :
  exists cpu',
    handle_exception Scenario.user_hart rv_exc_instruction_page_fault
      = Some cpu'
    /\ priv_mode Scenario.user_hart <= priv_mode cpu'.
Proof.
  destruct (handle_exception Scenario.user_hart rv_exc_instruction_page_fault)
    as [cpu'|] eqn:H; [|vm_compute in H; discriminate].
  exists cpu'. split; [reflexivity|].
  apply (traps_never_lower_privilege Scenario.user_hart cpu'
           rv_exc_instruction_page_fault).
  - left. reflexivity.
  - left. exact H.
Defined.

(** On the word RAM with the cache: the step of the reset hart returns, its
    fetch at [0x1000] being outside the RAM; with the frame [0x1000] still
    in the cache, [fetch_instr] fails its assertion and so does the step. *)
Lemma step_completes_witness :
  (exists cpu' s',
     rv_cpu_step (pm := DIC.word_mem) (decoder := DIC.word_decoder) 0
       Scenario.reset_hart ([], []) = Some (cpu', s'))
  /\ rv_cpu_step (pm := DIC.word_mem) (decoder := DIC.word_decoder) 0
       Scenario.reset_hart (DIC.lost_cache, []) = None.
Proof.
  split.
  - destruct (step_completes (pm := WordRam.phys_mem)
                (ft := WordRam.frame_table) (dec := WordRam.instr_decoder)
                0 Scenario.reset_hart [] [])
      as (_ & Hret & _); [split; constructor|].
    destruct (Hret rv_exc_illegal_instruction
                (upd_csr (csr_set_tval_next 0xFFFFFFFF) Scenario.reset_hart)
                ([], []) eq_refl) as [cpu' Hstep].
    + split; left; reflexivity.
    + exists cpu', ([], []). exact Hstep.
  - destruct (step_completes (pm := WordRam.phys_mem)
                (ft := WordRam.frame_table) (dec := WordRam.instr_decoder)
                0 Scenario.reset_hart DIC.lost_cache [])
      as (Habort & _ & Hnone).
    + split.
      * constructor; [split; reflexivity | constructor].
      * constructor; [intros H; inversion H | constructor].
    + apply Hnone, Habort. split; [reflexivity|].
      exists 0x1000, []. split; [reflexivity|].
      split; [eexists; reflexivity | reflexivity].
Defined.
End Runs.
